(** * readme-generator-for-helm: the values-file parser (lib/parser.js)

    A shallow embedding of [lib/parser.js]: the comment-tag scanner
    [parseMetadataComments] with its helpers [parseYamlLine],
    [buildCurrentPath] and [updatePathStack], and the value flattener
    [createValuesObject].

    Conventions of the embedding.
    - A JavaScript string is a [string]; one character is one code unit
      below 256.  In that range the class [\s] (and what [trim] strips) is
      TAB, LF, VT, FF, CR, SPACE and NBSP, and [.] excludes LF and CR.
    - A JavaScript array is a [list] in index order: [push] appends at the
      end and [pop] removes the last element.
    - A regular expression is a term of [regex], run by a backtracking
      matcher that tries alternatives in the order the JavaScript engine
      does (greedy: longer first; lazy: shorter first).
    - A call that throws (a TypeError of the source, or a throw inside a
      collaborator) returns [None].
    - [parseMetadataComments] takes the text [fs.readFileSync] returned
      and [createValuesObject] the tree [YAML.parse] returned; a number of
      the tree is an integer.
    - The classes Parameter, Section and Metadata, lib/utils.js,
      dot-object and lodash are not among the sources.  The classes are
      modelled from the data model of the specification; the flattener is
      written over any collaborators ([Lib]), and [Ref] models them from
      the specification for the examples. *)

From Stdlib Require Import List Bool Arith Lia String Ascii ZArith DecimalString Sorted.
Import ListNotations.
Open Scope string_scope.
Open Scope bool_scope.
Open Scope list_scope.
Open Scope nat_scope.

Set Implicit Arguments.
Set Warnings "-register-all".

(* ================================================================== *)
(** ** JavaScript strings *)
(* ================================================================== *)

Module JsString.

Definition code (a : ascii) : nat := nat_of_ascii a.

(** The class [\s], which is also the set [String.prototype.trim] strips. *)
Definition isSpace (a : ascii) : bool :=
  let n := code a in
  ((9 <=? n) && (n <=? 13)) || (n =? 32) || (n =? 160).

(** Line terminators, the characters [.] does not match. *)
Definition isLineTerminator (a : ascii) : bool :=
  let n := code a in (n =? 10) || (n =? 13).

Fixpoint trimStart (s : string) : string :=
  match s with
  | String a s' => if isSpace a then trimStart s' else s
  | EmptyString => EmptyString
  end.

Fixpoint rev (s : string) : string :=
  match s with
  | EmptyString => EmptyString
  | String a s' => (rev s' ++ String a EmptyString)%string
  end.

Definition trimEnd (s : string) : string := rev (trimStart (rev s)).

Definition trim (s : string) : string := trimEnd (trimStart s).

(** [stripPrefix p s] is the rest of [s] after the prefix [p]. *)
Fixpoint stripPrefix (p s : string) : option string :=
  match p with
  | EmptyString => Some s
  | String a p' =>
      match s with
      | String b s' => if Ascii.eqb a b then stripPrefix p' s' else None
      | EmptyString => None
      end
  end.

Definition startsWith (s p : string) : bool :=
  match stripPrefix p s with Some _ => true | None => false end.

(** [s.split(sep)] for a one-character separator. *)
Fixpoint split (sep : ascii) (s : string) : list string :=
  match s with
  | EmptyString => [EmptyString]
  | String a s' =>
      if Ascii.eqb a sep then EmptyString :: split sep s'
      else match split sep s' with
           | piece :: rest => String a piece :: rest
           | [] => [String a EmptyString]
           end
  end.

(** [parts.join(sep)]. *)
Fixpoint join (sep : string) (parts : list string) : string :=
  match parts with
  | [] => EmptyString
  | [p] => p
  | p :: rest => (p ++ sep ++ join sep rest)%string
  end.

Definition isEmpty (s : string) : bool :=
  match s with EmptyString => true | _ => false end.

End JsString.

(* ================================================================== *)
(** ** Regular expressions *)
(* ================================================================== *)

Module Regex.

Inductive regex : Type :=
| Eps                                   (* the empty pattern *)
| Chr (p : ascii -> bool)               (* a character class *)
| Lit (s : string)                      (* a literal run of characters *)
| Cat (r1 r2 : regex)                   (* r1 r2 *)
| Star (greedy : bool) (r : regex)      (* r* and r*? *)
| Opt (r : regex)                       (* r? *)
| Grp (n : nat) (r : regex)             (* capture group number n *)
| Eoi.                                  (* $ without the m flag *)

Declare Scope regex_scope.
Delimit Scope regex_scope with re.
Notation "a >> b" := (Cat a b) (at level 61, right associativity) : regex_scope.
Bind Scope regex_scope with regex.

(** Captures: group number to captured text, latest binding first. *)
Definition caps := list (nat * string).

Fixpoint group (c : caps) (n : nat) : option string :=
  match c with
  | [] => None
  | (m, s) :: c' => if Nat.eqb m n then Some s else group c' n
  end.

(** What was consumed between input [s] and its suffix [s']. *)
Definition consumed (s s' : string) : string :=
  substring 0 (length s - length s') s.

Section Run.
Variable A : Type.

(** [run r s c k]: match [r] at the head of [s], then continue with
    [k] on the rest; [None] asks the caller to backtrack. An
    iteration of a star that consumes nothing is rejected, as in
    ECMAScript's RepeatMatcher. *)
Fixpoint run (r : regex) (s : string) (c : caps)
         (k : string -> caps -> option A) {struct r} : option A :=
  match r with
  | Eps => k s c
  | Chr p =>
      match s with
      | String a s' => if p a then k s' c else None
      | EmptyString => None
      end
  | Lit l =>
      match JsString.stripPrefix l s with
      | Some s' => k s' c
      | None => None
      end
  | Cat r1 r2 => run r1 s c (fun s' c' => run r2 s' c' k)
  | Opt r1 =>
      match run r1 s c k with
      | Some x => Some x
      | None => k s c
      end
  | Star greedy r1 =>
      (fix loop (fuel : nat) (s : string) (c : caps) {struct fuel} : option A :=
         match fuel with
         | 0 => k s c
         | S fuel' =>
             let again (_ : unit) :=
               run r1 s c (fun s' c' =>
                 if length s' <? length s then loop fuel' s' c' else None) in
             if greedy then
               match again tt with Some x => Some x | None => k s c end
             else
               match k s c with Some x => Some x | None => again tt end
         end) (length s) s c
  | Grp n r1 => run r1 s c (fun s' c' => k s' ((n, consumed s s') :: c'))
  | Eoi =>
      match s with
      | EmptyString => k s c
      | String _ _ => None
      end
  end.
End Run.

(** [s.match(r)] for a pattern anchored with [^]: the captures of the
    first successful path, or [None] for [null]. *)
Definition exec (r : regex) (s : string) : option caps :=
  run r s [] (fun _ c => Some c).

Definition ws : regex := Chr JsString.isSpace.
Definition notWs : regex := Chr (fun a => negb (JsString.isSpace a)).
Definition dot : regex := Chr (fun a => negb (JsString.isLineTerminator a)).
Definition chr (a : ascii) : regex := Chr (Ascii.eqb a).
Definition notChr (a : ascii) : regex := Chr (fun b => negb (Ascii.eqb a b)).

End Regex.
Import Regex.

(* ================================================================== *)
(** ** parseYamlLine, buildCurrentPath, updatePathStack *)
(* ================================================================== *)

(** The object [parseYamlLine] returns. When the pattern does not match
    the source returns [{ isYamlKey: false }]; the other fields are then
    undefined and never read, and hold the defaults of [notYamlKey]. *)
Record YamlInfo : Type := mkYamlInfo {
  isYamlKey : bool;
  indent : nat;
  key : string;
  value : string;
  hasValue : bool
}.

Definition notYamlKey : YamlInfo := mkYamlInfo false 0 "" "" false.

(** The source text of the pattern of [parseYamlLine], and its term. *)
Definition yamlKeyRegexSource : string := "^(\s*)([^#\s][^:]*?):\s*(.*)$".

Definition yamlKeyRegex : regex :=
  (Grp 1 (Star true ws)
   >> Grp 2 (Chr (fun a => negb (Ascii.eqb a "#" || JsString.isSpace a))
             >> Star false (notChr ":"))
   >> chr ":" >> Star true ws >> Grp 3 (Star true dot) >> Eoi)%re.

Definition orEmpty (o : option string) : string :=
  match o with Some s => s | None => "" end.

Definition parseYamlLine (line : string) : YamlInfo :=
  match exec yamlKeyRegex line with
  | Some m =>
      let indent := length (orEmpty (group m 1)) in
      let key := JsString.trim (orEmpty (group m 2)) in
      let value := JsString.trim (orEmpty (group m 3)) in
      let isComment := JsString.startsWith (JsString.trim line) "#" in
      mkYamlInfo (negb isComment) indent key value
        (negb (String.eqb value "") && negb (String.eqb value "{}")
         && negb (String.eqb value "[]"))
  | None => notYamlKey
  end.

Definition buildCurrentPath (pathStack : list string) : string :=
  if 0 <? List.length pathStack then JsString.join "." pathStack else "".

(** The [while] loop of [updatePathStack]; it pops at most
    [indentStack.length] times, which is the fuel. *)
Fixpoint popDeeper (fuel : nat) (pathStack : list string) (indentStack : list nat)
         (currentIndent : nat) : list string * list nat :=
  match fuel with
  | 0 => (pathStack, indentStack)
  | S fuel' =>
      if (0 <? List.length indentStack)
         && (currentIndent <=? List.last indentStack 0)
      then popDeeper fuel' (removelast pathStack) (removelast indentStack) currentIndent
      else (pathStack, indentStack)
  end.

Definition updatePathStack (pathStack : list string) (indentStack : list nat)
           (currentIndent : nat) (key : string) : list string * list nat :=
  let '(ps, ins) :=
    popDeeper (List.length indentStack) pathStack indentStack currentIndent in
  (ps ++ [key], ins ++ [currentIndent]).

(* ================================================================== *)
(** ** The data model: values, parameters, sections, metadata *)
(* ================================================================== *)

(** A value of the parsed YAML tree. A number is an integer here; an
    object is its entries in insertion order. *)
Inductive jsval : Type :=
| JNull
| JBool (b : bool)
| JNum (z : Z)
| JStr (s : string)
| JArr (elems : list jsval)
| JObj (entries : list (string * jsval)).

(** The tag a scanner parameter comes from. *)
Inductive TagKind : Type := TagParam | TagSkip | TagExtra.

(** The identity of a parameter object: the [new Parameter(...)] that
    made it.  The scanner runs at most one per line and tag kind, the
    flattener one per flattened path. *)
Inductive ObjId : Type :=
| FromTag (lineIndex : nat) (kind : TagKind)
| FromValue (index : nat).

(** Modelled from the spec: lib/parameter.js (class Parameter) is not
    among the sources.  A parameter holds the fields of the spec's data
    model; [None] is a field nothing was assigned to.  [oid] is the
    object's identity, not a field of the class.  The scanner writes a
    parameter's fields only before the object is added to a list, so a
    value with an identity stands for the shared object. *)
Record ParameterObj : Type := mkParameter {
  oid : ObjId;
  name : string;
  description : option string;
  modifiers : option (list string);
  section : option string;
  skip : bool;
  extra : bool;
  type : option string;
  pvalue : option jsval;
  schema : bool
}.

(** [new Parameter(name)]. *)
Definition newParameter (id : ObjId) (name : string) : ParameterObj :=
  mkParameter id name None None None false false None None true.

Definition setName (n : string) (p : ParameterObj) : ParameterObj :=
  mkParameter (oid p) n (description p) (modifiers p) (section p)
              (skip p) (extra p) (type p) (pvalue p) (schema p).
Definition setDescription (d : string) (p : ParameterObj) : ParameterObj :=
  mkParameter (oid p) (name p) (Some d) (modifiers p) (section p)
              (skip p) (extra p) (type p) (pvalue p) (schema p).
Definition setModifiers (m : list string) (p : ParameterObj) : ParameterObj :=
  mkParameter (oid p) (name p) (description p) (Some m) (section p)
              (skip p) (extra p) (type p) (pvalue p) (schema p).
Definition setSection (s : string) (p : ParameterObj) : ParameterObj :=
  mkParameter (oid p) (name p) (description p) (modifiers p) (Some s)
              (skip p) (extra p) (type p) (pvalue p) (schema p).
Definition setSkip (b : bool) (p : ParameterObj) : ParameterObj :=
  mkParameter (oid p) (name p) (description p) (modifiers p) (section p)
              b (extra p) (type p) (pvalue p) (schema p).
Definition setExtra (b : bool) (p : ParameterObj) : ParameterObj :=
  mkParameter (oid p) (name p) (description p) (modifiers p) (section p)
              (skip p) b (type p) (pvalue p) (schema p).
Definition setType (t : string) (p : ParameterObj) : ParameterObj :=
  mkParameter (oid p) (name p) (description p) (modifiers p) (section p)
              (skip p) (extra p) (Some t) (pvalue p) (schema p).
Definition setValue (v : option jsval) (p : ParameterObj) : ParameterObj :=
  mkParameter (oid p) (name p) (description p) (modifiers p) (section p)
              (skip p) (extra p) (type p) v (schema p).
Definition setSchema (b : bool) (p : ParameterObj) : ParameterObj :=
  mkParameter (oid p) (name p) (description p) (modifiers p) (section p)
              (skip p) (extra p) (type p) (pvalue p) b.

(** Modelled from the spec: lib/section.js (class Section) is not among
    the sources.  A section has a name, its description lines and its
    parameters, both in insertion order. *)
Record SectionObj : Type := mkSection {
  secName : string;
  secDescription : list string;
  secParameters : list ParameterObj
}.

Definition newSection (n : string) : SectionObj := mkSection n [] [].

Definition addParameterToSection (p : ParameterObj) (s : SectionObj) : SectionObj :=
  mkSection (secName s) (secDescription s) (secParameters s ++ [p]).

Definition addDescriptionLineToSection (l : string) (s : SectionObj) : SectionObj :=
  mkSection (secName s) (secDescription s ++ [l]) (secParameters s).

(** Modelled from the spec: lib/metadata.js (class Metadata) is not among
    the sources.  The aggregate keeps sections and parameters in insertion
    order; [addSection] and [addParameter] append. *)
Record Metadata : Type := mkMetadata {
  sections : list SectionObj;
  parameters : list ParameterObj
}.

Definition newMetadata : Metadata := mkMetadata [] [].

Definition addSection (s : SectionObj) (m : Metadata) : Metadata :=
  mkMetadata (sections m ++ [s]) (parameters m).

Definition addParameter (p : ParameterObj) (m : Metadata) : Metadata :=
  mkMetadata (sections m) (parameters m ++ [p]).

(** Writing through a reference into the section store. *)
Fixpoint updateAt {A : Type} (i : nat) (f : A -> A) (l : list A) : list A :=
  match l, i with
  | [], _ => []
  | x :: l', 0 => f x :: l'
  | x :: l', S i' => x :: updateAt i' f l'
  end.

(* ================================================================== *)
(** ** The comment-tag scanner: parseMetadataComments *)
(* ================================================================== *)

(** What [line.match(re)] yields for a parameter or extra pattern, read
    at the indices the source reads: [1] the explicit path, [2] the
    bracketed modifiers, [3] the description.  [None] is [undefined]. *)
Record TagMatch : Type := mkTagMatch {
  explicitPathGroup : option string;
  modifiersGroup : option string;
  descriptionGroup : string
}.

(** The seven patterns [parseMetadataComments] builds from the
    configuration, each as the function from a line to its match.  The
    configuration's strings are spliced into the patterns as pattern text,
    so a scanner over arbitrary matchers covers every configuration. *)
Record Matchers : Type := mkMatchers {
  paramRegex : string -> option TagMatch;
  sectionRegex : string -> option string;
  descriptionStartRegex : string -> option string;
  descriptionContentRegex : string -> option string;
  descriptionEndRegex : string -> option string;
  skipRegex : string -> option (option string * string);
  extraRegex : string -> option TagMatch
}.

(** The local variables of [parseMetadataComments].  [currentSection]
    is a reference into [sections parsedValues]: the section object is
    shared between the two and written through either. *)
Record ScanState : Type := mkScanState {
  parsedValues : Metadata;
  currentSection : option nat;
  descriptionParsing : bool;
  pathStack : list string;
  indentStack : list nat;
  pendingParam : option ParameterObj
}.

Definition initialState : ScanState :=
  mkScanState newMetadata None false [] [] None.

Definition setParsedValues (m : Metadata) (st : ScanState) : ScanState :=
  mkScanState m (currentSection st) (descriptionParsing st)
              (pathStack st) (indentStack st) (pendingParam st).
Definition setCurrentSection (r : option nat) (st : ScanState) : ScanState :=
  mkScanState (parsedValues st) r (descriptionParsing st)
              (pathStack st) (indentStack st) (pendingParam st).
Definition setDescriptionParsing (b : bool) (st : ScanState) : ScanState :=
  mkScanState (parsedValues st) (currentSection st) b
              (pathStack st) (indentStack st) (pendingParam st).
Definition setStacks (ps : list string * list nat) (st : ScanState) : ScanState :=
  mkScanState (parsedValues st) (currentSection st) (descriptionParsing st)
              (fst ps) (snd ps) (pendingParam st).
Definition setPendingParam (p : option ParameterObj) (st : ScanState) : ScanState :=
  mkScanState (parsedValues st) (currentSection st) (descriptionParsing st)
              (pathStack st) (indentStack st) p.

(** JavaScript truthiness of a string that may be [undefined]. *)
Definition truthy (o : option string) : bool :=
  match o with
  | Some s => negb (JsString.isEmpty s)
  | None => false
  end.

(** [m[2] ? m[2].split('[')[1].split(']')[0] : ''].  [None] is the
    TypeError of calling [split] on [undefined], when [m[2]] has no
    opening bracket. *)
Definition modifiersText (g2 : option string) : option string :=
  if truthy g2 then
    match nth_error (JsString.split "[" (orEmpty g2)) 1 with
    | Some t => Some (hd "" (JsString.split "]" t))
    | None => None
    end
  else Some "".

(** [modifiers.split(',').filter((m) => m).map((m) => m.trim())]. *)
Definition modifierList (m : string) : list string :=
  map JsString.trim
      (filter (fun m => negb (JsString.isEmpty m)) (JsString.split "," m)).

(** The block the source repeats after building a parameter:
    [if (currentSection) { p.section = currentSection.name;
    currentSection.addParameter(p); } parsedValues.addParameter(p);]
    A reference always points into the store (see [currentSection_valid]);
    for a dangling one the section part does nothing. *)
Definition attach (p : ParameterObj) (st : ScanState) : ScanState :=
  let md := parsedValues st in
  match currentSection st with
  | Some ref =>
      match nth_error (sections md) ref with
      | Some sec =>
          let p' := setSection (secName sec) p in
          setParsedValues
            (addParameter p'
               (mkMetadata (updateAt ref (addParameterToSection p') (sections md))
                           (parameters md))) st
      | None => setParsedValues (addParameter p md) st
      end
  | None => setParsedValues (addParameter p md) st
  end.

(** The look-ahead the source repeats after [pendingParam = p]: if the
    next line is a YAML key, name the parameter after the path the stacks
    would have, on copies of the stacks, attach it and clear the slot. *)
Definition lookAhead (next : option string) (p : ParameterObj) (st : ScanState)
  : ScanState :=
  match next with
  | Some nextLine =>
      let nextYamlInfo := parseYamlLine nextLine in
      if isYamlKey nextYamlInfo then
        let tempStacks :=
          updatePathStack (pathStack st) (indentStack st)
                          (indent nextYamlInfo) (key nextYamlInfo) in
        setPendingParam None
          (attach (setName (buildCurrentPath (fst tempStacks)) p) st)
      else setPendingParam (Some p) st
  | None => setPendingParam (Some p) st
  end.

(** Lines 96-110: path tracking and resolution of the pending parameter. *)
Definition stepYaml (line : string) (st : ScanState) : ScanState :=
  let yamlInfo := parseYamlLine line in
  if isYamlKey yamlInfo then
    let st1 :=
      setStacks (updatePathStack (pathStack st) (indentStack st)
                                 (indent yamlInfo) (key yamlInfo)) st in
    match pendingParam st1 with
    | Some pending =>
        setPendingParam None
          (attach (setName (buildCurrentPath (pathStack st1)) pending) st1)
    | None => st1
    end
  else st.

(** Lines 112-156: the parameter tag. *)
Definition stepParam (M : Matchers) (next : option string) (lineIndex : nat)
           (line : string) (st : ScanState) : option ScanState :=
  match paramRegex M line with
  | Some m =>
      match modifiersText (modifiersGroup m) with
      | Some mods =>
          let fresh n :=
            setDescription (descriptionGroup m)
              (setModifiers (modifierList mods)
                 (newParameter (FromTag lineIndex TagParam) n)) in
          if truthy (explicitPathGroup m)
          then Some (attach (fresh (orEmpty (explicitPathGroup m))) st)
          else Some (lookAhead next (fresh "") st)
      | None => None
      end
  | None => Some st
  end.

(** Lines 158-164: the section tag. *)
Definition stepSection (M : Matchers) (line : string) (st : ScanState) : ScanState :=
  match sectionRegex M line with
  | Some n =>
      let md := parsedValues st in
      setCurrentSection (Some (List.length (sections md)))
        (setParsedValues (addSection (newSection n) md) st)
  | None => st
  end.

Definition hasSection (st : ScanState) : bool :=
  match currentSection st with Some _ => true | None => false end.

Definition addDescriptionLine (l : string) (st : ScanState) : ScanState :=
  match currentSection st with
  | Some ref =>
      let md := parsedValues st in
      setParsedValues
        (mkMetadata (updateAt ref (addDescriptionLineToSection l) (sections md))
                    (parameters md)) st
  | None => st
  end.

Definition isSome {A : Type} (o : option A) : bool :=
  match o with Some _ => true | None => false end.

(** Lines 166-170: the description-end tag. *)
Definition stepDescriptionEnd (M : Matchers) (line : string) (st : ScanState)
  : ScanState :=
  if hasSection st && descriptionParsing st && isSome (descriptionEndRegex M line)
  then setDescriptionParsing false st
  else st.

(** Lines 172-177: a description content line. *)
Definition stepDescriptionContent (M : Matchers) (line : string) (st : ScanState)
  : ScanState :=
  match descriptionContentRegex M line with
  | Some text =>
      if hasSection st && descriptionParsing st
      then addDescriptionLine text st
      else st
  | None => st
  end.

(** Lines 179-186: the description-start tag. *)
Definition stepDescriptionStart (M : Matchers) (line : string) (st : ScanState)
  : ScanState :=
  match descriptionStartRegex M line with
  | Some text =>
      if hasSection st && negb (descriptionParsing st) then
        let st1 := setDescriptionParsing true st in
        if negb (String.eqb text "") then addDescriptionLine text st1 else st1
      else st
  | None => st
  end.

(** Lines 188-231: the skip tag. *)
Definition stepSkip (M : Matchers) (next : option string) (lineIndex : nat)
           (line : string) (st : ScanState) : ScanState :=
  match skipRegex M line with
  | Some (explicitPath, text) =>
      let fresh n :=
        setDescription text
          (setSkip true (newParameter (FromTag lineIndex TagSkip) n)) in
      if truthy explicitPath
      then attach (fresh (orEmpty explicitPath)) st
      else lookAhead next (fresh "") st
  | None => st
  end.

(** Lines 233-281: the extra tag. *)
Definition stepExtra (M : Matchers) (next : option string) (lineIndex : nat)
           (line : string) (st : ScanState) : option ScanState :=
  match extraRegex M line with
  | Some m =>
      match modifiersText (modifiersGroup m) with
      | Some mods =>
          let fresh n :=
            setExtra true
              (setValue (Some (JStr ""))
                 (setDescription (descriptionGroup m)
                    (setModifiers (modifierList mods)
                       (newParameter (FromTag lineIndex TagExtra) n)))) in
          if truthy (explicitPathGroup m)
          then Some (attach (fresh (orEmpty (explicitPathGroup m))) st)
          else Some (lookAhead next (fresh "") st)
      | None => None
      end
  | None => Some st
  end.

(** The body of [lines.forEach((line, lineIndex) => ...)]; [next] is
    [lines[lineIndex + 1]] when [lineIndex + 1 < lines.length]. [None] is
    a TypeError, which ends the whole call. *)
Definition scanLine (M : Matchers) (next : option string) (lineIndex : nat)
           (line : string) (st : ScanState) : option ScanState :=
  match stepParam M next lineIndex line (stepYaml line st) with
  | Some st2 =>
      let st3 := stepSection M line st2 in
      let st4 := stepDescriptionEnd M line st3 in
      let st5 := stepDescriptionContent M line st4 in
      let st6 := stepDescriptionStart M line st5 in
      let st7 := stepSkip M next lineIndex line st6 in
      stepExtra M next lineIndex line st7
  | None => None
  end.

(** The scanner's state after the first [n] lines. *)
Fixpoint scanPrefix (M : Matchers) (lines : list string) (n : nat)
  : option ScanState :=
  match n with
  | 0 => Some initialState
  | S n' =>
      match scanPrefix M lines n' with
      | Some st =>
          match nth_error lines n' with
          | Some line => scanLine M (nth_error lines (S n')) n' line st
          | None => Some st
          end
      | None => None
      end
  end.

(** [data.split(/\r?\n/)]. *)
Fixpoint splitLines (data : string) : list string :=
  match data with
  | EmptyString => [EmptyString]
  | String a rest =>
      if Ascii.eqb a "010" then EmptyString :: splitLines rest
      else if Ascii.eqb a "013" && JsString.startsWith rest (String "010" "")
      then splitLines rest
      else match splitLines rest with
           | l :: ls => String a l :: ls
           | [] => [String a EmptyString]
           end
  end.

(** [parseMetadataComments], from the text [fs.readFileSync] returned. *)
Definition parseMetadataComments (M : Matchers) (data : string) : option Metadata :=
  let lines := splitLines data in
  option_map parsedValues (scanPrefix M lines (List.length lines)).

(* ================================================================== *)
(** ** The patterns of a configuration *)
(* ================================================================== *)

(** The fields of the configuration the scanner reads:
    [config.comments.format] and [config.tags.*]. *)
Record Config : Type := mkConfig {
  commentsFormat : string;
  tagParam : string;
  tagSection : string;
  tagDescriptionStart : string;
  tagDescriptionEnd : string;
  tagSkip : string;
  tagExtra : string
}.

(** Modelled from the spec: config.json is not among the sources.  The
    comment marker and the parameter and section tags are those of the
    spec's scenarios; the other tags follow the names of their fields. *)
Definition defaultConfig : Config :=
  mkConfig "##" "@param" "@section" "@descriptionStart" "@descriptionEnd"
           "@skip" "@extra".

(** The source texts of the seven patterns, as [new RegExp] receives
    them; the configuration's strings stand where their names are. *)
Definition paramRegexSource : string :=
  "^\s*${config.comments.format}\s*${config.tags.param}\s*(?:\(([^\s]+)\))?\s*(\[.*?\])?\s*(.*)$".
Definition sectionRegexSource : string :=
  "^\s*${config.comments.format}\s*${config.tags.section}\s*(.*)$".
Definition descriptionStartRegexSource : string :=
  "^\s*${config.comments.format}\s*${config.tags.descriptionStart}\s*(.*)".
Definition descriptionContentRegexSource : string :=
  "^\s*${config.comments.format}\s?(.*)".
Definition descriptionEndRegexSource : string :=
  "^\s*${config.comments.format}\s*${config.tags.descriptionEnd}\s*(.*)".
Definition skipRegexSource : string :=
  "^\s*${config.comments.format}\s*${config.tags.skip}\s*(?:\(([^\s]+)\))?\s*(.*)$".
Definition extraRegexSource : string :=
  "^\s*${config.comments.format}\s*${config.tags.extra}\s*(?:\(([^\s]+)\))?\s*(\[.*?\])?\s*(.*)$".

(** The head every pattern shares: the line start, white space and the
    comment marker. *)
Definition commentHead (cfg : Config) : regex :=
  (Star true ws >> Lit (commentsFormat cfg))%re.

(** The optional explicit path between parentheses. *)
Definition pathPart : regex :=
  Opt (chr "(" >> Grp 1 (notWs >> Star true notWs) >> chr ")")%re.

(** The patterns, for a configuration whose strings have no pattern
    metacharacter and so stand for themselves. *)
Definition paramPattern (cfg : Config) (tag : string) : regex :=
  (commentHead cfg >> Star true ws >> Lit tag >> Star true ws >> pathPart
   >> Star true ws >> Opt (Grp 2 (chr "[" >> Star false dot >> chr "]"))
   >> Star true ws >> Grp 3 (Star true dot) >> Eoi)%re.

Definition skipPattern (cfg : Config) : regex :=
  (commentHead cfg >> Star true ws >> Lit (tagSkip cfg) >> Star true ws
   >> pathPart >> Star true ws >> Grp 2 (Star true dot) >> Eoi)%re.

Definition sectionPattern (cfg : Config) : regex :=
  (commentHead cfg >> Star true ws >> Lit (tagSection cfg) >> Star true ws
   >> Grp 1 (Star true dot) >> Eoi)%re.

(** The description patterns have no [$]. *)
Definition descriptionTagPattern (cfg : Config) (tag : string) : regex :=
  (commentHead cfg >> Star true ws >> Lit tag >> Star true ws
   >> Grp 1 (Star true dot))%re.

Definition descriptionContentPattern (cfg : Config) : regex :=
  (commentHead cfg >> Opt ws >> Grp 1 (Star true dot))%re.

Definition tagMatchOf (c : caps) : TagMatch :=
  mkTagMatch (group c 1) (group c 2) (orEmpty (group c 3)).

Definition literalMatchers (cfg : Config) : Matchers :=
  mkMatchers
    (fun line => option_map tagMatchOf (exec (paramPattern cfg (tagParam cfg)) line))
    (fun line => option_map (fun c => orEmpty (group c 1))
                            (exec (sectionPattern cfg) line))
    (fun line => option_map (fun c => orEmpty (group c 1))
                   (exec (descriptionTagPattern cfg (tagDescriptionStart cfg)) line))
    (fun line => option_map (fun c => orEmpty (group c 1))
                            (exec (descriptionContentPattern cfg) line))
    (fun line => option_map (fun c => orEmpty (group c 1))
                   (exec (descriptionTagPattern cfg (tagDescriptionEnd cfg)) line))
    (fun line => option_map (fun c => (group c 1, orEmpty (group c 2)))
                            (exec (skipPattern cfg) line))
    (fun line => option_map tagMatchOf (exec (paramPattern cfg (tagExtra cfg)) line)).

Definition LF : string := String "010" "".


(* ================================================================== *)
(** ** The value flattener: createValuesObject *)
(* ================================================================== *)

(** The collaborators of [createValuesObject] that are not among the
    sources: [dot.dot] of dot-object, [_.get] of lodash with a string
    path and with an array path, and [getArrayPath] and [getArrayPrefix]
    of lib/utils.js.  A call of [dotDot], [getArrayPath] or
    [getArrayPrefix] returns a result or throws: [None] is the throw,
    which ends the call of [createValuesObject].  [_.get] does not throw:
    for [lodashGet] and [lodashGetPath], [None] is [undefined].  [dotDot]
    lists the properties in the order the [for ... in] loop visits them.
    The flattener is written over any such collaborators; [Ref.lib] below
    models them from the spec. *)
Record Lib : Type := mkLib {
  dotDot : jsval -> option (list (string * jsval));
  lodashGet : jsval -> string -> option jsval;
  lodashGetPath : jsval -> list string -> option jsval;
  getArrayPath : jsval -> string -> option (list string);
  getArrayPrefix : string -> option string
}.

(** [typeof value]. *)
Definition typeOf (v : option jsval) : string :=
  match v with
  | None => "undefined"
  | Some JNull => "object"
  | Some (JBool _) => "boolean"
  | Some (JNum _) => "number"
  | Some (JStr _) => "string"
  | Some (JArr _) => "object"
  | Some (JObj _) => "object"
  end.

(** JavaScript truthiness of a value. *)
Definition jsTruthy (v : option jsval) : bool :=
  match v with
  | None => false
  | Some JNull => false
  | Some (JBool b) => b
  | Some (JNum z) => negb (Z.eqb z 0)
  | Some (JStr s) => negb (JsString.isEmpty s)
  | Some (JArr _) => true
  | Some (JObj _) => true
  end.

Definition isString (v : jsval) : bool :=
  match v with JStr _ => true | _ => false end.

Definition isNull (v : option jsval) : bool :=
  match v with Some JNull => true | _ => false end.

Definition isArray (v : option jsval) : bool :=
  match v with Some (JArr _) => true | _ => false end.

(** [valuePath.split('[').length > 1]: the path has a bracket. *)
Definition insideArray (valuePath : string) : bool :=
  1 <? List.length (JsString.split "[" valuePath).

(** What one iteration of the loop computes before the existence check:
    the final [valuePath], [value], [type] and [renderInSchema]. *)
Record FlatEntry : Type := mkFlatEntry {
  entryPath : string;
  entryValue : option jsval;
  entryType : string;
  entrySchema : bool
}.

(** Lines 299-309: the value of a flattened path, with the fallback.
    The outer [None] is a throw of [utils.getArrayPath]; the value [None]
    is [undefined]. *)
Definition lookupValue (L : Lib) (valuesJSON : jsval) (valuePath : string)
  : option (option jsval * bool) :=
  match lodashGet L valuesJSON valuePath with
  | Some v => Some (Some v, true)
  | None =>
      match getArrayPath L valuesJSON valuePath with
      | Some path => Some (lodashGetPath L valuesJSON path, false)
      | None => None
      end
  end.

(** [_.get(valuesJSON, utils.getArrayPath(valuesJSON, arrayPrefix))]; the
    outer [None] is a throw of [utils.getArrayPath]. *)
Definition arrayAt (L : Lib) (valuesJSON : jsval) (arrayPrefix : string)
  : option (option jsval) :=
  match getArrayPath L valuesJSON arrayPrefix with
  | Some path => Some (lodashGetPath L valuesJSON path)
  | None => None
  end.

(** Lines 314-328: the plain-array check.  [None] is a throw: of
    [utils.getArrayPrefix], of [utils.getArrayPath], or the TypeError of
    calling [forEach] on what is not an array. *)
Definition plainArrayStep (L : Lib) (valuesJSON : jsval) (valuePath : string)
           (value : option jsval) : option (option jsval * string) :=
  if insideArray valuePath then
    match getArrayPrefix L valuePath with
    | Some arrayPrefix =>
        match arrayAt L valuesJSON arrayPrefix with
        | Some (Some (JArr elems)) =>
            if forallb isString elems
            then match arrayAt L valuesJSON arrayPrefix with
                 | Some value => Some (value, arrayPrefix)
                 | None => None
                 end
            else Some (value, valuePath)
        | _ => None
        end
    | None => None
    end
  else Some (value, valuePath).

Definition flattenEntry (L : Lib) (valuesJSON : jsval) (valuePath : string)
  : option FlatEntry :=
  match lookupValue L valuesJSON valuePath with
  | Some (value, renderInSchema) =>
      let type := typeOf value in
      match plainArrayStep L valuesJSON valuePath value with
      | Some (value, valuePath) =>
          let value := if isNull value then Some (JStr "nil") else value in
          let type := if isArray value then "array" else type in
          Some (mkFlatEntry valuePath value type renderInSchema)
      | None => None
      end
  | None => None
  end.

(** Lines 344-347: the parameter of an entry. *)
Definition entryParameter (index : nat) (e : FlatEntry) : ParameterObj :=
  let param := newParameter (FromValue index) (entryPath e) in
  let param :=
    if negb (jsTruthy (pvalue param)) then setValue (entryValue e) param
    else param in
  setSchema (entrySchema e) (setType (entryType e) param).

Definition hasName (n : string) (resultValues : list ParameterObj) : bool :=
  existsb (fun v => String.eqb (name v) n) resultValues.

(** The [for ... in] loop over the flattened properties. *)
Fixpoint flattenLoop (L : Lib) (valuesJSON : jsval) (keys : list string)
         (index : nat) (resultValues : list ParameterObj)
  : option (list ParameterObj) :=
  match keys with
  | [] => Some resultValues
  | valuePath :: rest =>
      match flattenEntry L valuesJSON valuePath with
      | Some e =>
          flattenLoop L valuesJSON rest (S index)
            (if hasName (entryPath e) resultValues then resultValues
             else resultValues ++ [entryParameter index e])
      | None => None
      end
  end.

(** [createValuesObject], from the tree [YAML.parse] returned.  [None]
    is a throw, of a collaborator or of line 319. *)
Definition createValuesObject (L : Lib) (valuesJSON : jsval)
  : option (list ParameterObj) :=
  match dotDot L valuesJSON with
  | Some dottedFormatProperties =>
      flattenLoop L valuesJSON (map fst dottedFormatProperties) 0 []
  | None => None
  end.

(* ================================================================== *)
(** ** The collaborators, modelled from the spec *)
(* ================================================================== *)

Module Ref.

(** The decimal text of an array index. *)
Definition indexText (i : nat) : string :=
  DecimalString.NilZero.string_of_uint (Nat.to_uint i).

Definition isContainer (v : jsval) : bool :=
  match v with
  | JObj (_ :: _) => true
  | JArr (_ :: _) => true
  | _ => false
  end.

(** [tgt[k] = v]: a property keeps its place when written again. *)
Fixpoint assign (k : string) (v : jsval) (tgt : list (string * jsval))
  : list (string * jsval) :=
  match tgt with
  | [] => [(k, v)]
  | (k', v') :: tgt' =>
      if String.eqb k' k then (k', v) :: tgt' else (k', v') :: assign k v tgt'
  end.

(** Modelled from the spec: [dot.dot] of dot-object, the out-of-scope
    flattening utility that "turns a nested tree into key to value pairs
    using bracket notation for array indices".  [path] holds the
    segments above [v]; an index is glued to the segment before it; an
    empty map or sequence is a leaf. *)
Fixpoint dotInto (path : list string) (v : jsval) (tgt : list (string * jsval))
  : list (string * jsval) :=
  match v with
  | JObj entries =>
      (fix members (es : list (string * jsval)) (tgt : list (string * jsval)) :=
         match es with
         | [] => tgt
         | (k, x) :: es' =>
             members es'
               (if isContainer x then dotInto (path ++ [k]) x tgt
                else assign (JsString.join "." (path ++ [k])) x tgt)
         end) entries tgt
  | JArr elems =>
      (fix items (i : nat) (es : list jsval) (tgt : list (string * jsval)) :=
         match es with
         | [] => tgt
         | x :: es' =>
             let index := ("[" ++ indexText i ++ "]")%string in
             items (S i) es'
               (if isContainer x
                then dotInto (removelast path ++ [(List.last path "" ++ index)%string])
                             x tgt
                else assign (JsString.join "." path ++ index)%string x tgt)
         end) 0 elems tgt
  | _ => tgt
  end.

(** The characters of a string as the properties [Object.keys] lists
    for it. *)
Fixpoint charEntries (i : nat) (s : string) : list (string * jsval) :=
  match s with
  | EmptyString => []
  | String a s' => (indexText i, JStr (String a "")) :: charEntries (S i) s'
  end.

(** Modelled from the spec: [dot.dot(valuesJSON)].  The spec describes
    the flattening of maps and sequences only.  On another root the model
    follows [Object.keys], with which the utility lists the keys of its
    argument: it throws on null (the tree of an empty file), lists
    nothing for a boolean or a number, and lists the indices of the
    characters of a string. *)
Definition dot (valuesJSON : jsval) : option (list (string * jsval)) :=
  match valuesJSON with
  | JNull => None
  | JStr s => Some (dotInto [] (JObj (charEntries 0 s)) [])
  | _ => Some (dotInto [] valuesJSON [])
  end.

Fixpoint assoc (k : string) (es : list (string * jsval)) : option jsval :=
  match es with
  | [] => None
  | (k', v) :: es' => if String.eqb k' k then Some v else assoc k es'
  end.

(** The index a property key denotes, if it is the text of one below
    [bound]. *)
Fixpoint indexOfText (k : string) (bound : nat) : option nat :=
  match bound with
  | 0 => None
  | S b => if String.eqb (indexText b) k then Some b else indexOfText k b
  end.

(** [object[key]]. *)
Definition member (v : jsval) (k : string) : option jsval :=
  match v with
  | JObj entries => assoc k entries
  | JArr elems =>
      match indexOfText k (List.length elems) with
      | Some i => nth_error elems i
      | None => None
      end
  | JStr s =>
      match indexOfText k (String.length s) with
      | Some i => option_map (fun a => JStr (String a "")) (String.get i s)
      | None => None
      end
  | _ => None
  end.

(** Modelled from the spec: [_.get] of lodash with an array path, the
    "direct structural lookup" that follows the keys one by one; the
    empty path finds nothing. *)
Fixpoint walk (v : jsval) (keys : list string) : option jsval :=
  match keys with
  | [] => Some v
  | k :: keys' =>
      match member v k with
      | Some x => walk x keys'
      | None => None
      end
  end.

Definition getPath (valuesJSON : jsval) (keys : list string) : option jsval :=
  match keys with
  | [] => None
  | _ => walk valuesJSON keys
  end.

(** The segments of a dotted path: runs of characters other than the
    dot and the brackets. *)
Fixpoint segments (cur : string) (s : string) : list string :=
  let flush rest := if JsString.isEmpty cur then rest else JsString.rev cur :: rest in
  match s with
  | EmptyString => flush []
  | String a s' =>
      if Ascii.eqb a "." || Ascii.eqb a "[" || Ascii.eqb a "]"
      then flush (segments "" s')
      else segments (String a cur) s'
  end.

(** Modelled from the spec: [_.get] of lodash with a string path.  A
    path that is a key of the object itself is that key; any other is
    cut into its segments. *)
Definition get (valuesJSON : jsval) (path : string) : option jsval :=
  match member valuesJSON path with
  | Some v => Some v
  | None => getPath valuesJSON (segments "" path)
  end.

(** The rest of [path] after the key [k], when [k] is a whole segment
    of it: the end, or what follows a dot, or an opening bracket on. *)
Definition afterKey (k path : string) : option string :=
  match JsString.stripPrefix k path with
  | Some EmptyString => Some EmptyString
  | Some (String a rest) =>
      if Ascii.eqb a "." then Some rest
      else if Ascii.eqb a "[" then Some (String a rest)
      else None
  | None => None
  end.

(** Modelled from the spec: [getArrayPath] of lib/utils.js, the
    "literal-key-matching lookup strategy that does not use the
    separator to disambiguate segments": the keys of the first branch of
    the tree whose dotted rendering is [path]. *)
Fixpoint findPath (v : jsval) (path : string) : option (list string) :=
  if JsString.isEmpty path then Some [] else
  match v with
  | JObj entries =>
      (fix try (es : list (string * jsval)) : option (list string) :=
         match es with
         | [] => None
         | (k, x) :: es' =>
             match afterKey k path with
             | Some rest =>
                 match findPath x rest with
                 | Some ks => Some (k :: ks)
                 | None => try es'
                 end
             | None => try es'
             end
         end) entries
  | JArr elems =>
      (fix try (i : nat) (es : list jsval) : option (list string) :=
         match es with
         | [] => None
         | x :: es' =>
             match afterKey ("[" ++ indexText i ++ "]")%string path with
             | Some rest =>
                 match findPath x rest with
                 | Some ks => Some (indexText i :: ks)
                 | None => try (S i) es'
                 end
             | None => try (S i) es'
             end
         end) 0 elems
  | _ => None
  end.

Definition arrayPath (valuesJSON : jsval) (path : string) : list string :=
  match findPath valuesJSON path with
  | Some ks => ks
  | None => []
  end.

(** Modelled from the spec: [getArrayPrefix] of lib/utils.js, the path
    of the array an element path lies in: the text before the last
    opening bracket. *)
Definition arrayPrefix (path : string) : string :=
  JsString.join "[" (removelast (JsString.split "[" path)).

(** The collaborators together.  The spec describes no failure of the
    two functions of lib/utils.js: here they return on every path. *)
Definition lib : Lib :=
  mkLib dot get getPath
        (fun valuesJSON path => Some (arrayPath valuesJSON path))
        (fun path => Some (arrayPrefix path)).

End Ref.

(* ================================================================== *)
(** ** The path-tracking invariant *)
(* ================================================================== *)

(** Strictly ascending indentation values, bottom of the stack first. *)
Definition ascending (indents : list nat) : Prop := StronglySorted lt indents.

(** The two stacks are paired one to one and the indents ascend. *)
Definition stacksInvariant (pathStack : list string) (indentStack : list nat)
  : Prop :=
  List.length pathStack = List.length indentStack /\ ascending indentStack.

(** An entry the loop of [updatePathStack] keeps: its indent is below
    the incoming line's. *)
Definition shallower (currentIndent : nat) (entry : nat) : bool :=
  entry <? currentIndent.

(** The two stacks of a state. *)
Definition stacksOf (st : ScanState) : list string * list nat :=
  (pathStack st, indentStack st).

(* ================================================================== *)
(** ** What a line can add to the metadata *)
(* ================================================================== *)

(** Every parameter the metadata holds: the flat list and the lists of
    the sections. *)
Definition mdParams (st : ScanState) : list ParameterObj :=
  parameters (parsedValues st)
  ++ flat_map secParameters (sections (parsedValues st)).

(** [q] is the object [p], possibly after its name and section were
    written. *)
Definition sameObject (p q : ParameterObj) : Prop :=
  oid q = oid p /\ type q = type p /\ pvalue q = pvalue p /\ extra q = extra p.

(** The tag of a kind matches the line and carries no explicit path. *)
Definition tagPathless (M : Matchers) (kind : TagKind) (line : string) : bool :=
  match kind with
  | TagParam =>
      match paramRegex M line with
      | Some m => negb (truthy (explicitPathGroup m))
      | None => false
      end
  | TagSkip =>
      match skipRegex M line with
      | Some (explicitPath, _) => negb (truthy explicitPath)
      | None => false
      end
  | TagExtra =>
      match extraRegex M line with
      | Some m => negb (truthy (explicitPathGroup m))
      | None => false
      end
  end.

(** The tag of a kind matches the line and carries an explicit path. *)
Definition tagExplicit (M : Matchers) (kind : TagKind) (line : string) : bool :=
  match kind with
  | TagParam =>
      match paramRegex M line with
      | Some m => truthy (explicitPathGroup m)
      | None => false
      end
  | TagSkip =>
      match skipRegex M line with
      | Some (explicitPath, _) => truthy explicitPath
      | None => false
      end
  | TagExtra =>
      match extraRegex M line with
      | Some m => truthy (explicitPathGroup m)
      | None => false
      end
  end.

(** The line after the current one exists and is a structural line. *)
Definition nextIsKey (next : option string) : bool :=
  match next with
  | Some nextLine => isYamlKey (parseYamlLine nextLine)
  | None => false
  end.

(** No type, and no value unless it is the empty string of an extra. *)
Definition documentationOnly (q : ParameterObj) : Prop :=
  type q = None /\
  (pvalue q = None \/ (extra q = true /\ pvalue q = Some (JStr ""))).

(** [q] was made by the tag of kind [kind] on line [i]. *)
Definition freshOf (i : nat) (kind : TagKind) (q : ParameterObj) : Prop :=
  oid q = FromTag i kind /\ documentationOnly q.

(** [q] was made by the tag of kind [kind] on line [i] and added to the
    metadata on that line: the tag had an explicit path, or it had none
    and the look-ahead found a structural line. *)
Definition addedByTag (M : Matchers) (next : option string) (i : nat)
           (line : string) (kind : TagKind) (q : ParameterObj) : Prop :=
  freshOf i kind q /\
  (tagExplicit M kind line = true \/
   (tagPathless M kind line = true /\ nextIsKey next = true)).

(** The pending slot after the tag of kind [kind] on line [i]: untouched
    unless the tag has no explicit path; then empty if the look-ahead
    found a structural line and a fresh object if not. *)
Definition pendingAfterTag (M : Matchers) (next : option string) (i : nat)
           (line : string) (kind : TagKind)
           (before after : option ParameterObj) : Prop :=
  if tagPathless M kind line then
    if nextIsKey next then after = None
    else exists q, after = Some q /\ freshOf i kind q
  else after = before.

(** What line [i] can add to the metadata: the object that was pending
    before it, when the line is structural, and the objects its own tags
    make. *)
Definition lineAdds (M : Matchers) (next : option string) (i : nat)
           (line : string) (pendingBefore : option ParameterObj)
           (q : ParameterObj) : Prop :=
  (isYamlKey (parseYamlLine line) = true /\
   exists p, pendingBefore = Some p /\ sameObject p q) \/
  exists kind, addedByTag M next i line kind q.

(** The pending slot after line [i]: the object that was pending before,
    when the line is not structural and none of its tags lacks a path, or
    an object a pathless tag of the line made with no structural line
    after it. *)
Definition pendingAfterLine (M : Matchers) (next : option string) (i : nat)
           (line : string) (pendingBefore : option ParameterObj)
           (q : ParameterObj) : Prop :=
  (pendingBefore = Some q /\
   isYamlKey (parseYamlLine line) = false /\
   forall kind, tagPathless M kind line = false) \/
  (exists kind,
      freshOf i kind q /\ tagPathless M kind line = true /\ nextIsKey next = false).

(** The object was made by a tag on a line before line [n]. *)
Definition tagged (n : nat) (p : ParameterObj) : Prop :=
  exists j kind, oid p = FromTag j kind /\ j < n.

(** The object with identity [id] is nowhere in the metadata: not in
    [parameters] and not in the parameters of any section. *)
Definition absentFrom (id : ObjId) (md : Metadata) : Prop :=
  (forall q, In q (parameters md) -> oid q <> id) /\
  (forall s q, In s (sections md) -> In q (secParameters s) -> oid q <> id).

(** No structural line after line [i]. *)
Definition noKeyAfter (i : nat) (lines : list string) : bool :=
  forallb (fun l => negb (isYamlKey (parseYamlLine l))) (skipn (S i) lines).

(* ================================================================== *)
(** ** When the scan returns *)
(* ================================================================== *)

(** On this line the modifier expressions of lines 116 and 237 do not
    throw: where the parameter or extra pattern matches, its bracket group
    is absent, empty or holds an opening bracket.  The text the bracket
    group of the source's patterns captures always does, see
    [literal_linesScannable]. *)
Definition lineScannable (M : Matchers) (line : string) : bool :=
  match paramRegex M line with
  | Some m => isSome (modifiersText (modifiersGroup m))
  | None => true
  end
  && match extraRegex M line with
     | Some m => isSome (modifiersText (modifiersGroup m))
     | None => true
     end.

Definition linesScannable (M : Matchers) (lines : list string) : bool :=
  forallb (lineScannable M) lines.

(** Group 2, when captured, begins with an opening bracket. *)
Definition bracketed (c : caps) : Prop :=
  forall g, group c 2 = Some g -> exists t, g = String "[" t.

(** Every capture group numbered 2 in the pattern has the shape of the
    source's bracket group: it begins by matching an opening bracket. *)
Fixpoint bracketGroup (r : regex) : Prop :=
  match r with
  | Eps | Chr _ | Lit _ | Eoi => True
  | Cat r1 r2 => bracketGroup r1 /\ bracketGroup r2
  | Star _ r1 => bracketGroup r1
  | Opt r1 => bracketGroup r1
  | Grp n r1 =>
      bracketGroup r1 /\ (n = 2 -> exists r', r1 = Cat (chr "[") r')
  end.

(** A number of characters every match of the pattern consumes. *)
Fixpoint minConsumed (r : regex) : nat :=
  match r with
  | Eps | Eoi | Star _ _ | Opt _ => 0
  | Chr _ => 1
  | Lit l => String.length l
  | Cat r1 r2 => minConsumed r1 + minConsumed r2
  | Grp _ r1 => minConsumed r1
  end.

(** The reference to the current section points into the section store. *)
Definition sectionRefValid (st : ScanState) : Prop :=
  forall ref, currentSection st = Some ref ->
              ref < List.length (sections (parsedValues st)).

(* ================================================================== *)
(** ** The description state of the scanner *)
(* ================================================================== *)

(** The description lines of the sections, in the order of the store. *)
Definition descriptions (st : ScanState) : list (list string) :=
  map secDescription (sections (parsedValues st)).

(** What the description steps read and write. *)
Definition descState (st : ScanState) : list (list string) * option nat * bool :=
  (descriptions st, currentSection st, descriptionParsing st).


(* ================================================================== *)
(** ** The flattened paths of a tree *)
(* ================================================================== *)


(** The keys of [dottedFormatProperties], in the order of the loop
    (none when [dot.dot] throws). *)
Definition flatKeys (L : Lib) (valuesJSON : jsval) : list string :=
  match dotDot L valuesJSON with
  | Some dottedFormatProperties => map fst dottedFormatProperties
  | None => []
  end.

Definition isArrayValue (v : option jsval) : bool :=
  match v with Some (JArr _) => true | _ => false end.

(** What the look-up of line 319 gives for the path: the value at its
    array prefix.  The outer [None] is a throw of [utils.getArrayPrefix]
    or [utils.getArrayPath]. *)
Definition prefixArray (L : Lib) (valuesJSON : jsval) (k : string)
  : option (option jsval) :=
  match getArrayPrefix L k with
  | Some arrayPrefix => arrayAt L valuesJSON arrayPrefix
  | None => None
  end.

(** Every call of a collaborator returns: [dot.dot] on the tree, the
    look-up of every flattened path, and, for every path with a bracket,
    [utils.getArrayPrefix] and the look-up of line 319. *)
Definition collaboratorsReturn (L : Lib) (valuesJSON : jsval) : bool :=
  isSome (dotDot L valuesJSON)
  && forallb (fun k => isSome (lookupValue L valuesJSON k)
                       && (negb (insideArray k)
                           || isSome (prefixArray L valuesJSON k)))
             (flatKeys L valuesJSON).

(** For every path with a bracket, the look-up of its array prefix finds
    an array: the [forEach] of line 319 does not throw. *)
Definition arraysResolve (L : Lib) (valuesJSON : jsval) : bool :=
  forallb (fun k => negb (insideArray k)
                    || match prefixArray L valuesJSON k with
                       | Some v => isArrayValue v
                       | None => true
                       end)
          (flatKeys L valuesJSON).

(** The path lies in an array whose elements are all strings: the loop
    replaces it by the array's prefix. *)
Definition collapses (L : Lib) (valuesJSON : jsval) (k : string) : bool :=
  insideArray k
  && match prefixArray L valuesJSON k with
     | Some (Some (JArr elems)) => forallb isString elems
     | _ => false
     end.

(** [p] is the array prefix of some flattened path with a bracket. *)
Definition prefixOfSome (L : Lib) (valuesJSON : jsval) (p : string) : bool :=
  existsb (fun k => insideArray k
                    && match getArrayPrefix L k with
                       | Some q => String.eqb q p
                       | None => false
                       end)
          (flatKeys L valuesJSON).

(** [value] after line 331, and [type] after line 338. *)
Definition nilOf (v : option jsval) : option jsval :=
  if isNull v then Some (JStr "nil") else v.

Definition typeAfter (v : option jsval) : string :=
  if isArray (nilOf v) then "array" else typeOf v.

(* ================================================================== *)
(** ** Configurations, files and trees of the examples *)
(* ================================================================== *)

(** A configuration whose comment marker is two slashes. *)
Definition slashConfig : Config :=
  mkConfig "//" "@param" "@section" "@descriptionStart" "@descriptionEnd"
           "@skip" "@extra".

(** The two lines of the scenario, and the tree [YAML.parse] makes of
    them. *)
Definition replicaCountText : string :=
  ("## @param replicaCount Number of replicas" ++ LF ++ "replicaCount: 3")%string.

Definition replicaCountTree : jsval := JObj [("replicaCount", JNum 3)].

(** The single line of the scenario of an unresolved parameter. *)
Definition imageTagText : string := "## @param image.tag Image tag".

(** A file whose last tag has no path and no structural line after it. *)
Definition trailingSkipText : string :=
  ("replicaCount: 3" ++ LF ++ "## @skip" ++ LF ++ "" ++ LF ++ "# the end")%string.

(** A file with two pathless tags in a row: the second is scanned while
    the first is still pending. *)
Definition overwrittenText : string :=
  ("## @skip first" ++ LF ++ "## @param second" ++ LF ++ "" ++ LF ++ "key: 1")%string.


(** A file that documents one path twice. *)
Definition duplicateText : string :=
  ("## @param (image.tag) Image tag" ++ LF
   ++ "## @param (image.tag) Tag of the image")%string.

(** A file that opens a second section while the description of the
    first is being captured. *)
Definition sectionInDescriptionText : string :=
  ("## @section A" ++ LF ++ "## @descriptionStart" ++ LF ++ "## first" ++ LF
   ++ "## @section B" ++ LF ++ "## @descriptionEnd")%string.

(** The state after the lines "## @section A" and "## @descriptionStart":
    section A is current and its description is being captured. *)
Definition capturingState : ScanState :=
  mkScanState (mkMetadata [mkSection "A" [] []] []) (Some 0) true [] [] None.

(** A tree with a plain array, a mixed array and a null. *)
Definition sampleTree : jsval :=
  JObj [("hosts", JArr [JStr "a.example"; JStr "b.example"]);
        ("ports", JArr [JNum 80; JStr "https"]);
        ("nodeSelector", JNull)].


Definition nullTree : jsval := JObj [("nodeSelector", JNull)].

(* ================================================================== *)
(** ** Proof automation *)
(* ================================================================== *)

Ltac break_match :=
  match goal with
  | |- context [match ?x with _ => _ end] => destruct x eqn:?
  | H : context [match ?x with _ => _ end] |- _ => destruct x eqn:?
  end.

Ltac some_inv :=
  repeat match goal with
         | H : Some _ = Some _ |- _ => inversion H; subst; clear H
         | H : None = Some _ |- _ => discriminate H
         end.

(* ================================================================== *)
(** ** Lines of a file, and path tracking on its own *)
(* ================================================================== *)

(** The character occurs in the string. *)
Fixpoint hasChar (a : ascii) (s : string) : bool :=
  match s with
  | EmptyString => false
  | String b s' => Ascii.eqb b a || hasChar a s'
  end.

(** The number of occurrences of the character. *)
Fixpoint countChar (a : ascii) (s : string) : nat :=
  match s with
  | EmptyString => 0
  | String b s' => (if Ascii.eqb b a then 1 else 0) + countChar a s'
  end.

(** A carriage return stands right before a line feed somewhere. *)
Fixpoint hasCRLF (data : string) : bool :=
  match data with
  | EmptyString => false
  | String a rest =>
      (Ascii.eqb a "013" && JsString.startsWith rest LF) || hasCRLF rest
  end.

(** Lines 96-98 on their own: what one line does to the two stacks. *)
Definition trackStep (stacks : list string * list nat) (line : string)
  : list string * list nat :=
  let yamlInfo := parseYamlLine line in
  if isYamlKey yamlInfo
  then updatePathStack (fst stacks) (snd stacks) (indent yamlInfo) (key yamlInfo)
  else stacks.

(** The stacks after the lines, from the empty stacks of lines 90-91. *)
Definition trackPaths (lines : list string) : list string * list nat :=
  fold_left trackStep lines ([], []).

(* ================================================================== *)
(** ** Sections and parameters of the metadata *)
(* ================================================================== *)

(** The names of the sections, in the order of [Metadata.sections]. *)
Definition sectionNames (md : Metadata) : list string :=
  map secName (sections md).

(** The section names the lines announce: the captures of the section
    pattern on the lines it matches, in order. *)
Definition announcedSections (M : Matchers) (lines : list string) : list string :=
  flat_map (fun l => match sectionRegex M l with
                     | Some n => [n]
                     | None => []
                     end) lines.

(** Every parameter of a section's list is also in [Metadata.parameters]
    and carries the name of that section. *)
Definition sectionsConsistent (md : Metadata) : Prop :=
  forall s p,
    In s (sections md) -> In p (secParameters s) ->
    In p (parameters md) /\ section p = Some (secName s).

(** A file with a parameter before and after its one section tag. *)
Definition sectionedText : string :=
  ("## @param (global.debug) Debug mode" ++ LF
   ++ "## @section Image" ++ LF
   ++ "## @param (image.tag) Image tag" ++ LF
   ++ "## @skip (image.digest)")%string.

(** A file with no section tag. *)
Definition unsectionedText : string :=
  ("## @param (replicaCount) Number of replicas" ++ LF
   ++ "## @descriptionStart Ignored" ++ LF
   ++ "## @extra (tolerations) Extra tolerations")%string.

(** No line of the file matches the section pattern. *)
Definition noSectionTag (M : Matchers) (lines : list string) : bool :=
  forallb (fun l => negb (isSome (sectionRegex M l))) lines.

(** [q] is the object [p] as [attach] records it: [p] itself, or [p]
    with its section written. *)
Definition attached (p q : ParameterObj) : Prop :=
  q = p \/ exists s, q = setSection s p.

(** A file with a tag of each kind, each with an explicit path. *)
Definition explicitTagsText : string :=
  ("image:" ++ LF
   ++ "  ## @param (image.tag) [string, nullable] Image tag" ++ LF
   ++ "  ## @skip (image.digest) Not documented" ++ LF
   ++ "  ## @extra (image.pullSecrets) [array] Pull secrets")%string.

(** A file whose pathless tags are named by the look-ahead and by a
    later structural line. *)
Definition autoPathText : string :=
  ("image:" ++ LF
   ++ "  ## @param Image tag" ++ LF
   ++ "  tag: latest" ++ LF
   ++ "## @skip" ++ LF
   ++ "" ++ LF
   ++ "service:" ++ LF
   ++ "  port: 80")%string.

(** No line of the file matches the description-start pattern. *)
Definition noDescriptionStart (M : Matchers) (lines : list string) : bool :=
  forallb (fun l => negb (isSome (descriptionStartRegex M l))) lines.

(** A file with sections and comments but no description-start tag. *)
Definition noDescriptionText : string :=
  ("## @section Image" ++ LF
   ++ "## A comment that is no description" ++ LF
   ++ "## @descriptionEnd" ++ LF
   ++ "## @param (image.tag) Image tag" ++ LF
   ++ "## @section Service")%string.

(** The type tags line 310 and line 338 can assign. *)
Definition typeTags : list string :=
  ["undefined"; "object"; "boolean"; "number"; "string"; "array"].


(** A null under a key that holds dots, below the root. *)
Definition dottedNullTree : jsval :=
  JObj [("pod", JObj [("example.com/zone", JNull)])].

(** Collaborators whose fallback look-up finds no path: the flattening
    and the direct look-up are those of [Ref.lib]. *)
Definition blindLib : Lib :=
  mkLib Ref.dot Ref.get Ref.getPath
        (fun _ _ => Some [])
        (fun path => Some (Ref.arrayPrefix path)).

(** Capture is off and no section has a description line. *)
Definition quiet (st : ScanState) : Prop :=
  descriptionParsing st = false /\
  Forall (fun d => d = []) (descriptions st).

(** A recorded modifier: no white space at either end and no comma. *)
Definition cleanModifier (x : string) : Prop :=
  JsString.trim x = x /\ hasChar "," x = false.

(** The text of two modifiers, the second of which is blank. *)
Definition blankModifierText : string :=
  "## @param (image.tag) [string, ] The tag".


(** The modifiers of the parameter, and of every recorded parameter. *)
Definition cleanModifiers (p : ParameterObj) : Prop :=
  forall l, modifiers p = Some l -> Forall cleanModifier l.

Definition cleanState (st : ScanState) : Prop :=
  Forall cleanModifiers (parameters (parsedValues st)).


(* ------------------------------------------------------------------ *)
(** *** The parts of a structural line *)

(** The white space a line begins with. *)
Fixpoint leadingSpace (s : string) : string :=
  match s with
  | String a s' =>
      if JsString.isSpace a then String a (leadingSpace s') else EmptyString
  | EmptyString => EmptyString
  end.

(** The text before the first occurrence of the character (all of it
    when there is none), and the text after it. *)
Fixpoint beforeChar (a : ascii) (s : string) : string :=
  match s with
  | EmptyString => EmptyString
  | String b s' => if Ascii.eqb b a then EmptyString else String b (beforeChar a s')
  end.

Fixpoint afterChar (a : ascii) (s : string) : string :=
  match s with
  | EmptyString => EmptyString
  | String b s' => if Ascii.eqb b a then s' else afterChar a s'
  end.

(** Some character of the text is a line terminator. *)
Fixpoint hasTerminator (s : string) : bool :=
  match s with
  | EmptyString => false
  | String a s' => JsString.isLineTerminator a || hasTerminator s'
  end.

(** The captures of [yamlKeyRegex] on a line whose first character after
    the leading white space is [c], with [r] after it. *)
Definition yamlCaptures (line : string) (c : ascii) (r : string) : caps :=
  [(3, JsString.trimStart (afterChar ":" r));
   (2, String c (beforeChar ":" r));
   (1, leadingSpace line)].




(* ------------------------------------------------------------------ *)
(** *** The pending slot after a line *)

(** The object the tag of a kind makes on line [i] when it carries no
    path (lines 132-134, 207-209 and 255-259), before the look-ahead. *)
Definition pathlessObject (M : Matchers) (i : nat) (kind : TagKind)
           (line : string) : option ParameterObj :=
  match kind with
  | TagParam =>
      match paramRegex M line with
      | Some m =>
          match modifiersText (modifiersGroup m) with
          | Some mods =>
              Some (setDescription (descriptionGroup m)
                      (setModifiers (modifierList mods)
                         (newParameter (FromTag i TagParam) "")))
          | None => None
          end
      | None => None
      end
  | TagSkip =>
      match skipRegex M line with
      | Some (_, text) =>
          Some (setDescription text
                  (setSkip true (newParameter (FromTag i TagSkip) "")))
      | None => None
      end
  | TagExtra =>
      match extraRegex M line with
      | Some m =>
          match modifiersText (modifiersGroup m) with
          | Some mods =>
              Some (setExtra true
                      (setValue (Some (JStr ""))
                         (setDescription (descriptionGroup m)
                            (setModifiers (modifierList mods)
                               (newParameter (FromTag i TagExtra) "")))))
          | None => None
          end
      | None => None
      end
  end.

(** The last tag without a path on the line, in the order the body of the
    loop handles the tags: parameter, skip, extra. *)
Definition lastPathless (M : Matchers) (line : string) : option TagKind :=
  if tagPathless M TagExtra line then Some TagExtra
  else if tagPathless M TagSkip line then Some TagSkip
  else if tagPathless M TagParam line then Some TagParam
  else None.


(* ------------------------------------------------------------------ *)
(** *** The text of a comment line *)









(** The same two pathless tags, the second followed at once by a
    structural line. *)
Definition overwrittenKeyText : string :=
  ("## @skip first" ++ LF ++ "## @param second" ++ LF ++ "key: 1")%string.


(** The entries of a flat map: no value is a map or a sequence with
    members, and no key holds an opening bracket or a dot. *)
Definition plainEntries (entries : list (string * jsval)) : bool :=
  forallb (fun e => negb (Ref.isContainer (snd e))
                    && negb (hasChar "[" (fst e))
                    && negb (hasChar "." (fst e)))
          entries.


Unset Implicit Arguments.

Section YamlLineFacts.

Example parseYamlLine_ex1 :
  parseYamlLine "  image: nginx " = mkYamlInfo true 2 "image" "nginx" true.
Proof. vm_compute. reflexivity. Qed.

Example parseYamlLine_ex2 :
  isYamlKey (parseYamlLine "## @param replicaCount Number of replicas") = false.
Proof. vm_compute. reflexivity. Qed.

Example parseYamlLine_ex3 :
  parseYamlLine "a:b: {}" = mkYamlInfo true 0 "a" "b: {}" true.
Proof. vm_compute. reflexivity. Qed.

Example updatePathStack_ex1 :
  updatePathStack ["a"; "b"; "c"] [0; 2; 4] 2 "d" = (["a"; "d"], [0; 2]).
Proof. vm_compute. reflexivity. Qed.

Example paramRegex_explicit :
  paramRegex (literalMatchers defaultConfig)
             "## @param (image.tag) [string, nullable] Image tag"
  = Some (mkTagMatch (Some "image.tag") (Some "[string, nullable]") "Image tag").
Proof. vm_compute. reflexivity. Qed.

Example paramRegex_pathless :
  paramRegex (literalMatchers defaultConfig) "  ## @param Number of replicas"
  = Some (mkTagMatch None None "Number of replicas").
Proof. vm_compute. reflexivity. Qed.

Example skipRegex_explicit :
  skipRegex (literalMatchers defaultConfig) "## @skip (image.debug) Not shown"
  = Some (Some "image.debug", "Not shown").
Proof. vm_compute. reflexivity. Qed.

Example modifierList_ex :
  option_map modifierList (modifiersText (Some "[string, nullable ,,x]"))
  = Some ["string"; "nullable"; "x"].
Proof. vm_compute. reflexivity. Qed.


Lemma trimStart_snoc (c : ascii) (s : string) :
  JsString.isSpace c = false ->
  exists t, JsString.trimStart (s ++ String c "") = (t ++ String c "")%string.
Proof.
  intros Hc. induction s as [|a s IH]; simpl.
  - rewrite Hc. exists ""%string. reflexivity.
  - destruct (JsString.isSpace a).
    + exact IH.
    + exists (String a s). reflexivity.
Qed.

Lemma rev_snoc (c : ascii) (t : string) :
  JsString.rev (t ++ String c "") = String c (JsString.rev t).
Proof.
  induction t as [|a t IH]; simpl.
  - reflexivity.
  - rewrite IH. reflexivity.
Qed.

(** [trimEnd] keeps a first character that is not white space. *)
Lemma trimEnd_head (c : ascii) (s : string) :
  JsString.isSpace c = false ->
  exists t, JsString.trimEnd (String c s) = String c t.
Proof.
  intros Hc. unfold JsString.trimEnd. simpl.
  destruct (trimStart_snoc c (JsString.rev s) Hc) as [t Ht].
  rewrite Ht, rev_snoc. eauto.
Qed.

Lemma stripPrefix_head (p s : string) (c : ascii) (p' : string) :
  p = String c p' ->
  JsString.startsWith s p = true ->
  exists s', s = String c s'.
Proof.
  intros -> H. unfold JsString.startsWith in H. simpl in H.
  destruct s as [|b s]; [discriminate|].
  destruct (Ascii.eqb c b) eqn:E; [|discriminate].
  apply Ascii.eqb_eq in E. subst b. eauto.
Qed.

Lemma startsWith_hash_inv (p : string) :
  JsString.startsWith p "#" = true -> exists p', p = String "#" p'.
Proof.
  intros H. apply (stripPrefix_head "#" p "#"%char ""%string eq_refl H).
Qed.

End YamlLineFacts.

(** C7 (as amended): for every configuration whose comment marker begins
    with the character '#', every line whose first characters after the
    leading white space are the comment marker is reported as
    non-structural by [parseYamlLine], whatever follows on the line. *)
Theorem parseYamlLine_hash_marker_not_key (cfg : Config) (line : string) :
  JsString.startsWith (commentsFormat cfg) "#" = true ->
  JsString.startsWith (JsString.trimStart line) (commentsFormat cfg) = true ->
  isYamlKey (parseYamlLine line) = false.
Proof.
  intros Hfmt Hline.
  destruct (startsWith_hash_inv _ Hfmt) as [fmt' Efmt].
  destruct (stripPrefix_head _ (JsString.trimStart line) _ _ Efmt Hline)
    as [rest Erest].
  unfold parseYamlLine.
  destruct (exec yamlKeyRegex line) as [m|]; [|reflexivity].
  cbn [isYamlKey]. unfold JsString.trim. rewrite Erest.
  destruct (trimEnd_head "#"%char rest eq_refl) as [t Et].
  rewrite Et. reflexivity.
Qed.

(** The default marker on a line that otherwise has the shape of a key. *)
Lemma parseYamlLine_hash_marker_not_key_witness :
  JsString.startsWith (commentsFormat defaultConfig) "#" = true /\
  JsString.startsWith (JsString.trimStart "  ## image: nginx")
                      (commentsFormat defaultConfig) = true /\
  isYamlKey (parseYamlLine "  ## image: nginx") = false.
Proof.
  split; [reflexivity|]. split; [reflexivity|].
  apply (parseYamlLine_hash_marker_not_key defaultConfig "  ## image: nginx");
    reflexivity.
Defined.

(** C7 (counterexample): [parseYamlLine] does not read the
    configuration; with the marker "//" the line "// image: nginx" begins
    with the marker and is still reported as a structural line, with the
    key "// image". *)
Lemma parseYamlLine_marker_counterexample :
  JsString.startsWith (JsString.trimStart "// image: nginx")
                      (commentsFormat slashConfig) = true /\
  parseYamlLine "// image: nginx" = mkYamlInfo true 0 "// image" "nginx" true.
Proof. split; vm_compute; reflexivity. Qed.

(* ================================================================== *)
(** ** Properties of updatePathStack *)
(* ================================================================== *)

Section PathStackFacts.

Lemma ascending_snoc_inv (l : list nat) (x : nat) :
  ascending (l ++ [x]) -> ascending l /\ Forall (fun y => y < x) l.
Proof.
  unfold ascending. induction l as [|a l IH]; simpl; intros H.
  - split; constructor.
  - inversion H as [|? ? Hs Hall]; subst.
    destruct (IH Hs) as [Hl Hlt].
    split.
    + constructor; [exact Hl|].
      apply Forall_app in Hall. tauto.
    + constructor; [|exact Hlt].
      apply Forall_app in Hall. destruct Hall as [_ Hx].
      inversion Hx; subst; assumption.
Qed.

Lemma ascending_snoc (l : list nat) (x : nat) :
  ascending l -> Forall (fun y => y < x) l -> ascending (l ++ [x]).
Proof.
  unfold ascending. induction l as [|a l IH]; simpl; intros Hs Hall.
  - repeat constructor.
  - inversion Hs; subst. inversion Hall; subst.
    constructor; [auto|].
    apply Forall_app. split; [assumption|]. repeat constructor. assumption.
Qed.

Lemma ascending_filter (f : nat -> bool) (l : list nat) :
  ascending l -> ascending (filter f l).
Proof.
  unfold ascending. induction l as [|a l IH]; simpl; intros Hs.
  - constructor.
  - inversion Hs as [|? ? Hl Hall]; subst.
    destruct (f a); [|auto].
    constructor; [auto|].
    rewrite Forall_forall in *. intros y Hy.
    apply filter_In in Hy. apply Hall. tauto.
Qed.

Lemma filter_all (f : nat -> bool) (l : list nat) :
  Forall (fun y => f y = true) l -> filter f l = l.
Proof.
  induction 1 as [|a l Ha _ IH]; simpl; [reflexivity|].
  rewrite Ha, IH. reflexivity.
Qed.

Lemma firstn_removelast (A : Type) (k : nat) (l : list A) :
  k < List.length l -> firstn k (removelast l) = firstn k l.
Proof.
  revert k. induction l as [|a l IH]; intros k Hk; simpl in Hk; [lia|].
  destruct l as [|b l]; simpl in Hk.
  - destruct k; [reflexivity | lia].
  - destruct k as [|k]; [reflexivity|].
    change (removelast (a :: b :: l)) with (a :: removelast (b :: l)).
    simpl firstn. f_equal. apply IH. simpl. lia.
Qed.

Lemma removelast_length (A : Type) (l : list A) :
  List.length (removelast l) = List.length l - 1.
Proof.
  induction l as [|a l IH]; [reflexivity|].
  destruct l as [|b l]; [reflexivity|].
  change (removelast (a :: b :: l)) with (a :: removelast (b :: l)).
  simpl List.length in *. lia.
Qed.

(** The loop keeps exactly the entries below the incoming indent, and
    the matching bottom part of the path stack. *)
Lemma popDeeper_spec (cur : nat) (ins : list nat) :
  forall (fuel : nat) (ps : list string),
    List.length ins <= fuel ->
    List.length ps = List.length ins ->
    ascending ins ->
    popDeeper fuel ps ins cur =
      (firstn (List.length (filter (shallower cur) ins)) ps,
       filter (shallower cur) ins).
Proof.
  induction ins as [|x ins0 IH] using rev_ind; intros fuel ps Hfuel Hlen Hasc.
  - destruct ps; [|discriminate]. destruct fuel; reflexivity.
  - rewrite length_app in Hfuel, Hlen. simpl in Hfuel, Hlen.
    destruct fuel as [|fuel]; [lia|].
    destruct (ascending_snoc_inv _ _ Hasc) as [Hasc0 Hlt].
    simpl popDeeper. rewrite length_app, last_last, removelast_last.
    replace (0 <? List.length ins0 + List.length [x]) with true
      by (symmetry; apply Nat.ltb_lt; simpl; lia).
    rewrite filter_app. simpl filter. unfold shallower at 2 4.
    destruct (cur <=? x) eqn:E; simpl andb; cbv iota.
    + apply Nat.leb_le in E.
      replace (x <? cur) with false by (symmetry; apply Nat.ltb_ge; lia).
      rewrite app_nil_r.
      rewrite IH; [|lia|rewrite removelast_length; lia|assumption].
      f_equal. apply firstn_removelast.
      pose proof (filter_length_le (shallower cur) ins0). lia.
    + apply Nat.leb_gt in E.
      replace (x <? cur) with true by (symmetry; apply Nat.ltb_lt; lia).
      rewrite filter_all.
      * rewrite length_app. simpl. rewrite <- Hlen, firstn_all. reflexivity.
      * eapply Forall_impl; [|exact Hlt]. intros y Hy. unfold shallower.
        simpl in Hy. apply Nat.ltb_lt. lia.
Qed.

Lemma updatePathStack_spec (ps : list string) (ins : list nat) (cur : nat)
      (k : string) :
  stacksInvariant ps ins ->
  updatePathStack ps ins cur k =
    (firstn (List.length (filter (shallower cur) ins)) ps ++ [k],
     filter (shallower cur) ins ++ [cur]).
Proof.
  intros [Hlen Hasc]. unfold updatePathStack.
  rewrite (popDeeper_spec cur ins (List.length ins) ps (le_n _) Hlen Hasc).
  reflexivity.
Qed.

Lemma updatePathStack_keeps (ps : list string) (ins : list nat) (cur : nat)
      (k : string) :
  stacksInvariant ps ins ->
  stacksInvariant (fst (updatePathStack ps ins cur k))
                  (snd (updatePathStack ps ins cur k)).
Proof.
  intros Hinv. rewrite (updatePathStack_spec ps ins cur k Hinv).
  destruct Hinv as [Hlen Hasc]. simpl. split.
  - rewrite !length_app. simpl. f_equal.
    apply firstn_length_le.
    pose proof (filter_length_le (shallower cur) ins). lia.
  - apply ascending_snoc; [apply ascending_filter; assumption|].
    apply Forall_forall. intros y Hy. apply filter_In in Hy.
    destruct Hy as [_ Hy]. apply Nat.ltb_lt in Hy. exact Hy.
Qed.

End PathStackFacts.

(* ================================================================== *)
(** ** The scanner: induction over the lines and frame properties *)
(* ================================================================== *)

(** A property of the state that holds initially and that every line
    keeps holds after every prefix of the lines. *)
Lemma scanPrefix_invariant (M : Matchers) (lines : list string)
      (P : ScanState -> Prop) :
  P initialState ->
  (forall next i line st st',
      P st -> scanLine M next i line st = Some st' -> P st') ->
  forall n st, scanPrefix M lines n = Some st -> P st.
Proof.
  intros Hinit Hstep. induction n as [|n IH]; simpl; intros st H.
  - inversion H; subst. exact Hinit.
  - destruct (scanPrefix M lines n) as [st0|]; [|discriminate].
    destruct (nth_error lines n) as [line|].
    + eapply Hstep; [apply IH; reflexivity | exact H].
    + inversion H; subst. apply IH. reflexivity.
Qed.

Section ScannerFrame.

Variable M : Matchers.

Lemma attach_stacks (p : ParameterObj) (st : ScanState) :
  stacksOf (attach p st) = stacksOf st.
Proof. unfold attach. repeat break_match; reflexivity. Qed.

Lemma lookAhead_stacks (next : option string) (p : ParameterObj) (st : ScanState) :
  stacksOf (lookAhead next p st) = stacksOf st.
Proof.
  unfold lookAhead. repeat break_match; try reflexivity.
  unfold stacksOf. simpl. apply (attach_stacks _ st).
Qed.

Lemma stepParam_stacks next i line st st' :
  stepParam M next i line st = Some st' -> stacksOf st' = stacksOf st.
Proof.
  unfold stepParam. intros H. repeat break_match; some_inv;
    auto using attach_stacks, lookAhead_stacks.
Qed.

Lemma stepExtra_stacks next i line st st' :
  stepExtra M next i line st = Some st' -> stacksOf st' = stacksOf st.
Proof.
  unfold stepExtra. intros H. repeat break_match; some_inv;
    auto using attach_stacks, lookAhead_stacks.
Qed.

Lemma stepSkip_stacks next i line st :
  stacksOf (stepSkip M next i line st) = stacksOf st.
Proof.
  unfold stepSkip. repeat break_match; auto using attach_stacks, lookAhead_stacks.
Qed.

Lemma stepSection_stacks line st :
  stacksOf (stepSection M line st) = stacksOf st.
Proof. unfold stepSection. repeat break_match; reflexivity. Qed.

Lemma addDescriptionLine_stacks l st :
  stacksOf (addDescriptionLine l st) = stacksOf st.
Proof. unfold addDescriptionLine. repeat break_match; reflexivity. Qed.

Lemma stepDescriptionEnd_stacks line st :
  stacksOf (stepDescriptionEnd M line st) = stacksOf st.
Proof. unfold stepDescriptionEnd. repeat break_match; reflexivity. Qed.

Lemma stepDescriptionContent_stacks line st :
  stacksOf (stepDescriptionContent M line st) = stacksOf st.
Proof.
  unfold stepDescriptionContent. repeat break_match;
    auto using addDescriptionLine_stacks.
Qed.

Lemma stepDescriptionStart_stacks line st :
  stacksOf (stepDescriptionStart M line st) = stacksOf st.
Proof.
  unfold stepDescriptionStart. repeat break_match; try reflexivity.
  apply (addDescriptionLine_stacks _ (setDescriptionParsing true st)).
Qed.

(** After the path-tracking step no step of the line touches the stacks. *)
Lemma scanLine_stacks next i line st st' :
  scanLine M next i line st = Some st' ->
  stacksOf st' = stacksOf (stepYaml line st).
Proof.
  unfold scanLine. intros H.
  destruct (stepParam M next i line (stepYaml line st)) as [st2|] eqn:E2;
    [|discriminate].
  apply stepExtra_stacks in H. rewrite H.
  rewrite stepSkip_stacks, stepDescriptionStart_stacks,
    stepDescriptionContent_stacks, stepDescriptionEnd_stacks,
    stepSection_stacks.
  eapply stepParam_stacks; eassumption.
Qed.

Lemma stepYaml_stacks line st :
  stacksOf (stepYaml line st) =
    if isYamlKey (parseYamlLine line)
    then updatePathStack (pathStack st) (indentStack st)
                         (indent (parseYamlLine line)) (key (parseYamlLine line))
    else stacksOf st.
Proof.
  unfold stepYaml. destruct (isYamlKey (parseYamlLine line)); [|reflexivity].
  set (u := updatePathStack _ _ _ _).
  destruct (pendingParam (setStacks u st)).
  - unfold stacksOf. simpl.
    change (stacksOf (attach (setName (buildCurrentPath (fst u)) p) (setStacks u st)) = u).
    rewrite attach_stacks. unfold stacksOf. simpl. destruct u; reflexivity.
  - unfold stacksOf. simpl. destruct u; reflexivity.
Qed.

End ScannerFrame.

(** C8: [updatePathStack] keeps the path-tracking invariant.  On stacks
    of equal length with strictly ascending indents it leaves stacks of
    equal length with strictly ascending indents; what it pops is exactly
    the entries whose indent is at least the incoming line's (the entries
    it keeps are those below it, with the matching part of the path
    stack), before it pushes the line's own entry; and so the invariant
    holds in the scanner's state after any prefix of the lines. *)
Theorem updatePathStack_invariant :
  (forall pathStack indentStack currentIndent key,
      stacksInvariant pathStack indentStack ->
      let kept := filter (shallower currentIndent) indentStack in
      updatePathStack pathStack indentStack currentIndent key =
        (firstn (List.length kept) pathStack ++ [key], kept ++ [currentIndent]) /\
      stacksInvariant
        (fst (updatePathStack pathStack indentStack currentIndent key))
        (snd (updatePathStack pathStack indentStack currentIndent key))) /\
  (forall M lines n st,
      scanPrefix M lines n = Some st ->
      stacksInvariant (pathStack st) (indentStack st)).
Proof.
  split.
  - intros ps ins cur k Hinv. split.
    + apply updatePathStack_spec; assumption.
    + apply updatePathStack_keeps; assumption.
  - intros M lines.
    apply (scanPrefix_invariant M lines
             (fun st => stacksInvariant (pathStack st) (indentStack st))).
    + split; [reflexivity | constructor].
    + intros next i line st st' Hinv Hstep.
      apply scanLine_stacks in Hstep. rewrite stepYaml_stacks in Hstep.
      unfold stacksOf in Hstep.
      destruct (isYamlKey (parseYamlLine line)).
      * pose proof (updatePathStack_keeps _ _ (indent (parseYamlLine line))
                      (key (parseYamlLine line)) Hinv) as Hk.
        rewrite <- Hstep in Hk. exact Hk.
      * inversion Hstep. congruence.
Qed.

(** The invariant on concrete stacks and on a three-line file. *)
Lemma updatePathStack_invariant_witness :
  stacksInvariant ["a"; "b"; "c"] [0; 2; 4] /\
  updatePathStack ["a"; "b"; "c"] [0; 2; 4] 2 "d" = (["a"; "d"], [0; 2]) /\
  exists st,
    scanPrefix (literalMatchers defaultConfig) ["a:"; "  b:"; "c: 1"] 3 = Some st /\
    stacksInvariant (pathStack st) (indentStack st).
Proof.
  assert (Hinv : stacksInvariant ["a"; "b"; "c"] [0; 2; 4]).
  { split; [reflexivity|]. unfold ascending. repeat constructor. }
  split; [exact Hinv|]. split.
  - exact (proj1 (proj1 updatePathStack_invariant
                    ["a"; "b"; "c"] [0; 2; 4] 2 "d" Hinv)).
  - eexists. split.
    + vm_compute. reflexivity.
    + apply (proj2 updatePathStack_invariant (literalMatchers defaultConfig)
               ["a:"; "  b:"; "c: 1"] 3).
      vm_compute. reflexivity.
Defined.

(* ================================================================== *)
(** ** The replica-count scenario *)
(* ================================================================== *)

(** C1 (as amended): on the two lines "## @param replicaCount Number of
    replicas" and "replicaCount: 3", with the default configuration,
    [parseMetadataComments] produces exactly one parameter, named
    "replicaCount" after the key on the second line, whose description is
    the whole text after the tag, "replicaCount Number of replicas"; and
    [createValuesObject] produces on the tree of the same input exactly
    one parameter, with name "replicaCount", type "number" and value 3. *)
Theorem replicaCount_scenario :
  parseMetadataComments (literalMatchers defaultConfig) replicaCountText =
    Some (mkMetadata []
            [mkParameter (FromTag 0 TagParam) "replicaCount"
                         (Some "replicaCount Number of replicas") (Some [])
                         None false false None None true]) /\
  createValuesObject Ref.lib replicaCountTree =
    Some [mkParameter (FromValue 0) "replicaCount" None None None false false
                      (Some "number") (Some (JNum 3)) true].
Proof. split; vm_compute; reflexivity. Qed.

(** C1 (counterexample): the one parameter the scanner produces on the
    scenario's input does not have the description "Number of replicas":
    the tag has no path in parentheses, so the pattern takes the word
    "replicaCount" as the start of the description. *)
Lemma replicaCount_description_counterexample :
  exists p,
    option_map parameters
      (parseMetadataComments (literalMatchers defaultConfig) replicaCountText)
      = Some [p] /\
    name p = "replicaCount" /\
    description p = Some "replicaCount Number of replicas" /\
    description p <> Some "Number of replicas".
Proof.
  eexists. split; [vm_compute; reflexivity|].
  repeat split; simpl; congruence.
Qed.

(* ================================================================== *)
(** ** The scanner: what each step adds to the metadata *)
(* ================================================================== *)

Section ScannerEffects.

Variable M : Matchers.

Lemma sameObject_refl p : sameObject p p.
Proof. repeat split. Qed.

Lemma sameObject_setSection s p : sameObject p (setSection s p).
Proof. repeat split. Qed.

Lemma sameObject_setName n p q : sameObject p q -> sameObject (setName n p) q.
Proof. unfold sameObject. simpl. tauto. Qed.

Lemma freshOf_same i kind p q : freshOf i kind p -> sameObject p q -> freshOf i kind q.
Proof.
  unfold freshOf, documentationOnly, sameObject.
  intros [Ho [Ht Hv]] [Eo [Et [Ev Ee]]].
  rewrite Eo, Et, Ev, Ee. auto.
Qed.

Lemma in_updateAt_add p ref secs q :
  In q (flat_map secParameters (updateAt ref (addParameterToSection p) secs)) ->
  In q (flat_map secParameters secs) \/ q = p.
Proof.
  revert ref. induction secs as [|s secs IH]; intros ref H; simpl in *.
  - destruct ref; simpl in H; tauto.
  - destruct ref as [|ref]; simpl in H; apply in_app_or in H.
    + destruct H as [H|H].
      * apply in_app_or in H. destruct H as [H|[H|[]]]; [|auto].
        left. apply in_or_app. auto.
      * left. apply in_or_app. auto.
    + destruct H as [H|H].
      * left. apply in_or_app. auto.
      * destruct (IH ref H); [|auto]. left. apply in_or_app. auto.
Qed.

Lemma flat_map_updateAt_desc l ref secs :
  flat_map secParameters (updateAt ref (addDescriptionLineToSection l) secs)
  = flat_map secParameters secs.
Proof.
  revert ref. induction secs as [|s secs IH]; intros [|ref]; simpl;
    try reflexivity.
  rewrite IH. reflexivity.
Qed.

Lemma attach_params p st q :
  In q (mdParams (attach p st)) -> In q (mdParams st) \/ sameObject p q.
Proof.
  unfold attach, mdParams.
  destruct (currentSection st) as [ref|]; simpl.
  - destruct (nth_error (sections (parsedValues st)) ref) as [sec|]; simpl;
      intros H; apply in_app_or in H; destruct H as [H|H].
    + apply in_app_or in H. destruct H as [H|[H|[]]].
      * left. apply in_or_app. auto.
      * right. subst q. apply sameObject_setSection.
    + apply in_updateAt_add in H. destruct H as [H|H].
      * left. apply in_or_app. auto.
      * right. subst q. apply sameObject_setSection.
    + apply in_app_or in H. destruct H as [H|[H|[]]].
      * left. apply in_or_app. auto.
      * right. subst q. apply sameObject_refl.
    + left. apply in_or_app. auto.
  - intros H. apply in_app_or in H. destruct H as [H|H].
    + apply in_app_or in H. destruct H as [H|[H|[]]].
      * left. apply in_or_app. auto.
      * right. subst q. apply sameObject_refl.
    + left. apply in_or_app. auto.
Qed.

Lemma attach_pending p st : pendingParam (attach p st) = pendingParam st.
Proof. unfold attach. repeat break_match; reflexivity. Qed.

Lemma lookAhead_params next p st q :
  In q (mdParams (lookAhead next p st)) ->
  In q (mdParams st) \/ (nextIsKey next = true /\ sameObject p q).
Proof.
  unfold lookAhead, nextIsKey. destruct next as [nextLine|]; [|auto].
  destruct (isYamlKey (parseYamlLine nextLine)); [|auto].
  intros H.
  change (In q (mdParams
                  (attach (setName (buildCurrentPath
                     (fst (updatePathStack (pathStack st) (indentStack st)
                             (indent (parseYamlLine nextLine))
                             (key (parseYamlLine nextLine))))) p) st))) in H.
  apply attach_params in H. destruct H as [H|H]; [auto|].
  right. split; [reflexivity|].
  destruct H as [Ho [Ht [Hv He]]]. repeat split; assumption.
Qed.

Lemma lookAhead_pending next p st :
  pendingParam (lookAhead next p st) = if nextIsKey next then None else Some p.
Proof.
  unfold lookAhead, nextIsKey. destruct next as [nextLine|]; [|reflexivity].
  destruct (isYamlKey (parseYamlLine nextLine)); reflexivity.
Qed.

(** The block every tag step ends with. *)
Lemma tagBlock_effect next i kind (explicit : bool) (fresh : string -> ParameterObj)
      (path : string) st :
  (forall n, freshOf i kind (fresh n)) ->
  let st' := if explicit then attach (fresh path) st
             else lookAhead next (fresh "") st in
  (forall q, In q (mdParams st') ->
             In q (mdParams st) \/
             (freshOf i kind q /\
              (explicit = true \/ (explicit = false /\ nextIsKey next = true)))) /\
  (if explicit then pendingParam st' = pendingParam st
   else if nextIsKey next then pendingParam st' = None
        else exists q, pendingParam st' = Some q /\ freshOf i kind q).
Proof.
  intros Hfresh. destruct explicit; simpl; split.
  - intros q H. apply attach_params in H. destruct H as [H|H]; [auto|].
    right. split; [|auto]. eapply freshOf_same; [apply Hfresh | exact H].
  - apply attach_pending.
  - intros q H. apply lookAhead_params in H. destruct H as [H|[Hk H]]; [auto|].
    right. split; [|auto]. eapply freshOf_same; [apply Hfresh | exact H].
  - rewrite lookAhead_pending. destruct (nextIsKey next); [reflexivity|].
    eexists. split; [reflexivity | apply Hfresh].
Qed.

Lemma stepParam_effect next i line st st' :
  stepParam M next i line st = Some st' ->
  (forall q, In q (mdParams st') ->
             In q (mdParams st) \/ addedByTag M next i line TagParam q) /\
  pendingAfterTag M next i line TagParam (pendingParam st) (pendingParam st').
Proof.
  unfold stepParam, addedByTag, pendingAfterTag, tagExplicit, tagPathless.
  destruct (paramRegex M line) as [m|]; [|intros H; some_inv; auto].
  destruct (modifiersText (modifiersGroup m)) as [mods|]; [|discriminate].
  intros H.
  pose proof (tagBlock_effect next i TagParam (truthy (explicitPathGroup m))
                (fun n => setDescription (descriptionGroup m)
                            (setModifiers (modifierList mods)
                               (newParameter (FromTag i TagParam) n)))
                (orEmpty (explicitPathGroup m)) st) as E.
  cbv beta zeta in E.
  destruct E as [Ea Eb]; [intros n; repeat split; auto|].
  destruct (truthy (explicitPathGroup m)); some_inv; simpl; split; auto.
  - intros q Hq. destruct (Ea q Hq) as [|[Hf [Hx|[Hx Hk]]]]; auto; discriminate.
  - intros q Hq. destruct (Ea q Hq) as [|[Hf [Hx|[Hx Hk]]]]; auto; discriminate.
Qed.

Lemma stepExtra_effect next i line st st' :
  stepExtra M next i line st = Some st' ->
  (forall q, In q (mdParams st') ->
             In q (mdParams st) \/ addedByTag M next i line TagExtra q) /\
  pendingAfterTag M next i line TagExtra (pendingParam st) (pendingParam st').
Proof.
  unfold stepExtra, addedByTag, pendingAfterTag, tagExplicit, tagPathless.
  destruct (extraRegex M line) as [m|]; [|intros H; some_inv; auto].
  destruct (modifiersText (modifiersGroup m)) as [mods|]; [|discriminate].
  intros H.
  pose proof (tagBlock_effect next i TagExtra (truthy (explicitPathGroup m))
                (fun n => setExtra true
                            (setValue (Some (JStr ""))
                               (setDescription (descriptionGroup m)
                                  (setModifiers (modifierList mods)
                                     (newParameter (FromTag i TagExtra) n)))))
                (orEmpty (explicitPathGroup m)) st) as E.
  cbv beta zeta in E.
  destruct E as [Ea Eb]; [intros n; repeat split; auto|].
  destruct (truthy (explicitPathGroup m)); some_inv; simpl; split; auto.
  - intros q Hq. destruct (Ea q Hq) as [|[Hf [Hx|[Hx Hk]]]]; auto; discriminate.
  - intros q Hq. destruct (Ea q Hq) as [|[Hf [Hx|[Hx Hk]]]]; auto; discriminate.
Qed.

Lemma stepSkip_effect next i line st :
  (forall q, In q (mdParams (stepSkip M next i line st)) ->
             In q (mdParams st) \/ addedByTag M next i line TagSkip q) /\
  pendingAfterTag M next i line TagSkip (pendingParam st)
                  (pendingParam (stepSkip M next i line st)).
Proof.
  unfold stepSkip, addedByTag, pendingAfterTag, tagExplicit, tagPathless.
  destruct (skipRegex M line) as [[explicitPath text]|]; [|auto].
  pose proof (tagBlock_effect next i TagSkip (truthy explicitPath)
                (fun n => setDescription text
                            (setSkip true (newParameter (FromTag i TagSkip) n)))
                (orEmpty explicitPath) st) as E.
  cbv beta zeta in E.
  destruct E as [Ea Eb]; [intros n; repeat split; auto|].
  destruct (truthy explicitPath); simpl; split; auto.
  - intros q Hq. destruct (Ea q Hq) as [|[Hf [Hx|[Hx Hk]]]]; auto; discriminate.
  - intros q Hq. destruct (Ea q Hq) as [|[Hf [Hx|[Hx Hk]]]]; auto; discriminate.
Qed.

Lemma stepYaml_effect line st :
  (forall q, In q (mdParams (stepYaml line st)) ->
             In q (mdParams st) \/
             (isYamlKey (parseYamlLine line) = true /\
              exists p, pendingParam st = Some p /\ sameObject p q)) /\
  pendingParam (stepYaml line st) =
    (if isYamlKey (parseYamlLine line) then None else pendingParam st).
Proof.
  unfold stepYaml. destruct (isYamlKey (parseYamlLine line)); [|auto].
  set (u := updatePathStack _ _ _ _).
  assert (Ep : pendingParam (setStacks u st) = pendingParam st) by reflexivity.
  rewrite Ep.
  destruct (pendingParam st) as [p|]; [|split; [intros q H; left; exact H | auto]].
  split; [|reflexivity].
  intros q H.
  change (In q (mdParams (attach (setName (buildCurrentPath (fst u)) p)
                                 (setStacks u st)))) in H.
  apply attach_params in H. destruct H as [H|H]; [auto|].
  right. split; [reflexivity|]. exists p. split; [reflexivity|].
  destruct H as [Ho [Ht [Hv He]]]. repeat split; assumption.
Qed.

Lemma addDescriptionLine_params l st :
  mdParams (addDescriptionLine l st) = mdParams st.
Proof.
  unfold addDescriptionLine, mdParams.
  destruct (currentSection st); [|reflexivity]. simpl.
  rewrite flat_map_updateAt_desc. reflexivity.
Qed.

Lemma addDescriptionLine_pending l st :
  pendingParam (addDescriptionLine l st) = pendingParam st.
Proof. unfold addDescriptionLine. destruct (currentSection st); reflexivity. Qed.

(** The section and description steps add no parameter and leave the
    pending slot alone. *)
Lemma neutralSteps_effect line st :
  let st' := stepDescriptionStart M line
               (stepDescriptionContent M line
                  (stepDescriptionEnd M line (stepSection M line st))) in
  mdParams st' = mdParams st /\ pendingParam st' = pendingParam st.
Proof.
  cbv zeta.
  assert (A : forall s, mdParams (stepSection M line s) = mdParams s /\
                        pendingParam (stepSection M line s) = pendingParam s).
  { intros s. unfold stepSection. destruct (sectionRegex M line); [|auto].
    unfold mdParams. simpl. rewrite flat_map_app. simpl.
    rewrite !app_nil_r. auto. }
  assert (B : forall s, mdParams (stepDescriptionEnd M line s) = mdParams s /\
                        pendingParam (stepDescriptionEnd M line s) = pendingParam s).
  { intros s. unfold stepDescriptionEnd. break_match; auto. }
  assert (C : forall s, mdParams (stepDescriptionContent M line s) = mdParams s /\
                        pendingParam (stepDescriptionContent M line s) = pendingParam s).
  { intros s. unfold stepDescriptionContent. repeat break_match; auto.
    split; [apply addDescriptionLine_params | apply addDescriptionLine_pending]. }
  assert (D : forall s, mdParams (stepDescriptionStart M line s) = mdParams s /\
                        pendingParam (stepDescriptionStart M line s) = pendingParam s).
  { intros s. unfold stepDescriptionStart. repeat break_match; auto.
    split; [apply (addDescriptionLine_params _ (setDescriptionParsing true s))
           | apply (addDescriptionLine_pending _ (setDescriptionParsing true s))]. }
  destruct (A st) as [A1 A2].
  destruct (B (stepSection M line st)) as [B1 B2].
  destruct (C (stepDescriptionEnd M line (stepSection M line st))) as [C1 C2].
  destruct (D (stepDescriptionContent M line
                 (stepDescriptionEnd M line (stepSection M line st)))) as [D1 D2].
  split; congruence.
Qed.

(** Everything a line adds to the metadata. *)
Lemma scanLine_params next i line st st' :
  scanLine M next i line st = Some st' ->
  forall q, In q (mdParams st') ->
            In q (mdParams st) \/ lineAdds M next i line (pendingParam st) q.
Proof.
  unfold scanLine. intros H q Hq.
  destruct (stepParam M next i line (stepYaml line st)) as [st2|] eqn:E2;
    [|discriminate].
  destruct (stepExtra_effect _ _ _ _ _ H) as [Hx _].
  destruct (stepSkip_effect next i line
              (stepDescriptionStart M line
                 (stepDescriptionContent M line
                    (stepDescriptionEnd M line (stepSection M line st2)))))
    as [Hs _].
  destruct (neutralSteps_effect line st2) as [Hn _].
  destruct (stepParam_effect _ _ _ _ _ E2) as [Hp _].
  destruct (stepYaml_effect line st) as [Hy _].
  unfold lineAdds.
  destruct (Hx q Hq) as [H1|H1]; [|eauto].
  destruct (Hs q H1) as [H2|H2]; [|eauto].
  rewrite Hn in H2.
  destruct (Hp q H2) as [H3|H3]; [|eauto].
  destruct (Hy q H3) as [H4|H4]; auto.
Qed.

(** The pending slot after a line. *)
Lemma scanLine_pending next i line st st' :
  scanLine M next i line st = Some st' ->
  forall q, pendingParam st' = Some q ->
            pendingAfterLine M next i line (pendingParam st) q.
Proof.
  unfold scanLine. intros H q Hq.
  destruct (stepParam M next i line (stepYaml line st)) as [st2|] eqn:E2;
    [|discriminate].
  destruct (stepExtra_effect _ _ _ _ _ H) as [_ Hx].
  destruct (stepSkip_effect next i line
              (stepDescriptionStart M line
                 (stepDescriptionContent M line
                    (stepDescriptionEnd M line (stepSection M line st2)))))
    as [_ Hs].
  destruct (neutralSteps_effect line st2) as [_ Hn].
  destruct (stepParam_effect _ _ _ _ _ E2) as [_ Hp].
  destruct (stepYaml_effect line st) as [_ Hy].
  cbv zeta in Hn. rewrite Hn in Hs. rewrite Hy in Hp. clear Hn Hy.
  unfold pendingAfterTag in *. unfold pendingAfterLine.
  rewrite Hq in Hx.
  destruct (tagPathless M TagExtra line) eqn:Te.
  { right. exists TagExtra. destruct (nextIsKey next); [discriminate|].
    destruct Hx as [q' [Hq' Hf]]. inversion Hq'; subst. auto. }
  rewrite <- Hx in Hs.
  destruct (tagPathless M TagSkip line) eqn:Ts.
  { right. exists TagSkip. destruct (nextIsKey next); [discriminate|].
    destruct Hs as [q' [Hq' Hf]]. inversion Hq'; subst. auto. }
  rewrite <- Hs in Hp.
  destruct (tagPathless M TagParam line) eqn:Tp.
  { right. exists TagParam. destruct (nextIsKey next); [discriminate|].
    destruct Hp as [q' [Hq' Hf]]. inversion Hq'; subst. auto. }
  destruct (isYamlKey (parseYamlLine line)); [discriminate|].
  left. split; [auto|]. split; [reflexivity|].
  intros [| |]; assumption.
Qed.

End ScannerEffects.

(* ================================================================== *)
(** ** The scanner: totality and the objects of a prefix *)
(* ================================================================== *)

Section ScannerPrefix.

Variable M : Matchers.
Variable lines : list string.

Lemma scanLine_total next i line st :
  lineScannable M line = true -> exists st', scanLine M next i line st = Some st'.
Proof.
  unfold lineScannable, scanLine, stepParam, stepExtra. intros H.
  apply andb_prop in H. destruct H as [Hp He].
  destruct (paramRegex M line) as [m|].
  - destruct (modifiersText (modifiersGroup m)); [|discriminate].
    destruct (extraRegex M line) as [m'|].
    + destruct (modifiersText (modifiersGroup m')); [|discriminate].
      destruct (truthy (explicitPathGroup m));
        destruct (truthy (explicitPathGroup m')); eauto.
    + destruct (truthy (explicitPathGroup m)); eauto.
  - destruct (extraRegex M line) as [m'|]; [|eauto].
    destruct (modifiersText (modifiersGroup m')); [|discriminate].
    destruct (truthy (explicitPathGroup m')); eauto.
Qed.

(** When no modifier expression throws, the scan reaches every prefix. *)
Lemma scanPrefix_total :
  linesScannable M lines = true ->
  forall n, exists st, scanPrefix M lines n = Some st.
Proof.
  intros H. induction n as [|n [st IH]]; simpl; [eauto|].
  rewrite IH. destruct (nth_error lines n) as [line|] eqn:E; [|eauto].
  apply scanLine_total.
  unfold linesScannable in H. rewrite forallb_forall in H.
  apply H. eapply nth_error_In; eassumption.
Qed.

Lemma scanPrefix_succ n st' :
  n < List.length lines ->
  scanPrefix M lines (S n) = Some st' ->
  exists st line,
    scanPrefix M lines n = Some st /\ nth_error lines n = Some line /\
    scanLine M (nth_error lines (S n)) n line st = Some st'.
Proof.
  simpl. intros Hn H.
  destruct (scanPrefix M lines n) as [st|]; [|discriminate].
  destruct (nth_error lines n) as [line|] eqn:E.
  - eauto.
  - apply nth_error_None in E. lia.
Qed.

Lemma tagged_mono n p : tagged n p -> tagged (S n) p.
Proof. intros [j [k [H Hj]]]. exists j, k. split; [assumption | lia]. Qed.

Lemma tagged_same n p q : tagged n p -> sameObject p q -> tagged n q.
Proof.
  intros [j [k [H Hj]]] [Ho _]. exists j, k. split; [congruence | assumption].
Qed.

Lemma documentationOnly_same p q :
  documentationOnly p -> sameObject p q -> documentationOnly q.
Proof.
  unfold documentationOnly, sameObject. intros [Ht Hv] [_ [Et [Ev Ee]]].
  rewrite Et, Ev, Ee. auto.
Qed.

(** Every object of the state after [n] lines was made by a tag on one of
    these lines, and has no type and no value but an extra's. *)
Lemma scanPrefix_objects n :
  n <= List.length lines ->
  forall st, scanPrefix M lines n = Some st ->
    (forall q, In q (mdParams st) -> tagged n q /\ documentationOnly q) /\
    (forall q, pendingParam st = Some q -> tagged n q /\ documentationOnly q).
Proof.
  induction n as [|n IH]; intros Hn st H.
  - simpl in H. inversion H; subst. split; [intros q []|discriminate].
  - destruct (scanPrefix_succ n st Hn H) as [st0 [line [H0 [Hl Hs]]]].
    destruct (IH (Nat.lt_le_incl _ _ Hn) st0 H0) as [IHm IHp].
    assert (Hfresh : forall kind q, freshOf n kind q ->
                                    tagged (S n) q /\ documentationOnly q).
    { intros kind q [Ho Hd]. split; [|assumption].
      exists n, kind. split; [assumption | lia]. }
    split.
    + intros q Hq.
      destruct (scanLine_params M _ _ _ _ _ Hs q Hq) as [Hold|[Hy|Ht]].
      * destruct (IHm q Hold). auto using tagged_mono.
      * destruct Hy as [_ [p [Hp Hsame]]]. destruct (IHp p Hp).
        split; [apply tagged_mono; eapply tagged_same; eassumption|].
        eapply documentationOnly_same; eassumption.
      * destruct Ht as [kind [Hf _]]. eapply Hfresh; eassumption.
    + intros q Hq.
      destruct (scanLine_pending M _ _ _ _ _ Hs q Hq) as [[Hold _]|[kind [Hf _]]].
      * destruct (IHp q Hold). auto using tagged_mono.
      * eapply Hfresh; eassumption.
Qed.

Lemma mdParams_absent (id : ObjId) (st : ScanState) :
  (forall q, In q (mdParams st) -> oid q <> id) ->
  absentFrom id (parsedValues st).
Proof.
  unfold mdParams, absentFrom. intros H. split.
  - intros q Hq. apply H. apply in_or_app. auto.
  - intros s q Hs Hq. apply H. apply in_or_app. right.
    apply in_flat_map. eauto.
Qed.

Lemma tagPathless_not_explicit kind line :
  tagPathless M kind line = true -> tagExplicit M kind line = false.
Proof.
  unfold tagPathless, tagExplicit. destruct kind.
  - destruct (paramRegex M line) as [m|]; [|auto].
    destruct (truthy (explicitPathGroup m)); auto.
  - destruct (skipRegex M line) as [[e t]|]; [|auto].
    destruct (truthy e); auto.
  - destruct (extraRegex M line) as [m|]; [|auto].
    destruct (truthy (explicitPathGroup m)); auto.
Qed.

End ScannerPrefix.

(* ================================================================== *)
(** ** The modifier expressions never throw on the source's patterns *)
(* ================================================================== *)

Section BracketGroup.

Lemma consumed_bracket s0 s' :
  String.length s' <= String.length s0 ->
  exists t, consumed (String "[" s0) s' = String "[" t.
Proof.
  intros H. unfold consumed. simpl String.length.
  replace (S (String.length s0) - String.length s')
    with (S (String.length s0 - String.length s')) by lia.
  simpl. eauto.
Qed.

Lemma bracketed_cons_other n g c : n <> 2 -> bracketed c -> bracketed ((n, g) :: c).
Proof.
  intros Hn Hc g' H. simpl in H.
  destruct (Nat.eqb n 2) eqn:E; [apply Nat.eqb_eq in E; contradiction|].
  apply Hc. exact H.
Qed.

Lemma bracketed_cons_bracket t c : bracketed ((2, String "[" t) :: c).
Proof. intros g H. simpl in H. inversion H; subst. eauto. Qed.

(** A successful run reaches its continuation on a suffix of the input,
    with captures that keep the shape of the bracket group. *)
Lemma stripPrefix_consumed p s s' :
  JsString.stripPrefix p s = Some s' ->
  String.length s' + String.length p <= String.length s.
Proof.
  revert s. induction p as [|a p IH]; simpl; intros s H.
  - inversion H; subst. lia.
  - destruct s as [|b s]; [discriminate|].
    destruct (Ascii.eqb a b); [|discriminate].
    apply IH in H. simpl. lia.
Qed.

(** A successful run reaches its continuation on a suffix of the input,
    with captures that keep the shape of the bracket group. *)
Lemma run_bracketed (A : Type) (r : regex) :
  bracketGroup r ->
  forall s c (k : string -> caps -> option A) x,
    bracketed c ->
    run r s c k = Some x ->
    exists s' c',
      String.length s' + minConsumed r <= String.length s /\
      bracketed c' /\ k s' c' = Some x.
Proof.
  induction r as [| p | l | r1 IH1 r2 IH2 | g r1 IH1 | r1 IH1 | n r1 IH1 |];
    simpl; intros Hr s c k x Hc H.
  - exists s, c. split; [lia | auto].
  - destruct s as [|a s]; [discriminate|].
    destruct (p a); [|discriminate].
    exists s, c. simpl. split; [lia | auto].
  - destruct (JsString.stripPrefix l s) as [s'|] eqn:E; [|discriminate].
    exists s', c. split; [eapply stripPrefix_consumed; eassumption | auto].
  - destruct Hr as [Hr1 Hr2].
    destruct (IH1 Hr1 _ _ _ _ Hc H) as [s1 [c1 [Hl1 [Hc1 H1]]]].
    destruct (IH2 Hr2 _ _ _ _ Hc1 H1) as [s2 [c2 [Hl2 [Hc2 H2]]]].
    exists s2, c2. split; [lia | auto].
  - revert H. generalize (String.length s) at 1 as fuel.
    intros fuel. revert s c Hc.
    induction fuel as [|fuel IHf]; intros s c Hc H.
    + exists s, c. split; [lia | auto].
    + cbv zeta in H.
      destruct g.
      * match type of H with
        | match ?e with _ => _ end = _ => destruct e as [y|] eqn:E
        end.
        -- inversion H; subst y.
           destruct (IH1 Hr _ _ _ _ Hc E) as [s1 [c1 [Hl1 [Hc1 H1]]]].
           destruct (String.length s1 <? String.length s); [|discriminate].
           destruct (IHf s1 c1 Hc1 H1) as [s2 [c2 [Hl2 [Hc2 H2]]]].
           exists s2, c2. split; [lia | auto].
        -- exists s, c. split; [lia | auto].
      * destruct (k s c) as [y|] eqn:E.
        -- inversion H; subst y. exists s, c. split; [lia | auto].
        -- destruct (IH1 Hr _ _ _ _ Hc H) as [s1 [c1 [Hl1 [Hc1 H1]]]].
           destruct (String.length s1 <? String.length s); [|discriminate].
           destruct (IHf s1 c1 Hc1 H1) as [s2 [c2 [Hl2 [Hc2 H2]]]].
           exists s2, c2. split; [lia | auto].
  - destruct (run r1 s c k) as [y|] eqn:E.
    + inversion H; subst y.
      destruct (IH1 Hr _ _ _ _ Hc E) as [s1 [c1 [Hl1 [Hc1 H1]]]].
      exists s1, c1. split; [lia | auto].
    + exists s, c. split; [lia | auto].
  - destruct Hr as [Hr1 Hshape].
    destruct (IH1 Hr1 _ _ _ _ Hc H) as [s1 [c1 [Hl1 [Hc1 H1]]]].
    exists s1, ((n, consumed s s1) :: c1).
    split; [assumption|]. split; [|assumption].
    destruct (Nat.eq_dec n 2) as [->|Hn];
      [|apply bracketed_cons_other; assumption].
    destruct (Hshape eq_refl) as [r' ->].
    unfold chr in H, Hl1. cbn [run minConsumed] in H, Hl1.
    destruct s as [|a s0]; [discriminate|].
    destruct (Ascii.eqb "[" a) eqn:Ea; [|discriminate].
    apply Ascii.eqb_eq in Ea. subst a.
    destruct (consumed_bracket s0 s1) as [t Ht]; [simpl in Hl1; lia|].
    rewrite Ht. apply bracketed_cons_bracket.
  - destruct s; [|discriminate]. exists EmptyString, c. split; [simpl; lia | auto].
Qed.

Lemma exec_bracketed r s c : bracketGroup r -> exec r s = Some c -> bracketed c.
Proof.
  unfold exec. intros Hr H.
  destruct (run_bracketed caps r Hr s [] (fun _ c => Some c) c) as
    [s' [c' [_ [Hc' E]]]]; [intros g Hg; discriminate | exact H |].
  inversion E; subst. exact Hc'.
Qed.

Lemma split_nonempty sep s : exists piece rest, JsString.split sep s = piece :: rest.
Proof.
  induction s as [|a s [piece [rest IH]]]; simpl; [eauto|].
  destruct (Ascii.eqb a sep); [eauto|]. rewrite IH. eauto.
Qed.

Lemma modifiersText_bracketed c :
  bracketed c -> isSome (modifiersText (group c 2)) = true.
Proof.
  intros Hc. unfold modifiersText.
  destruct (group c 2) as [g|] eqn:E; [|reflexivity].
  destruct (Hc g E) as [t ->]. simpl.
  destruct (split_nonempty "[" t) as [piece [rest ->]]. reflexivity.
Qed.

Lemma paramPattern_bracketGroup cfg tag : bracketGroup (paramPattern cfg tag).
Proof.
  unfold paramPattern, commentHead, pathPart. simpl.
  repeat split; try (intros; discriminate). eauto.
Qed.

(** For a configuration of literal strings the modifier expressions
    throw on no line. *)
Lemma literal_linesScannable cfg lines :
  linesScannable (literalMatchers cfg) lines = true.
Proof.
  unfold linesScannable. apply forallb_forall. intros line _.
  unfold lineScannable, literalMatchers. simpl.
  apply andb_true_intro. split.
  - destruct (exec (paramPattern cfg (tagParam cfg)) line) as [c|] eqn:E;
      [|reflexivity].
    simpl. apply modifiersText_bracketed.
    eapply exec_bracketed; [apply paramPattern_bracketGroup | exact E].
  - destruct (exec (paramPattern cfg (tagExtra cfg)) line) as [c|] eqn:E;
      [|reflexivity].
    simpl. apply modifiersText_bracketed.
    eapply exec_bracketed; [apply paramPattern_bracketGroup | exact E].
Qed.

(** So [parseMetadataComments] returns on every file. *)
Lemma literal_parseMetadataComments_total cfg data :
  exists md, parseMetadataComments (literalMatchers cfg) data = Some md.
Proof.
  unfold parseMetadataComments.
  destruct (scanPrefix_total (literalMatchers cfg) (splitLines data)
              (literal_linesScannable cfg _)
              (List.length (splitLines data))) as [st H].
  rewrite H. simpl. eauto.
Qed.

End BracketGroup.

(* ================================================================== *)
(** ** A pending parameter that no structural line follows *)
(* ================================================================== *)

Section Unresolved.

Variable M : Matchers.
Variable lines : list string.

Lemma noKeyAfter_nth i j l :
  noKeyAfter i lines = true -> i < j -> nth_error lines j = Some l ->
  isYamlKey (parseYamlLine l) = false.
Proof.
  unfold noKeyAfter. intros H Hj Hl. rewrite forallb_forall in H.
  apply negb_true_iff. apply H.
  replace j with (S i + (j - S i)) in Hl by lia.
  rewrite <- nth_error_skipn in Hl. eapply nth_error_In; eassumption.
Qed.

Lemma noKeyAfter_next i :
  noKeyAfter i lines = true -> nextIsKey (nth_error lines (S i)) = false.
Proof.
  intros H. unfold nextIsKey.
  destruct (nth_error lines (S i)) as [l|] eqn:E; [|reflexivity].
  eapply noKeyAfter_nth; [eassumption | | eassumption]. lia.
Qed.

(** The object of a pathless tag on line [i] that no structural line
    follows is in no list of the metadata, after any number of lines. *)
Lemma unresolved_absent i line kind :
  nth_error lines i = Some line ->
  tagPathless M kind line = true ->
  noKeyAfter i lines = true ->
  forall n, i < n -> n <= List.length lines ->
  forall st, scanPrefix M lines n = Some st ->
  forall q, In q (mdParams st) -> oid q <> FromTag i kind.
Proof.
  intros Hline Hless Hno. induction n as [|n IH]; intros Hin Hn st H q Hq; [lia|].
  destruct (scanPrefix_succ M lines n st Hn H) as [st0 [l [H0 [Hl Hs]]]].
  destruct (scanLine_params M _ _ _ _ _ Hs q Hq) as [Hold|[Hy|[kind' Ht]]].
  - destruct (Nat.eq_dec n i) as [->|Hne].
    + destruct (scanPrefix_objects M lines i (Nat.lt_le_incl _ _ Hn) st0 H0)
        as [Hm _].
      destruct (Hm q Hold) as [[j [k [Ho Hj]]] _].
      rewrite Ho. intros E. inversion E. lia.
    + apply (IH ltac:(lia) ltac:(lia) st0 H0 q Hold).
  - destruct Hy as [Hkey [p [Hp [Ho _]]]].
    destruct (Nat.eq_dec n i) as [->|Hne].
    + destruct (scanPrefix_objects M lines i (Nat.lt_le_incl _ _ Hn) st0 H0)
        as [_ Hpend].
      destruct (Hpend p Hp) as [[j [k [Hop Hj]]] _].
      rewrite Ho, Hop. intros E. inversion E. lia.
    + rewrite (noKeyAfter_nth i n l Hno ltac:(lia) Hl) in Hkey. discriminate.
  - destruct Ht as [[Ho _] Hwhy]. rewrite Ho. intros E. inversion E; subst.
    assert (l = line) by congruence. subst l.
    rewrite (tagPathless_not_explicit M kind line Hless) in Hwhy.
    rewrite (noKeyAfter_next i Hno) in Hwhy.
    destruct Hwhy as [Hx|[_ Hx]]; discriminate.
Qed.

End Unresolved.

(** C5: if a parameter, skip or extra tag without a path is scanned on
    line [i] and no structural line occurs after it, then the scan ends
    without an error and the object the tag made is nowhere in the
    returned metadata, neither in its parameters nor in those of any
    section; and the single line "## @param image.tag Image tag" yields a
    metadata with no parameter.  The scan can only end early on a
    modifier expression that throws; [linesScannable] says none does,
    and [literal_linesScannable] that none ever does for a configuration
    of literal strings. *)
Theorem unresolved_pending_dropped :
  (forall M data i line kind,
      linesScannable M (splitLines data) = true ->
      nth_error (splitLines data) i = Some line ->
      tagPathless M kind line = true ->
      noKeyAfter i (splitLines data) = true ->
      exists md,
        parseMetadataComments M data = Some md /\
        absentFrom (FromTag i kind) md) /\
  parseMetadataComments (literalMatchers defaultConfig) imageTagText
  = Some (mkMetadata [] []).
Proof.
  split; [|vm_compute; reflexivity].
  intros M data i line kind Hscan Hline Hless Hno.
  unfold parseMetadataComments.
  destruct (scanPrefix_total M (splitLines data) Hscan
              (List.length (splitLines data))) as [st Hst].
  rewrite Hst. simpl. eexists. split; [reflexivity|].
  apply mdParams_absent.
  eapply unresolved_absent; try eassumption.
  - apply nth_error_Some. congruence.
  - apply Nat.le_refl.
Qed.

(** A skip tag without a path at the end of a file is dropped. *)
Lemma unresolved_pending_dropped_witness :
  linesScannable (literalMatchers defaultConfig) (splitLines trailingSkipText) = true /\
  nth_error (splitLines trailingSkipText) 1 = Some "## @skip" /\
  tagPathless (literalMatchers defaultConfig) TagSkip "## @skip" = true /\
  noKeyAfter 1 (splitLines trailingSkipText) = true /\
  exists md,
    parseMetadataComments (literalMatchers defaultConfig) trailingSkipText = Some md /\
    absentFrom (FromTag 1 TagSkip) md.
Proof.
  repeat (split; [vm_compute; reflexivity|]).
  apply (proj1 unresolved_pending_dropped (literalMatchers defaultConfig)
           trailingSkipText 1 "## @skip" TagSkip);
    vm_compute; reflexivity.
Defined.

(* ================================================================== *)
(** ** The pending slot holds one object *)
(* ================================================================== *)

Section Overwritten.

Variable M : Matchers.
Variable lines : list string.

(** The pending object is in no list of the metadata. *)
Lemma pending_not_attached n :
  n <= List.length lines ->
  forall st, scanPrefix M lines n = Some st ->
  forall p, pendingParam st = Some p ->
  forall q, In q (mdParams st) -> oid q <> oid p.
Proof.
  induction n as [|n IH]; intros Hn st H p Hp q Hq.
  - simpl in H. inversion H; subst. discriminate.
  - destruct (scanPrefix_succ M lines n st Hn H) as [st0 [l [H0 [Hl Hs]]]].
    destruct (scanPrefix_objects M lines n (Nat.lt_le_incl _ _ Hn) st0 H0)
      as [Hm Hpend].
    destruct (scanLine_pending M _ _ _ _ _ Hs p Hp)
      as [[Hold [Hkey Hnone]]|[kind [[Hop _] [Hless Hnext]]]];
      destruct (scanLine_params M _ _ _ _ _ Hs q Hq) as [Hq0|[Hy|[kind' Ht]]].
    + apply (IH (Nat.lt_le_incl _ _ Hn) st0 H0 p Hold q Hq0).
    + destruct Hy as [Hy _]. congruence.
    + destruct Ht as [[Ho _] _]. destruct (Hpend p Hold) as [[j [k [Hj Hlt]]] _].
      rewrite Ho, Hj. intros E. inversion E. lia.
    + destruct (Hm q Hq0) as [[j [k [Hj Hlt]]] _].
      rewrite Hop, Hj. intros E. inversion E. lia.
    + destruct Hy as [_ [p0 [Hp0 [Ho _]]]].
      destruct (Hpend p0 Hp0) as [[j [k [Hj Hlt]]] _].
      rewrite Hop, Ho, Hj. intros E. inversion E. lia.
    + destruct Ht as [[Ho _] Hwhy]. rewrite Hop, Ho. intros E. inversion E; subst.
      rewrite (tagPathless_not_explicit M kind l Hless), Hnext in Hwhy.
      destruct Hwhy as [Hx|[_ Hx]]; discriminate.
Qed.

(** An object made before line [n0] that is neither in the metadata nor
    pending after [n0] lines stays out of both. *)
Lemma absent_forever i0 k0 n0 st0 :
  i0 < n0 ->
  scanPrefix M lines n0 = Some st0 ->
  (forall q, In q (mdParams st0) -> oid q <> FromTag i0 k0) ->
  (forall q, pendingParam st0 = Some q -> oid q <> FromTag i0 k0) ->
  forall n, n0 <= n -> n <= List.length lines ->
  forall st, scanPrefix M lines n = Some st ->
    (forall q, In q (mdParams st) -> oid q <> FromTag i0 k0) /\
    (forall q, pendingParam st = Some q -> oid q <> FromTag i0 k0).
Proof.
  intros Hi H0 Hm0 Hp0. induction n as [|n IH]; intros Hge Hn st H.
  - assert (n0 = 0) by lia. subst n0. lia.
  - destruct (Nat.eq_dec n0 (S n)) as [->|Hne].
    { rewrite H0 in H. inversion H; subst. auto. }
    destruct (scanPrefix_succ M lines n st Hn H) as [st1 [l [H1 [Hl Hs]]]].
    destruct (IH ltac:(lia) ltac:(lia) st1 H1) as [IHm IHp].
    assert (Hfresh : forall kind q, freshOf n kind q -> oid q <> FromTag i0 k0).
    { intros kind q [Ho _]. rewrite Ho. intros E. inversion E. lia. }
    split.
    + intros q Hq.
      destruct (scanLine_params M _ _ _ _ _ Hs q Hq) as [Hq0|[Hy|[kind' Ht]]].
      * auto.
      * destruct Hy as [_ [p [Hp [Ho _]]]]. rewrite Ho. auto.
      * destruct Ht as [Hf _]. eapply Hfresh; eassumption.
    + intros q Hq.
      destruct (scanLine_pending M _ _ _ _ _ Hs q Hq)
        as [[Hold _]|[kind [Hf _]]].
      * auto.
      * eapply Hfresh; eassumption.
Qed.

End Overwritten.

(* ================================================================== *)
(** ** The flattener: the loop over the flattened paths *)
(* ================================================================== *)

Section FlattenLoop.

Variable L : Lib.
Variable valuesJSON : jsval.

Lemma hasName_true n acc : hasName n acc = true <-> In n (map name acc).
Proof.
  unfold hasName. rewrite existsb_exists. split.
  - intros [p [Hp E]]. apply String.eqb_eq in E. subst n. apply in_map. exact Hp.
  - intros H. apply in_map_iff in H. destruct H as [p [E Hp]].
    exists p. split; [exact Hp|]. apply String.eqb_eq. exact E.
Qed.

Lemma hasName_false n acc : hasName n acc = false <-> ~ In n (map name acc).
Proof.
  rewrite <- hasName_true. destruct (hasName n acc); split; congruence.
Qed.


Lemma flattenLoop_nodup keys :
  forall i acc out,
    NoDup (map name acc) ->
    flattenLoop L valuesJSON keys i acc = Some out ->
    NoDup (map name out).
Proof.
  induction keys as [|k keys IH]; simpl; intros i acc out Hnd H.
  - inversion H; subst. exact Hnd.
  - destruct (flattenEntry L valuesJSON k) as [e|]; [|discriminate].
    apply IH in H; [exact H|].
    destruct (hasName (entryPath e) acc) eqn:E; [exact Hnd|].
    rewrite map_app. simpl.
    apply hasName_false in E.
    apply NoDup_app; [exact Hnd | repeat constructor; auto | ].
    intros x Hx [Hy|[]]. subst x. auto.
Qed.


(** Every emitted parameter is the parameter of the entry of some path. *)
Lemma flattenLoop_sound keys :
  forall i acc out,
    flattenLoop L valuesJSON keys i acc = Some out ->
    forall p, In p out ->
      In p acc \/
      exists k e j, In k keys /\ flattenEntry L valuesJSON k = Some e /\
                    p = entryParameter j e.
Proof.
  induction keys as [|k keys IH]; simpl; intros i acc out H p Hp.
  - inversion H; subst. auto.
  - destruct (flattenEntry L valuesJSON k) as [e|] eqn:E; [|discriminate].
    destruct (IH _ _ _ H p Hp) as [Hacc|[k' [e' [j [Hk [He Heq]]]]]].
    + destruct (hasName (entryPath e) acc); [auto|].
      apply in_app_or in Hacc. destruct Hacc as [Hacc|[Hacc|[]]]; [auto|].
      right. exists k, e, i. auto.
    + right. exists k', e', j. auto.
Qed.

(** Every path has an entry, and a parameter named after it is emitted. *)
Lemma flattenLoop_complete keys :
  forall i acc out,
    flattenLoop L valuesJSON keys i acc = Some out ->
    (forall p, In p acc -> In p out) /\
    (forall k, In k keys ->
       exists e, flattenEntry L valuesJSON k = Some e /\
                 exists p, In p out /\ name p = entryPath e).
Proof.
  induction keys as [|k keys IH]; simpl; intros i acc out H.
  - inversion H; subst. split; [auto | intros k []].
  - destruct (flattenEntry L valuesJSON k) as [e|] eqn:E; [|discriminate].
    destruct (IH _ _ _ H) as [Hacc Hkeys].
    split.
    + intros p Hp. apply Hacc.
      destruct (hasName (entryPath e) acc); [exact Hp|].
      apply in_or_app. auto.
    + intros k' [->|Hk']; [|auto].
      rewrite E. exists e. split; [reflexivity|].
      destruct (hasName (entryPath e) acc) eqn:Hn.
      * apply hasName_true in Hn. apply in_map_iff in Hn.
        destruct Hn as [p [Hname Hp]]. exists p. auto.
      * exists (entryParameter i e). split; [|reflexivity].
        apply Hacc. apply in_or_app. right. left. reflexivity.
Qed.

Lemma flattenLoop_total keys :
  (forall k, In k keys -> flattenEntry L valuesJSON k <> None) ->
  forall i acc, exists out, flattenLoop L valuesJSON keys i acc = Some out.
Proof.
  induction keys as [|k keys IH]; simpl; intros Hall i acc; [eauto|].
  destruct (flattenEntry L valuesJSON k) as [e|] eqn:E.
  - apply IH. auto.
  - exfalso. apply (Hall k); auto.
Qed.

Lemma NoDup_name_unique (out : list ParameterObj) p q :
  NoDup (map name out) -> In p out -> In q out -> name p = name q -> p = q.
Proof.
  induction out as [|x out IH]; simpl; intros Hnd Hp Hq E; [contradiction|].
  inversion Hnd as [|? ? Hx Hnd']; subst.
  destruct Hp as [->|Hp]; destruct Hq as [->|Hq]; auto.
  - exfalso. apply Hx. rewrite E. apply in_map. exact Hq.
  - exfalso. apply Hx. rewrite <- E. apply in_map. exact Hp.
Qed.

(** When [createValuesObject] returns, [dot.dot] returned and the loop
    ran over its keys. *)
Lemma createValuesObject_flatKeys out :
  createValuesObject L valuesJSON = Some out ->
  flattenLoop L valuesJSON (flatKeys L valuesJSON) 0 [] = Some out.
Proof.
  unfold createValuesObject, flatKeys.
  destruct (dotDot L valuesJSON); [auto | discriminate].
Qed.

End FlattenLoop.

(* ================================================================== *)
(** ** What each pass assigns, and the names of a pass *)
(* ================================================================== *)





(** C6 (as amended): the list [createValuesObject] returns has no two
    parameters of the same name, for every tree and whatever the
    collaborators return.  ([parseMetadataComments] has no such check.) *)
Theorem createValuesObject_names_unique :
  forall L valuesJSON out,
    createValuesObject L valuesJSON = Some out ->
    NoDup (map name out).
Proof.
  intros L valuesJSON out H. apply createValuesObject_flatKeys in H.
  eapply flattenLoop_nodup; [|exact H]. constructor.
Qed.

(** The names of the flattened sample tree. *)
Lemma createValuesObject_names_unique_witness :
  exists out,
    createValuesObject Ref.lib sampleTree = Some out /\
    map name out = ["hosts"; "ports[0]"; "ports[1]"; "nodeSelector"] /\
    NoDup (map name out).
Proof.
  eexists. split; [vm_compute; reflexivity|].
  split; [reflexivity|].
  apply (createValuesObject_names_unique Ref.lib sampleTree).
  vm_compute. reflexivity.
Defined.

(** C6 (counterexample): two parameter tags with the same explicit path
    give two parameters of the same name in [Metadata.parameters]. *)
Lemma scanner_duplicate_names_counterexample :
  exists md,
    parseMetadataComments (literalMatchers defaultConfig) duplicateText = Some md /\
    map name (parameters md) = ["image.tag"; "image.tag"] /\
    ~ NoDup (map name (parameters md)).
Proof.
  eexists. split; [vm_compute; reflexivity|].
  split; [reflexivity|].
  simpl. intros H. inversion H as [|? ? Hin _]; subst.
  apply Hin. left. reflexivity.
Qed.

(* ================================================================== *)
(** ** The flattener: one entry *)
(* ================================================================== *)

Section FlattenEntry.

Variable L : Lib.
Variable valuesJSON : jsval.

(** An entry either keeps its path, with the value found for it, or is
    replaced by the array it lies in. *)
Lemma flattenEntry_cases k e :
  flattenEntry L valuesJSON k = Some e ->
  exists v r,
    lookupValue L valuesJSON k = Some (v, r) /\
    entrySchema e = r /\
    ((collapses L valuesJSON k = false /\
      entryPath e = k /\
      entryValue e = nilOf v /\
      entryType e = typeAfter v) \/
     (collapses L valuesJSON k = true /\
      insideArray k = true /\
      exists prefix elems,
        getArrayPrefix L k = Some prefix /\
        arrayAt L valuesJSON prefix = Some (Some (JArr elems)) /\
        forallb isString elems = true /\
        entryPath e = prefix /\
        entryValue e = Some (JArr elems) /\
        entryType e = "array")).
Proof.
  unfold flattenEntry, plainArrayStep, collapses, prefixArray, nilOf, typeAfter.
  destruct (lookupValue L valuesJSON k) as [[v r]|]; [|discriminate].
  intros H. exists v, r. split; [reflexivity|]. revert H.
  destruct (insideArray k); simpl andb.
  - destruct (getArrayPrefix L k) as [prefix|]; [|discriminate].
    destruct (arrayAt L valuesJSON prefix) as [[[| | | |elems|]|]|] eqn:Ea;
      try discriminate.
    destruct (forallb isString elems) eqn:Es;
      intros H; inversion H; subst; simpl.
    + split; [reflexivity|]. right.
      split; [reflexivity|]. split; [reflexivity|].
      exists prefix, elems. repeat split; auto.
    + split; [reflexivity|]. left. repeat split; reflexivity.
  - intros H. inversion H; subst. simpl.
    split; [reflexivity|]. left. repeat split; reflexivity.
Qed.

Lemma collaboratorsReturn_inv :
  collaboratorsReturn L valuesJSON = true ->
  (exists props, dotDot L valuesJSON = Some props) /\
  forall k, In k (flatKeys L valuesJSON) ->
    (exists v r, lookupValue L valuesJSON k = Some (v, r)) /\
    (insideArray k = true ->
     exists prefix a,
       getArrayPrefix L k = Some prefix /\
       arrayAt L valuesJSON prefix = Some a).
Proof.
  unfold collaboratorsReturn. intros H.
  apply andb_true_iff in H. destruct H as [Hd Hk]. split.
  - destruct (dotDot L valuesJSON) as [props|]; [eauto | discriminate].
  - intros k Hin. rewrite forallb_forall in Hk. specialize (Hk k Hin).
    apply andb_true_iff in Hk. destruct Hk as [Hl Hp]. split.
    + destruct (lookupValue L valuesJSON k) as [[v r]|]; [eauto | discriminate].
    + intros Hi. rewrite Hi in Hp. simpl in Hp. unfold prefixArray in Hp.
      destruct (getArrayPrefix L k) as [prefix|]; [|discriminate].
      destruct (arrayAt L valuesJSON prefix) as [a|] eqn:Ea; [|discriminate].
      exists prefix, a. split; [reflexivity | exact Ea].
Qed.

Lemma flattenEntry_total k :
  collaboratorsReturn L valuesJSON = true ->
  arraysResolve L valuesJSON = true ->
  In k (flatKeys L valuesJSON) ->
  flattenEntry L valuesJSON k <> None.
Proof.
  intros Hret Hres Hk.
  destruct (collaboratorsReturn_inv Hret) as [_ Hcalls].
  destruct (Hcalls k Hk) as [[v [r Hv]] Hpre].
  unfold arraysResolve in Hres. rewrite forallb_forall in Hres.
  specialize (Hres k Hk).
  unfold flattenEntry, plainArrayStep. rewrite Hv.
  destruct (insideArray k); [|discriminate].
  destruct (Hpre eq_refl) as [prefix [a [Hp Ha]]].
  unfold prefixArray in Hres. rewrite Hp, Ha in Hres. rewrite Hp, Ha.
  simpl in Hres.
  destruct a as [[| | | |elems|]|]; try discriminate.
  destruct (forallb isString elems); discriminate.
Qed.

(** [createValuesObject] returns when its collaborators do and every
    look-up of line 319 finds an array. *)
Lemma createValuesObject_total :
  collaboratorsReturn L valuesJSON = true ->
  arraysResolve L valuesJSON = true ->
  exists out, createValuesObject L valuesJSON = Some out.
Proof.
  intros Hret Hres.
  assert (H : exists out,
             flattenLoop L valuesJSON (flatKeys L valuesJSON) 0 [] = Some out).
  { apply flattenLoop_total. intros k Hk. apply flattenEntry_total; assumption. }
  destruct (collaboratorsReturn_inv Hret) as [[props Hd] _].
  unfold createValuesObject. unfold flatKeys in H. rewrite Hd in *. exact H.
Qed.

Lemma prefixOfSome_false p k :
  prefixOfSome L valuesJSON p = false ->
  In k (flatKeys L valuesJSON) -> insideArray k = true ->
  getArrayPrefix L k <> Some p.
Proof.
  unfold prefixOfSome. intros H Hk Hin E.
  assert (X : existsb (fun k => insideArray k
                                && match getArrayPrefix L k with
                                   | Some q => String.eqb q p
                                   | None => false
                                   end)
                      (flatKeys L valuesJSON) = true).
  { apply existsb_exists. exists k. split; [assumption|].
    rewrite Hin, E. simpl. apply String.eqb_refl. }
  congruence.
Qed.

(** The parameter of a path that is not replaced, and that is not the
    prefix of an array of another path. *)
Lemma kept_parameter k out v r :
  createValuesObject L valuesJSON = Some out ->
  In k (flatKeys L valuesJSON) ->
  lookupValue L valuesJSON k = Some (v, r) ->
  collapses L valuesJSON k = false ->
  prefixOfSome L valuesJSON k = false ->
  exists p,
    In p out /\ name p = k /\
    pvalue p = nilOf v /\
    type p = Some (typeAfter v) /\
    forall p', In p' out -> name p' = k -> p' = p.
Proof.
  intros Hout Hk Hlook Hcol Hpre.
  apply createValuesObject_flatKeys in Hout.
  pose proof (flattenLoop_nodup L valuesJSON _ 0 [] out (NoDup_nil _) Hout) as Hnd.
  destruct (flattenLoop_complete L valuesJSON _ _ _ _ Hout) as [_ Hc].
  destruct (Hc k Hk) as [e [He [p [Hp Hname]]]].
  destruct (flattenEntry_cases k e He)
    as [v0 [r0 [_ [_ [[_ [Hpath _]]|[Hx _]]]]]]; [|congruence].
  rewrite Hpath in Hname.
  exists p. split; [assumption|]. split; [assumption|].
  assert (Hval : pvalue p = nilOf v /\ type p = Some (typeAfter v)).
  { destruct (flattenLoop_sound L valuesJSON _ _ _ _ Hout p Hp)
      as [[]|[k' [e' [j [Hk' [He' Heq]]]]]].
    subst p. simpl in Hname.
    destruct (flattenEntry_cases k' e' He')
      as [v' [r' [Hl' [_ [[_ [Hpath' [Hv' Ht']]]
                         |[_ [Hin' [prefix [elems [Hp' [_ [_ [Hpath' _]]]]]]]]]]]]].
    - assert (E11 : k' = k) by congruence. rewrite E11 in *. clear E11.
      assert (E12 : v' = v) by congruence. rewrite E12 in *. clear E12.
      simpl. rewrite Hv', Ht'. auto.
    - exfalso. apply (prefixOfSome_false k k' Hpre Hk' Hin'). congruence. }
  destruct Hval as [Hv Ht].
  split; [assumption|]. split; [assumption|].
  intros p' Hp' Hname'. eapply NoDup_name_unique; eauto. congruence.
Qed.




End FlattenEntry.

(* ================================================================== *)
(** ** Arrays and nulls in the flattened list *)
(* ================================================================== *)




(** C4 (as amended): for every flattened path whose look-up (line 299,
    or the fallback of line 307) yields null, and that is neither replaced
    by an array of strings nor the array prefix of a flattened path,
    [createValuesObject] emits exactly one parameter of that name; its
    value is the string "nil" and its type is "object", the [typeof] of
    the null taken before the value is replaced.  Under the same
    conditions a path whose look-up finds nothing is emitted with no
    value and the type "undefined", whatever the tree holds there: a null
    leaf the look-ups miss is not rendered as "nil".  The list is returned
    when the collaborators return and every look-up of line 319 finds an
    array. *)
Theorem null_flattens_to_nil :
  (forall L valuesJSON k r,
      collaboratorsReturn L valuesJSON = true ->
      arraysResolve L valuesJSON = true ->
      In k (flatKeys L valuesJSON) ->
      lookupValue L valuesJSON k = Some (Some JNull, r) ->
      collapses L valuesJSON k = false ->
      prefixOfSome L valuesJSON k = false ->
      exists out,
        createValuesObject L valuesJSON = Some out /\
        exists p,
          In p out /\ name p = k /\
          pvalue p = Some (JStr "nil") /\ type p = Some "object" /\
          forall p', In p' out -> name p' = k -> p' = p) /\
  (forall L valuesJSON k r,
      collaboratorsReturn L valuesJSON = true ->
      arraysResolve L valuesJSON = true ->
      In k (flatKeys L valuesJSON) ->
      lookupValue L valuesJSON k = Some (None, r) ->
      collapses L valuesJSON k = false ->
      prefixOfSome L valuesJSON k = false ->
      exists out,
        createValuesObject L valuesJSON = Some out /\
        exists p,
          In p out /\ name p = k /\
          pvalue p = None /\ type p = Some "undefined" /\
          forall p', In p' out -> name p' = k -> p' = p).
Proof.
  split; intros L t k r Hret Hres Hk Hlook Hcol Hpre;
    destruct (createValuesObject_total L t Hret Hres) as [out Hout];
    exists out; (split; [assumption|]);
    destruct (kept_parameter L t k out _ _ Hout Hk Hlook Hcol Hpre)
      as [p [Hp [Hn [Hv [Ht Hu]]]]];
    exists p; auto.
Qed.

(** The null of the sample tree, found by the direct look-up; and the
    null under a key that holds a dot, which collaborators whose fallback
    finds no path do not find. *)
Lemma null_flattens_to_nil_witness :
  (exists out,
      createValuesObject Ref.lib sampleTree = Some out /\
      exists p,
        In p out /\ name p = "nodeSelector" /\
        pvalue p = Some (JStr "nil") /\ type p = Some "object" /\
        forall p', In p' out -> name p' = "nodeSelector" -> p' = p) /\
  (flatKeys blindLib dottedNullTree = ["pod.example.com/zone"] /\
   exists out,
      createValuesObject blindLib dottedNullTree = Some out /\
      exists p,
        In p out /\ name p = "pod.example.com/zone" /\
        pvalue p = None /\ type p = Some "undefined" /\
        forall p', In p' out -> name p' = "pod.example.com/zone" -> p' = p).
Proof.
  split.
  - apply (proj1 null_flattens_to_nil Ref.lib sampleTree "nodeSelector" true).
    + vm_compute. reflexivity.
    + vm_compute. reflexivity.
    + vm_compute. repeat (first [left; reflexivity | right]).
    + vm_compute. reflexivity.
    + vm_compute. reflexivity.
    + vm_compute. reflexivity.
  - split; [vm_compute; reflexivity|].
    apply (proj2 null_flattens_to_nil blindLib dottedNullTree
             "pod.example.com/zone" false).
    + vm_compute. reflexivity.
    + vm_compute. reflexivity.
    + vm_compute. auto.
    + vm_compute. reflexivity.
    + vm_compute. reflexivity.
    + vm_compute. reflexivity.
Defined.

(** C4 (counterexample): the parameter of a null has the value "nil"
    and the type "object", not a type "nil". *)
Lemma null_type_counterexample :
  exists p,
    createValuesObject Ref.lib nullTree = Some [p] /\
    name p = "nodeSelector" /\
    pvalue p = Some (JStr "nil") /\
    type p = Some "object" /\
    type p <> Some "nil".
Proof.
  eexists. split; [vm_compute; reflexivity|].
  repeat split; simpl; congruence.
Qed.

(* ================================================================== *)
(** ** Description capture *)
(* ================================================================== *)

Section DescriptionCapture.

Variable M : Matchers.

Lemma map_updateAt_param p ref secs :
  map secDescription (updateAt ref (addParameterToSection p) secs)
  = map secDescription secs.
Proof.
  revert ref. induction secs as [|s secs IH]; intros [|ref]; simpl;
    try reflexivity.
  rewrite IH. reflexivity.
Qed.


Lemma attach_descState p st : descState (attach p st) = descState st.
Proof.
  unfold attach, descState, descriptions.
  repeat break_match; simpl; rewrite ?map_updateAt_param; congruence.
Qed.

Lemma lookAhead_descState next p st :
  descState (lookAhead next p st) = descState st.
Proof.
  unfold lookAhead. repeat break_match; try reflexivity.
  apply (attach_descState _ st).
Qed.

Lemma stepYaml_descState line st : descState (stepYaml line st) = descState st.
Proof.
  unfold stepYaml. repeat break_match; try reflexivity.
  match goal with
  | |- descState (setPendingParam None (attach ?q ?s)) = _ =>
      change (descState (attach q s) = descState st)
  end.
  rewrite attach_descState. reflexivity.
Qed.

Lemma stepParam_descState next i line st st' :
  stepParam M next i line st = Some st' -> descState st' = descState st.
Proof.
  unfold stepParam. intros H. repeat break_match; some_inv;
    auto using attach_descState, lookAhead_descState.
Qed.

Lemma stepExtra_descState next i line st st' :
  stepExtra M next i line st = Some st' -> descState st' = descState st.
Proof.
  unfold stepExtra. intros H. repeat break_match; some_inv;
    auto using attach_descState, lookAhead_descState.
Qed.

Lemma stepSkip_descState next i line st :
  descState (stepSkip M next i line st) = descState st.
Proof.
  unfold stepSkip. repeat break_match;
    auto using attach_descState, lookAhead_descState.
Qed.

(** The description state after a line is that of the four steps in the
    middle, run on the description state before it. *)
Lemma scanLine_descState next i line st st' :
  scanLine M next i line st = Some st' ->
  exists st2,
    descState st2 = descState st /\
    descState st' =
      descState (stepDescriptionStart M line
                   (stepDescriptionContent M line
                      (stepDescriptionEnd M line (stepSection M line st2)))).
Proof.
  unfold scanLine. intros H.
  destruct (stepParam M next i line (stepYaml line st)) as [st2|] eqn:E2;
    [|discriminate].
  exists st2. split.
  - rewrite (stepParam_descState _ _ _ _ _ E2). apply stepYaml_descState.
  - rewrite (stepExtra_descState _ _ _ _ _ H). apply stepSkip_descState.
Qed.




Lemma updateAt_length (A : Type) (f : A -> A) i (l : list A) :
  List.length (updateAt i f l) = List.length l.
Proof.
  revert i. induction l as [|a l IH]; intros [|i]; simpl; auto.
Qed.

Lemma sectionRefValid_descState st st' :
  descState st' = descState st -> sectionRefValid st -> sectionRefValid st'.
Proof.
  unfold descState, descriptions, sectionRefValid. intros E H ref Href.
  assert (El : List.length (sections (parsedValues st'))
               = List.length (sections (parsedValues st))).
  { rewrite <- (length_map secDescription (sections (parsedValues st'))),
            <- (length_map secDescription (sections (parsedValues st))).
    congruence. }
  rewrite El. apply H. congruence.
Qed.

Lemma addDescriptionLine_valid l st :
  sectionRefValid st -> sectionRefValid (addDescriptionLine l st).
Proof.
  unfold sectionRefValid, addDescriptionLine. intros H ref.
  destruct (currentSection st) as [r|] eqn:E; [|rewrite E; discriminate].
  simpl. rewrite E, updateAt_length. intros Href. apply H. exact Href.
Qed.

(** The reference [attach] and [addDescriptionLine] follow never
    dangles. *)
Lemma currentSection_valid lines n st :
  scanPrefix M lines n = Some st -> sectionRefValid st.
Proof.
  apply (scanPrefix_invariant M lines sectionRefValid).
  - intros ref H. discriminate.
  - intros next i line s s' Hs Hstep.
    destruct (scanLine_descState next i line s s' Hstep) as [st2 [E2 E']].
    apply (sectionRefValid_descState _ _ E').
    pose proof (sectionRefValid_descState _ _ E2 Hs) as H2.
    assert (H3 : sectionRefValid (stepSection M line st2)).
    { unfold stepSection. destruct (sectionRegex M line); [|exact H2].
      intros ref Href. simpl in *. inversion Href; subst.
      rewrite length_app. simpl. lia. }
    assert (H4 : sectionRefValid (stepDescriptionEnd M line (stepSection M line st2))).
    { unfold stepDescriptionEnd. break_match; [|exact H3]. exact H3. }
    assert (H5 : sectionRefValid
                   (stepDescriptionContent M line
                      (stepDescriptionEnd M line (stepSection M line st2)))).
    { unfold stepDescriptionContent. repeat break_match; try exact H4.
      apply addDescriptionLine_valid. exact H4. }
    unfold stepDescriptionStart. repeat break_match; try exact H5.
    apply (addDescriptionLine_valid _ (setDescriptionParsing true _)). exact H5.
Qed.

End DescriptionCapture.

(** [capturingState] is the state the scanner reaches on its two lines. *)
Example capturingState_reached :
  scanPrefix (literalMatchers defaultConfig)
             ["## @section A"; "## @descriptionStart"] 2 = Some capturingState.
Proof. vm_compute. reflexivity. Qed.



(* ================================================================== *)
(** ** Further properties: the lines of a file *)
(* ================================================================== *)

Section SplitLines.

Lemma splitLines_nonempty data : exists l ls, splitLines data = l :: ls.
Proof.
  induction data as [|a rest [l [ls IH]]]; simpl; [eauto|].
  destruct (Ascii.eqb a "010"); [eauto|].
  destruct (Ascii.eqb a "013" && JsString.startsWith rest (String "010" ""));
    [eauto|].
  rewrite IH. eauto.
Qed.

Lemma splitLines_length data :
  List.length (splitLines data) = S (countChar "010" data).
Proof.
  induction data as [|a rest IH]; simpl; [reflexivity|].
  destruct (Ascii.eqb a "010") eqn:E; simpl; [rewrite IH; reflexivity|].
  destruct (Ascii.eqb a "013" && JsString.startsWith rest (String "010" ""));
    [exact IH|].
  destruct (splitLines rest) as [|l ls]; simpl in *; [discriminate | exact IH].
Qed.

Lemma splitLines_no_LF data :
  Forall (fun l => hasChar "010" l = false) (splitLines data).
Proof.
  induction data as [|a rest IH]; simpl.
  - repeat constructor.
  - destruct (Ascii.eqb a "010") eqn:E; [constructor; [reflexivity | exact IH]|].
    destruct (Ascii.eqb a "013" && JsString.startsWith rest (String "010" ""));
      [exact IH|].
    destruct (splitLines rest) as [|l ls].
    + repeat constructor. simpl. rewrite E. reflexivity.
    + inversion IH; subst. constructor; [|assumption].
      simpl. rewrite E. assumption.
Qed.

Lemma join_cons sep l l' ls :
  JsString.join sep (l :: l' :: ls)
  = (l ++ sep ++ JsString.join sep (l' :: ls))%string.
Proof. reflexivity. Qed.

Lemma splitLines_join data :
  hasCRLF data = false -> JsString.join LF (splitLines data) = data.
Proof.
  induction data as [|a rest IH]; simpl; intros H; [reflexivity|].
  apply orb_false_iff in H. destruct H as [Hhere Hrest].
  specialize (IH Hrest).
  destruct (splitLines_nonempty rest) as [l [ls E]].
  destruct (Ascii.eqb a "010") eqn:Ea.
  - apply Ascii.eqb_eq in Ea. subst a. rewrite E in *.
    rewrite join_cons. rewrite IH. reflexivity.
  - unfold LF in Hhere. rewrite Hhere. rewrite E in *.
    destruct ls as [|l' ls].
    + simpl in *. congruence.
    + rewrite join_cons. rewrite join_cons in IH.
      change ((String a l ++ LF ++ JsString.join LF (l' :: ls))%string)
        with (String a (l ++ LF ++ JsString.join LF (l' :: ls))%string).
      rewrite IH. reflexivity.
Qed.

End SplitLines.

(** X1: the file is cut at its line feeds.  It always has at least one
    line, one more than it has line feeds (the empty file is one empty
    line), and no line holds a line feed. *)
Theorem splitLines_cuts_at_line_feeds :
  forall data,
    List.length (splitLines data) = S (countChar "010" data) /\
    Forall (fun l => hasChar "010" l = false) (splitLines data).
Proof.
  intros data. split; [apply splitLines_length | apply splitLines_no_LF].
Qed.

(** X2: joining the lines with line feeds gives the file back, when no
    carriage return stands before a line feed (that carriage return is
    the one character the split drops). *)
Theorem splitLines_round_trip :
  forall data,
    hasCRLF data = false -> JsString.join LF (splitLines data) = data.
Proof. exact splitLines_join. Qed.

Lemma splitLines_round_trip_witness :
  hasCRLF replicaCountText = false /\
  JsString.join LF (splitLines replicaCountText) = replicaCountText.
Proof.
  split; [reflexivity|].
  apply (splitLines_round_trip replicaCountText). reflexivity.
Defined.

(* ================================================================== *)
(** ** Further properties: updatePathStack and buildCurrentPath *)
(* ================================================================== *)

Section PathStackAlgebra.

Lemma string_app_assoc (a b c : string) :
  ((a ++ b) ++ c = a ++ (b ++ c))%string.
Proof. induction a as [|x a IH]; simpl; [reflexivity|]. rewrite IH. reflexivity. Qed.

Lemma join_snoc sep (ps : list string) k :
  ps <> [] ->
  JsString.join sep (ps ++ [k]) = (JsString.join sep ps ++ sep ++ k)%string.
Proof.
  induction ps as [|p ps IH]; intros H; [congruence|].
  destruct ps as [|p' ps]; [reflexivity|].
  change ((p :: p' :: ps) ++ [k]) with (p :: (p' :: ps) ++ [k]).
  change ((p' :: ps) ++ [k]) with (p' :: ps ++ [k]) at 1.
  rewrite join_cons.
  change (p' :: ps ++ [k]) with ((p' :: ps) ++ [k]).
  rewrite IH by discriminate.
  rewrite join_cons. rewrite !string_app_assoc. reflexivity.
Qed.

Lemma buildCurrentPath_snoc (ps : list string) k :
  ps <> [] ->
  buildCurrentPath (ps ++ [k]) = (buildCurrentPath ps ++ "." ++ k)%string.
Proof.
  intros H. unfold buildCurrentPath.
  rewrite length_app. simpl.
  replace (0 <? List.length ps + 1) with true
    by (symmetry; apply Nat.ltb_lt; lia).
  destruct ps as [|p ps]; [congruence|]. simpl Nat.ltb.
  apply join_snoc. discriminate.
Qed.

Lemma filter_filter (f : nat -> bool) l : filter f (filter f l) = filter f l.
Proof.
  induction l as [|a l IH]; simpl; [reflexivity|].
  destruct (f a) eqn:E; simpl; [rewrite E, IH|]; auto.
Qed.

Lemma updatePathStack_deeper ps ins cur k :
  stacksInvariant ps ins ->
  Forall (fun x => x < cur) ins ->
  updatePathStack ps ins cur k = (ps ++ [k], ins ++ [cur]).
Proof.
  intros Hinv Hall. rewrite (updatePathStack_spec ps ins cur k Hinv).
  destruct Hinv as [Hlen _].
  rewrite (filter_all (shallower cur) ins).
  - rewrite <- Hlen, firstn_all. reflexivity.
  - eapply Forall_impl; [|exact Hall]. intros x Hx. apply Nat.ltb_lt. exact Hx.
Qed.

Lemma updatePathStack_sibling ps ins cur k1 k2 :
  stacksInvariant ps ins ->
  updatePathStack (fst (updatePathStack ps ins cur k1))
                  (snd (updatePathStack ps ins cur k1)) cur k2
  = updatePathStack ps ins cur k2.
Proof.
  intros Hinv.
  pose proof (updatePathStack_keeps ps ins cur k1 Hinv) as Hinv1.
  rewrite (updatePathStack_spec _ _ cur k2 Hinv1).
  rewrite (updatePathStack_spec ps ins cur k1 Hinv).
  rewrite (updatePathStack_spec ps ins cur k2 Hinv).
  simpl fst. simpl snd.
  destruct Hinv as [Hlen _].
  set (kept := filter (shallower cur) ins).
  assert (Hk : List.length kept <= List.length ps).
  { unfold kept. pose proof (filter_length_le (shallower cur) ins). lia. }
  assert (Hf : filter (shallower cur) (kept ++ [cur]) = kept).
  { rewrite filter_app. unfold kept at 1. rewrite filter_filter. simpl.
    unfold shallower at 2. rewrite Nat.ltb_irrefl. apply app_nil_r. }
  rewrite Hf. f_equal. f_equal.
  rewrite firstn_app, length_firstn, Nat.min_l by exact Hk.
  rewrite Nat.sub_diag. simpl. rewrite app_nil_r.
  rewrite firstn_firstn, Nat.min_id. reflexivity.
Qed.

Lemma updatePathStack_top ps ins k :
  stacksInvariant ps ins -> updatePathStack ps ins 0 k = ([k], [0]).
Proof.
  intros Hinv. rewrite (updatePathStack_spec ps ins 0 k Hinv).
  assert (E : filter (shallower 0) ins = []).
  { clear. induction ins as [|a l IH]; simpl; [reflexivity | exact IH]. }
  rewrite E. reflexivity.
Qed.

End PathStackAlgebra.

(** X3: a key indented deeper than every entry of the stack is nested
    under the current path: nothing is popped, the key is pushed, and
    (when there is a current path) the new path is the current path, a
    dot and the key. *)
Theorem updatePathStack_nests_deeper_key :
  forall pathStack indentStack currentIndent key,
    stacksInvariant pathStack indentStack ->
    Forall (fun x => x < currentIndent) indentStack ->
    updatePathStack pathStack indentStack currentIndent key
      = (pathStack ++ [key], indentStack ++ [currentIndent]) /\
    (pathStack <> [] ->
     buildCurrentPath (pathStack ++ [key])
       = (buildCurrentPath pathStack ++ "." ++ key)%string).
Proof.
  intros ps ins cur k Hinv Hall. split.
  - apply updatePathStack_deeper; assumption.
  - apply buildCurrentPath_snoc.
Qed.

Lemma updatePathStack_nests_deeper_key_witness :
  stacksInvariant ["image"] [0] /\
  Forall (fun x => x < 2) [0] /\
  updatePathStack ["image"] [0] 2 "tag" = (["image"; "tag"], [0; 2]) /\
  (["image"] <> [] -> buildCurrentPath (["image"] ++ ["tag"]) = "image.tag").
Proof.
  assert (Hinv : stacksInvariant ["image"] [0]).
  { split; [reflexivity|]. unfold ascending. repeat constructor. }
  assert (Hall : Forall (fun x => x < 2) [0]) by (repeat constructor).
  split; [exact Hinv|]. split; [exact Hall|].
  exact (updatePathStack_nests_deeper_key ["image"] [0] 2 "tag" Hinv Hall).
Defined.

(** X4: a key replaces the key that was pushed before it at the same
    indent: pushing [key1] and then [key2] at one indent leaves the stacks
    that pushing [key2] alone leaves. *)
Theorem updatePathStack_replaces_sibling :
  forall pathStack indentStack currentIndent key1 key2,
    stacksInvariant pathStack indentStack ->
    updatePathStack
      (fst (updatePathStack pathStack indentStack currentIndent key1))
      (snd (updatePathStack pathStack indentStack currentIndent key1))
      currentIndent key2
    = updatePathStack pathStack indentStack currentIndent key2.
Proof. exact updatePathStack_sibling. Qed.

Lemma updatePathStack_replaces_sibling_witness :
  stacksInvariant ["image"; "tag"] [0; 2] /\
  updatePathStack
    (fst (updatePathStack ["image"; "tag"] [0; 2] 2 "pullPolicy"))
    (snd (updatePathStack ["image"; "tag"] [0; 2] 2 "pullPolicy"))
    2 "digest"
  = updatePathStack ["image"; "tag"] [0; 2] 2 "digest".
Proof.
  assert (Hinv : stacksInvariant ["image"; "tag"] [0; 2]).
  { split; [reflexivity|]. unfold ascending. repeat constructor. }
  split; [exact Hinv|].
  exact (updatePathStack_replaces_sibling ["image"; "tag"] [0; 2] 2
           "pullPolicy" "digest" Hinv).
Defined.

(** X5: a key at indent 0 empties both stacks before it is pushed: the
    path of a top-level key is the key alone, whatever came before. *)
Theorem updatePathStack_top_level_resets :
  forall pathStack indentStack key,
    stacksInvariant pathStack indentStack ->
    updatePathStack pathStack indentStack 0 key = ([key], [0]) /\
    buildCurrentPath (fst (updatePathStack pathStack indentStack 0 key)) = key.
Proof.
  intros ps ins k Hinv. rewrite (updatePathStack_top ps ins k Hinv).
  split; reflexivity.
Qed.

Lemma updatePathStack_top_level_resets_witness :
  stacksInvariant ["image"; "tag"] [0; 2] /\
  updatePathStack ["image"; "tag"] [0; 2] 0 "service" = (["service"], [0]) /\
  buildCurrentPath (fst (updatePathStack ["image"; "tag"] [0; 2] 0 "service"))
    = "service".
Proof.
  assert (Hinv : stacksInvariant ["image"; "tag"] [0; 2]).
  { split; [reflexivity|]. unfold ascending. repeat constructor. }
  split; [exact Hinv|].
  exact (updatePathStack_top_level_resets ["image"; "tag"] [0; 2] "service" Hinv).
Defined.

(* ================================================================== *)
(** ** Further properties: path tracking ignores the tags *)
(* ================================================================== *)

Section TrackPaths.

Variable M : Matchers.
Variable lines : list string.

Lemma firstn_succ_nth (A : Type) (l : list A) n x :
  nth_error l n = Some x -> firstn (S n) l = firstn n l ++ [x].
Proof.
  revert n. induction l as [|a l IH]; intros [|n] H; simpl in *;
    try discriminate.
  - inversion H; subst. reflexivity.
  - rewrite (IH n H). reflexivity.
Qed.

Lemma scanLine_trackStep next i line st st' :
  scanLine M next i line st = Some st' ->
  stacksOf st' = trackStep (stacksOf st) line.
Proof.
  intros H. rewrite (scanLine_stacks M next i line st st' H).
  rewrite stepYaml_stacks. unfold trackStep, stacksOf. simpl.
  reflexivity.
Qed.

Lemma scanPrefix_trackPaths n :
  n <= List.length lines ->
  forall st, scanPrefix M lines n = Some st ->
             stacksOf st = trackPaths (firstn n lines).
Proof.
  induction n as [|n IH]; intros Hn st H.
  - simpl in H. inversion H; subst. reflexivity.
  - destruct (scanPrefix_succ M lines n st Hn H) as [st0 [line [H0 [Hl Hs]]]].
    rewrite (firstn_succ_nth _ lines n line Hl).
    unfold trackPaths. rewrite fold_left_app. simpl.
    fold (trackPaths (firstn n lines)).
    rewrite <- (IH (Nat.lt_le_incl _ _ Hn) st0 H0).
    eapply scanLine_trackStep. eassumption.
Qed.

End TrackPaths.

(** X6: path tracking does not depend on the tags.  After any prefix of
    the lines the two stacks of the scanner are the stacks that lines
    96-98 alone compute from the structural lines of the prefix, whatever
    the configured patterns match: comments, tags and look-aheads never
    change them. *)
Theorem path_tracking_ignores_tags :
  forall M lines n st,
    n <= List.length lines ->
    scanPrefix M lines n = Some st ->
    (pathStack st, indentStack st) = trackPaths (firstn n lines).
Proof.
  intros M lines n st Hn H.
  exact (scanPrefix_trackPaths M lines n Hn st H).
Qed.

Lemma path_tracking_ignores_tags_witness :
  exists st,
    scanPrefix (literalMatchers defaultConfig)
               ["image:"; "  ## @param Tag"; "  tag: 1"; "## @skip"] 3 = Some st /\
    (pathStack st, indentStack st) = (["image"; "tag"], [0; 2]) /\
    (pathStack st, indentStack st)
      = trackPaths (firstn 3 ["image:"; "  ## @param Tag"; "  tag: 1"; "## @skip"]).
Proof.
  eexists. split; [vm_compute; reflexivity|]. split; [reflexivity|].
  apply (path_tracking_ignores_tags (literalMatchers defaultConfig)
           ["image:"; "  ## @param Tag"; "  tag: 1"; "## @skip"] 3).
  - simpl. lia.
  - vm_compute. reflexivity.
Defined.

(* ================================================================== *)
(** ** Further properties: a scheme for invariants of the scanner *)
(* ================================================================== *)

Section StepInvariant.

Variable M : Matchers.
Variable line : string.
Variable P : ScanState -> Prop.
Variable Q : ParameterObj -> Prop.

Hypothesis Q_new : forall id n, Q (newParameter id n).
Hypothesis Q_description : forall d p, Q p -> Q (setDescription d p).
Hypothesis Q_modifiers :
  forall m p, Q p -> Q (setModifiers (modifierList m) p).
Hypothesis Q_skip : forall b p, Q p -> Q (setSkip b p).
Hypothesis Q_extra : forall b p, Q p -> Q (setExtra b p).
Hypothesis Q_value : forall v p, Q p -> Q (setValue v p).
Hypothesis Q_name : forall n p, Q p -> Q (setName n p).

Hypothesis P_pending : forall st p, P st -> pendingParam st = Some p -> Q p.
Hypothesis P_attach : forall p st, Q p -> P st -> P (attach p st).
Hypothesis P_pendingNone : forall st, P st -> P (setPendingParam None st).
Hypothesis P_pendingSome :
  forall p st, Q p -> P st -> P (setPendingParam (Some p) st).
Hypothesis P_stacks : forall u st, P st -> P (setStacks u st).
Hypothesis P_section :
  forall n st,
    sectionRegex M line = Some n -> P st ->
    P (setCurrentSection (Some (List.length (sections (parsedValues st))))
         (setParsedValues (addSection (newSection n) (parsedValues st)) st)).
Hypothesis P_descriptionLine :
  forall l st, descriptionParsing st = true -> P st -> P (addDescriptionLine l st).
Hypothesis P_parsingOff : forall st, P st -> P (setDescriptionParsing false st).
Hypothesis P_parsingOn :
  forall st, descriptionStartRegex M line <> None -> P st ->
             P (setDescriptionParsing true st).

Lemma lookAhead_keeps next p st : Q p -> P st -> P (lookAhead next p st).
Proof.
  intros Hq Hp. unfold lookAhead.
  destruct next as [nextLine|]; [|auto].
  destruct (isYamlKey (parseYamlLine nextLine)); auto.
Qed.

Lemma stepYaml_keeps st : P st -> P (stepYaml line st).
Proof.
  intros Hp. unfold stepYaml.
  destruct (isYamlKey (parseYamlLine line)); [|exact Hp].
  set (u := updatePathStack _ _ _ _).
  pose proof (P_stacks u st Hp) as H1.
  destruct (pendingParam (setStacks u st)) as [p|] eqn:E; [|exact H1].
  apply P_pendingNone. apply P_attach; [|exact H1].
  apply Q_name. eapply P_pending; eassumption.
Qed.

Lemma stepParam_keeps next i st st' :
  P st -> stepParam M next i line st = Some st' -> P st'.
Proof.
  intros Hp. unfold stepParam.
  destruct (paramRegex M line) as [m|]; [|intros H; some_inv; exact Hp].
  destruct (modifiersText (modifiersGroup m)) as [mods|]; [|discriminate].
  destruct (truthy (explicitPathGroup m)); intros H; some_inv;
    [apply P_attach | apply lookAhead_keeps]; auto.
Qed.

Lemma stepExtra_keeps next i st st' :
  P st -> stepExtra M next i line st = Some st' -> P st'.
Proof.
  intros Hp. unfold stepExtra.
  destruct (extraRegex M line) as [m|]; [|intros H; some_inv; exact Hp].
  destruct (modifiersText (modifiersGroup m)) as [mods|]; [|discriminate].
  destruct (truthy (explicitPathGroup m)); intros H; some_inv;
    [apply P_attach | apply lookAhead_keeps]; auto 10.
Qed.

Lemma stepSkip_keeps next i st : P st -> P (stepSkip M next i line st).
Proof.
  intros Hp. unfold stepSkip.
  destruct (skipRegex M line) as [[e t]|]; [|exact Hp].
  destruct (truthy e); [apply P_attach | apply lookAhead_keeps]; auto.
Qed.

Lemma stepSection_keeps st : P st -> P (stepSection M line st).
Proof.
  intros Hp. unfold stepSection.
  destruct (sectionRegex M line) as [n|] eqn:E; [|exact Hp].
  apply P_section; [reflexivity | exact Hp].
Qed.

Lemma stepDescriptionEnd_keeps st : P st -> P (stepDescriptionEnd M line st).
Proof.
  intros Hp. unfold stepDescriptionEnd.
  destruct (hasSection st && descriptionParsing st
            && isSome (descriptionEndRegex M line)); auto.
Qed.

Lemma stepDescriptionContent_keeps st :
  P st -> P (stepDescriptionContent M line st).
Proof.
  intros Hp. unfold stepDescriptionContent.
  destruct (descriptionContentRegex M line) as [t|]; [|exact Hp].
  destruct (hasSection st) eqn:Es; [|exact Hp].
  destruct (descriptionParsing st) eqn:Ep; [|exact Hp].
  simpl. apply P_descriptionLine; assumption.
Qed.

Lemma stepDescriptionStart_keeps st :
  P st -> P (stepDescriptionStart M line st).
Proof.
  intros Hp. unfold stepDescriptionStart.
  destruct (descriptionStartRegex M line) as [t|] eqn:E; [|exact Hp].
  destruct (hasSection st && negb (descriptionParsing st)); [|exact Hp].
  assert (H1 : P (setDescriptionParsing true st))
    by (apply P_parsingOn; [discriminate | exact Hp]).
  destruct (negb (String.eqb t "")); [|exact H1].
  apply P_descriptionLine; [reflexivity | exact H1].
Qed.

(** A property that the writes of a line keep is kept by the line. *)
Lemma scanLine_keeps next i st st' :
  P st -> scanLine M next i line st = Some st' -> P st'.
Proof.
  intros Hp. unfold scanLine.
  destruct (stepParam M next i line (stepYaml line st)) as [st2|] eqn:E2;
    [|discriminate].
  intros H. eapply stepExtra_keeps; [|exact H].
  apply stepSkip_keeps, stepDescriptionStart_keeps,
    stepDescriptionContent_keeps, stepDescriptionEnd_keeps, stepSection_keeps.
  eapply stepParam_keeps; [|exact E2]. apply stepYaml_keeps. exact Hp.
Qed.

End StepInvariant.

(* ================================================================== *)
(** ** Further properties: what a scan keeps and appends *)
(* ================================================================== *)

Section Appends.

Variable M : Matchers.

Lemma attach_parameters p st :
  exists p', parameters (parsedValues (attach p st))
             = parameters (parsedValues st) ++ [p'].
Proof.
  unfold attach. repeat break_match; simpl; eauto.
Qed.

Lemma addDescriptionLine_parameters l st :
  parameters (parsedValues (addDescriptionLine l st))
  = parameters (parsedValues st).
Proof. unfold addDescriptionLine. break_match; reflexivity. Qed.

(** A line only appends to [Metadata.parameters]. *)
Lemma scanLine_appends next i line st st' :
  scanLine M next i line st = Some st' ->
  exists added,
    parameters (parsedValues st') = parameters (parsedValues st) ++ added.
Proof.
  intros H.
  apply (scanLine_keeps M line
           (fun s => exists added,
                parameters (parsedValues s)
                = parameters (parsedValues st) ++ added)
           (fun _ => True)) with (next := next) (i := i) (st := st);
    auto.
  - intros p s _ [added E]. destruct (attach_parameters p s) as [p' E'].
    exists (added ++ [p']). rewrite E', E, app_assoc. reflexivity.
  - intros l s _ [added E]. exists added.
    rewrite addDescriptionLine_parameters. exact E.
  - exists []. rewrite app_nil_r. reflexivity.
Qed.

Lemma scanPrefix_appends lines n m stn stm :
  n <= m ->
  scanPrefix M lines n = Some stn ->
  scanPrefix M lines m = Some stm ->
  exists added,
    parameters (parsedValues stm) = parameters (parsedValues stn) ++ added.
Proof.
  intros Hnm Hn. revert stm. induction Hnm as [|m Hnm IH]; intros stm Hm.
  - assert (stm = stn) by congruence. subst. exists [].
    rewrite app_nil_r. reflexivity.
  - simpl in Hm.
    destruct (scanPrefix M lines m) as [st0|] eqn:E0; [|discriminate].
    destruct (IH st0 eq_refl) as [added0 E].
    destruct (nth_error lines m) as [line|].
    + destruct (scanLine_appends _ _ _ _ _ Hm) as [added E'].
      exists (added0 ++ added). rewrite E', E, app_assoc. reflexivity.
    + inversion Hm; subst. eauto.
Qed.

Lemma map_updateAt_name (f : SectionObj -> SectionObj) ref secs :
  (forall s, secName (f s) = secName s) ->
  map secName (updateAt ref f secs) = map secName secs.
Proof.
  intros Hf. revert ref. induction secs as [|s secs IH]; intros [|ref]; simpl;
    rewrite ?Hf, ?IH; reflexivity.
Qed.

Lemma attach_sectionNames p st :
  sectionNames (parsedValues (attach p st)) = sectionNames (parsedValues st).
Proof.
  unfold attach, sectionNames. repeat break_match; simpl; try reflexivity.
  apply map_updateAt_name. reflexivity.
Qed.

Lemma addDescriptionLine_sectionNames l st :
  sectionNames (parsedValues (addDescriptionLine l st))
  = sectionNames (parsedValues st).
Proof.
  unfold addDescriptionLine, sectionNames. break_match; simpl; try reflexivity.
  apply map_updateAt_name. reflexivity.
Qed.

(** A line appends the section it announces, and no other. *)
Lemma scanLine_sectionNames next i line st st' :
  scanLine M next i line st = Some st' ->
  sectionNames (parsedValues st')
  = sectionNames (parsedValues st) ++ announcedSections M [line].
Proof.
  unfold scanLine. intros H.
  destruct (stepParam M next i line (stepYaml line st)) as [st2|] eqn:E2;
    [|discriminate].
  set (names := sectionNames (parsedValues st)) in *.
  assert (K : forall X p s, sectionNames (parsedValues s) = X ->
                            sectionNames (parsedValues (attach p s)) = X).
  { intros X p s E. rewrite attach_sectionNames. exact E. }
  assert (D : forall X l s, sectionNames (parsedValues s) = X ->
                            sectionNames (parsedValues (addDescriptionLine l s)) = X).
  { intros X l s E. rewrite addDescriptionLine_sectionNames. exact E. }
  assert (H2 : sectionNames (parsedValues st2) = names).
  { apply (stepParam_keeps M line
             (fun s => sectionNames (parsedValues s) = names) (fun _ => True))
      with (next := next) (i := i) (st := stepYaml line st); auto.
    apply (stepYaml_keeps line
             (fun s => sectionNames (parsedValues s) = names) (fun _ => True));
      auto. }
  set (names' := names ++ announcedSections M [line]).
  assert (H3 : sectionNames (parsedValues (stepSection M line st2)) = names').
  { unfold stepSection, names', announcedSections. simpl.
    destruct (sectionRegex M line) as [n|]; simpl.
    - unfold sectionNames in *. simpl. rewrite map_app, H2. reflexivity.
    - rewrite app_nil_r. exact H2. }
  apply (stepExtra_keeps M line
           (fun s => sectionNames (parsedValues s) = names') (fun _ => True))
    with (next := next) (i := i) (st' := st') in H; auto.
  apply (stepSkip_keeps M line
           (fun s => sectionNames (parsedValues s) = names') (fun _ => True));
    auto.
  apply (stepDescriptionStart_keeps M line
           (fun s => sectionNames (parsedValues s) = names')); auto.
  apply (stepDescriptionContent_keeps M line
           (fun s => sectionNames (parsedValues s) = names')); auto.
  apply (stepDescriptionEnd_keeps M line
           (fun s => sectionNames (parsedValues s) = names')); auto.
Qed.

Lemma announcedSections_app lines1 lines2 :
  announcedSections M (lines1 ++ lines2)
  = announcedSections M lines1 ++ announcedSections M lines2.
Proof. unfold announcedSections. apply flat_map_app. Qed.

Lemma scanPrefix_sectionNames lines n :
  n <= List.length lines ->
  forall st, scanPrefix M lines n = Some st ->
    sectionNames (parsedValues st) = announcedSections M (firstn n lines).
Proof.
  induction n as [|n IH]; intros Hn st H.
  - simpl in H. inversion H; subst. reflexivity.
  - destruct (scanPrefix_succ M lines n st Hn H) as [st0 [line [H0 [Hl Hs]]]].
    rewrite (firstn_succ_nth _ lines n line Hl), announcedSections_app.
    rewrite <- (IH (Nat.lt_le_incl _ _ Hn) st0 H0).
    eapply scanLine_sectionNames. eassumption.
Qed.

End Appends.

(** X7: the scanner only appends to [Metadata.parameters]: the list
    after a shorter prefix of the lines is a prefix of the list after a
    longer one, so a parameter once recorded is never removed, replaced or
    moved. *)
Theorem parameters_only_grow :
  forall M lines n m stn stm,
    n <= m ->
    scanPrefix M lines n = Some stn ->
    scanPrefix M lines m = Some stm ->
    exists added,
      parameters (parsedValues stm) = parameters (parsedValues stn) ++ added.
Proof. exact scanPrefix_appends. Qed.

Lemma parameters_only_grow_witness :
  exists stn stm,
    scanPrefix (literalMatchers defaultConfig) (splitLines sectionedText) 1
      = Some stn /\
    scanPrefix (literalMatchers defaultConfig) (splitLines sectionedText) 4
      = Some stm /\
    map name (parameters (parsedValues stn)) = ["global.debug"] /\
    exists added,
      parameters (parsedValues stm) = parameters (parsedValues stn) ++ added.
Proof.
  eexists. eexists.
  split; [vm_compute; reflexivity|].
  split; [vm_compute; reflexivity|].
  split; [reflexivity|].
  apply (parameters_only_grow (literalMatchers defaultConfig)
           (splitLines sectionedText) 1 4);
    [lia | vm_compute; reflexivity | vm_compute; reflexivity].
Defined.

(** X8: [Metadata.sections] holds one section per line that matches the
    section pattern, in the order of the lines, each named by the text the
    pattern captures; no other line adds, removes or renames a section. *)
Theorem sections_follow_section_tags :
  forall M data md,
    parseMetadataComments M data = Some md ->
    sectionNames md = announcedSections M (splitLines data).
Proof.
  intros M data md H. unfold parseMetadataComments in H.
  destruct (scanPrefix M (splitLines data) (List.length (splitLines data)))
    as [st|] eqn:E; [|discriminate].
  simpl in H. inversion H; subst md.
  rewrite (scanPrefix_sectionNames M (splitLines data) _ (Nat.le_refl _) st E).
  rewrite firstn_all. reflexivity.
Qed.

Lemma sections_follow_section_tags_witness :
  exists md,
    parseMetadataComments (literalMatchers defaultConfig)
                          sectionInDescriptionText = Some md /\
    sectionNames md = ["A"; "B"] /\
    sectionNames md
      = announcedSections (literalMatchers defaultConfig)
                          (splitLines sectionInDescriptionText).
Proof.
  eexists. split; [vm_compute; reflexivity|]. split; [reflexivity|].
  apply (sections_follow_section_tags (literalMatchers defaultConfig)
           sectionInDescriptionText).
  vm_compute. reflexivity.
Defined.

Section SectionLists.

Variable M : Matchers.

Lemma in_updateAt (A : Type) (f : A -> A) ref (l : list A) x :
  In x (updateAt ref f l) ->
  In x l \/ exists y, nth_error l ref = Some y /\ x = f y.
Proof.
  revert ref. induction l as [|a l IH]; intros [|ref] H; simpl in *; auto.
  - destruct H as [H|H]; [right; eauto | auto].
  - destruct H as [H|H]; [auto|].
    destruct (IH ref H) as [H'|H']; auto.
Qed.

Lemma attach_consistent p st :
  sectionsConsistent (parsedValues st) ->
  sectionsConsistent (parsedValues (attach p st)).
Proof.
  unfold sectionsConsistent, attach. intros Hc.
  destruct (currentSection st) as [ref|]; simpl.
  - destruct (nth_error (sections (parsedValues st)) ref) as [sec|] eqn:E;
      simpl; intros s q Hs Hq.
    + apply in_updateAt in Hs. destruct Hs as [Hs|[y [Hy ->]]].
      * destruct (Hc s q Hs Hq). split; [apply in_or_app|]; auto.
      * assert (y = sec) by congruence. subst y. simpl in Hq |- *.
        apply in_app_or in Hq. destruct Hq as [Hq|[<-|[]]].
        -- destruct (Hc sec q (nth_error_In _ _ E) Hq).
           split; [apply in_or_app|]; auto.
        -- split; [apply in_or_app; right; left|]; reflexivity.
    + destruct (Hc s q Hs Hq). split; [apply in_or_app|]; auto.
  - intros s q Hs Hq. destruct (Hc s q Hs Hq).
    split; [apply in_or_app|]; auto.
Qed.

Lemma addDescriptionLine_consistent l st :
  sectionsConsistent (parsedValues st) ->
  sectionsConsistent (parsedValues (addDescriptionLine l st)).
Proof.
  unfold sectionsConsistent, addDescriptionLine. intros Hc.
  destruct (currentSection st) as [ref|]; [|exact Hc]. simpl.
  intros s q Hs Hq.
  apply in_updateAt in Hs. destruct Hs as [Hs|[y [Hy ->]]]; [auto|].
  simpl in *. apply (Hc y q); [eapply nth_error_In; eassumption | exact Hq].
Qed.

Lemma scanLine_consistent next i line st st' :
  sectionsConsistent (parsedValues st) ->
  scanLine M next i line st = Some st' ->
  sectionsConsistent (parsedValues st').
Proof.
  apply (scanLine_keeps M line
           (fun s => sectionsConsistent (parsedValues s)) (fun _ => True));
    auto.
  - intros p s _. apply attach_consistent.
  - intros n s _ Hc sec q Hs Hq. simpl in Hs.
    apply in_app_or in Hs. destruct Hs as [Hs|[<-|[]]]; [|destruct Hq].
    apply (Hc sec q Hs Hq).
  - intros l s _. apply addDescriptionLine_consistent.
Qed.

(** Without a section tag there is no current section and no parameter
    gets a section. *)
Lemma scanLine_unsectioned next i line st st' :
  sectionRegex M line = None ->
  (currentSection st = None /\
   (forall p, In p (parameters (parsedValues st)) -> section p = None) /\
   (forall p, pendingParam st = Some p -> section p = None)) ->
  scanLine M next i line st = Some st' ->
  (currentSection st' = None /\
   (forall p, In p (parameters (parsedValues st')) -> section p = None) /\
   (forall p, pendingParam st' = Some p -> section p = None)).
Proof.
  intros Hno.
  apply (scanLine_keeps M line
           (fun s => currentSection s = None /\
                     (forall p, In p (parameters (parsedValues s)) ->
                                section p = None) /\
                     (forall p, pendingParam s = Some p -> section p = None))
           (fun p => section p = None)); auto.
  - intros s p [_ [_ Hp]] E. auto.
  - intros p s Hq [Hc [Hall Hp]]. unfold attach. rewrite Hc. simpl.
    split; [exact Hc|]. split; [|exact Hp].
    intros q Hin. apply in_app_or in Hin. destruct Hin as [Hin|[<-|[]]]; auto.
  - intros s [Hc [Hall Hp]]. simpl. repeat split; auto. discriminate.
  - intros p s Hq [Hc [Hall Hp]]. simpl. repeat split; auto.
    intros q E. inversion E; subst. exact Hq.
  - intros n s E. congruence.
  - intros l s _ [Hc [Hall Hp]]. unfold addDescriptionLine. rewrite Hc.
    auto.
Qed.

End SectionLists.

(** X9: the parameter lists of the sections are views of
    [Metadata.parameters]: every parameter in the list of a section is
    also in [Metadata.parameters], and its [section] field is the name of
    that section. *)
Theorem section_lists_are_views :
  forall M data md,
    parseMetadataComments M data = Some md -> sectionsConsistent md.
Proof.
  intros M data md H. unfold parseMetadataComments in H.
  destruct (scanPrefix M (splitLines data) (List.length (splitLines data)))
    as [st|] eqn:E; [|discriminate].
  simpl in H. inversion H; subst md. revert E.
  apply (scanPrefix_invariant M (splitLines data)
           (fun s => sectionsConsistent (parsedValues s))).
  - intros s p [].
  - intros next i line s s'. apply scanLine_consistent.
Qed.

Lemma section_lists_are_views_witness :
  exists md,
    parseMetadataComments (literalMatchers defaultConfig) sectionedText = Some md /\
    map (fun s => (secName s, map name (secParameters s))) (sections md)
      = [("Image", ["image.tag"; "image.digest"])] /\
    map name (parameters md) = ["global.debug"; "image.tag"; "image.digest"] /\
    sectionsConsistent md.
Proof.
  eexists. split; [vm_compute; reflexivity|].
  split; [reflexivity|]. split; [reflexivity|].
  apply (section_lists_are_views (literalMatchers defaultConfig) sectionedText).
  vm_compute. reflexivity.
Defined.

(** X10: a file without a section tag.  The comment of line 85 assumes a
    section before any parameter, but the scan does not need one: the
    metadata then has no section, and every parameter is recorded in
    [Metadata.parameters] with no section assigned. *)
Theorem no_section_tag_no_section :
  forall M data md,
    noSectionTag M (splitLines data) = true ->
    parseMetadataComments M data = Some md ->
    sections md = [] /\
    forall p, In p (parameters md) -> section p = None.
Proof.
  intros M data md Hno H. unfold parseMetadataComments in H.
  set (lines := splitLines data) in *.
  destruct (scanPrefix M lines (List.length lines)) as [st|] eqn:E;
    [|discriminate].
  simpl in H. inversion H; subst md. clear H.
  assert (Hlines : forall l, In l lines -> sectionRegex M l = None).
  { intros l Hl. unfold noSectionTag in Hno. rewrite forallb_forall in Hno.
    specialize (Hno l Hl). destruct (sectionRegex M l); [discriminate|reflexivity]. }
  split.
  - pose proof (scanPrefix_sectionNames M lines _ (Nat.le_refl _) st E) as Hn.
    rewrite firstn_all in Hn.
    assert (Ha : announcedSections M lines = []).
    { clear - Hlines. induction lines as [|l ls IH]; [reflexivity|].
      unfold announcedSections in *. simpl.
      rewrite (Hlines l (or_introl eq_refl)). simpl.
      apply IH. intros l' Hl'. apply Hlines. right. exact Hl'. }
    rewrite Ha in Hn. unfold sectionNames in Hn.
    destruct (sections (parsedValues st)); [reflexivity | discriminate].
  - assert (G : forall n, n <= List.length lines ->
                forall s, scanPrefix M lines n = Some s ->
                  currentSection s = None /\
                  (forall p, In p (parameters (parsedValues s)) ->
                             section p = None) /\
                  (forall p, pendingParam s = Some p -> section p = None)).
    { induction n as [|n IH]; intros Hn s Hs.
      - simpl in Hs. inversion Hs; subst. simpl.
        repeat split; [intros p [] | discriminate].
      - destruct (scanPrefix_succ M lines n s Hn Hs) as [s0 [l [H0 [Hl Hstep]]]].
        eapply scanLine_unsectioned; [| |exact Hstep].
        + apply Hlines. eapply nth_error_In. eassumption.
        + apply IH; [lia | exact H0]. }
    destruct (G _ (Nat.le_refl _) st E) as [_ [Hall _]]. exact Hall.
Qed.

Lemma no_section_tag_no_section_witness :
  noSectionTag (literalMatchers defaultConfig) (splitLines unsectionedText) = true /\
  exists md,
    parseMetadataComments (literalMatchers defaultConfig) unsectionedText
      = Some md /\
    map name (parameters md) = ["replicaCount"; "tolerations"] /\
    sections md = [] /\
    forall p, In p (parameters md) -> section p = None.
Proof.
  split; [vm_compute; reflexivity|].
  eexists. split; [vm_compute; reflexivity|]. split; [reflexivity|].
  apply (no_section_tag_no_section (literalMatchers defaultConfig)
           unsectionedText);
    vm_compute; reflexivity.
Defined.

(* ================================================================== *)
(** ** Further properties: the name a parameter is recorded under *)
(* ================================================================== *)

Section Recorded.

Variable M : Matchers.

Lemma attach_adds p st :
  exists q, In q (parameters (parsedValues (attach p st))) /\ attached p q.
Proof.
  unfold attach, attached.
  destruct (currentSection st) as [ref|]; simpl.
  - destruct (nth_error (sections (parsedValues st)) ref) as [sec|]; simpl;
      eexists; (split; [apply in_or_app; right; left; reflexivity|]); eauto.
  - eexists. split; [apply in_or_app; right; left; reflexivity|]. auto.
Qed.

Lemma attach_in q p st :
  In q (parameters (parsedValues st)) ->
  In q (parameters (parsedValues (attach p st))).
Proof.
  intros H. destruct (attach_parameters p st) as [p' E]. rewrite E.
  apply in_or_app. auto.
Qed.

Lemma stepSkip_in q next i line st :
  In q (parameters (parsedValues st)) ->
  In q (parameters (parsedValues (stepSkip M next i line st))).
Proof.
  apply (stepSkip_keeps M line
           (fun s => In q (parameters (parsedValues s))) (fun _ => True));
    auto using attach_in.
Qed.

Lemma stepExtra_in q next i line st st' :
  In q (parameters (parsedValues st)) ->
  stepExtra M next i line st = Some st' ->
  In q (parameters (parsedValues st')).
Proof.
  apply (stepExtra_keeps M line
           (fun s => In q (parameters (parsedValues s))) (fun _ => True));
    auto using attach_in.
Qed.

Lemma middle_in q line st :
  In q (parameters (parsedValues st)) ->
  In q (parameters
          (parsedValues
             (stepDescriptionStart M line
                (stepDescriptionContent M line
                   (stepDescriptionEnd M line (stepSection M line st)))))).
Proof.
  intros H.
  assert (D : forall l s, In q (parameters (parsedValues s)) ->
                          In q (parameters (parsedValues (addDescriptionLine l s)))).
  { intros l s Hs. rewrite addDescriptionLine_parameters. exact Hs. }
  apply (stepDescriptionStart_keeps M line
           (fun s => In q (parameters (parsedValues s)))); auto.
  apply (stepDescriptionContent_keeps M line
           (fun s => In q (parameters (parsedValues s)))); auto.
  apply (stepDescriptionEnd_keeps M line
           (fun s => In q (parameters (parsedValues s)))); auto.
  apply (stepSection_keeps M line
           (fun s => In q (parameters (parsedValues s)))); auto.
Qed.

Lemma scanPrefix_earlier lines m stm :
  scanPrefix M lines m = Some stm ->
  forall n, n <= m -> exists stn, scanPrefix M lines n = Some stn.
Proof.
  intros Hm n Hn. revert stm Hm. induction Hn as [|m Hn IH]; intros stm Hm.
  - eauto.
  - simpl in Hm. destruct (scanPrefix M lines m) as [st0|]; [|discriminate].
    eapply IH. reflexivity.
Qed.

(** What is in the parameters after a line is in the returned metadata. *)
Lemma recorded_stays lines n stn q md :
  n <= List.length lines ->
  scanPrefix M lines n = Some stn ->
  In q (parameters (parsedValues stn)) ->
  option_map parsedValues (scanPrefix M lines (List.length lines)) = Some md ->
  In q (parameters md).
Proof.
  intros Hn Hstn Hq Hmd.
  destruct (scanPrefix M lines (List.length lines)) as [stN|] eqn:E;
    [|discriminate].
  simpl in Hmd. inversion Hmd; subst md.
  destruct (scanPrefix_appends M lines n _ stn stN Hn Hstn E) as [added Ea].
  rewrite Ea. apply in_or_app. auto.
Qed.

(** The step of a line, opened up. *)
Lemma scanLine_steps next i line st st' :
  scanLine M next i line st = Some st' ->
  exists st2,
    stepParam M next i line (stepYaml line st) = Some st2 /\
    stepExtra M next i line
      (stepSkip M next i line
         (stepDescriptionStart M line
            (stepDescriptionContent M line
               (stepDescriptionEnd M line (stepSection M line st2)))))
    = Some st'.
Proof.
  unfold scanLine. intros H.
  destruct (stepParam M next i line (stepYaml line st)) as [st2|];
    [eauto | discriminate].
Qed.

End Recorded.

Section ExplicitTags.

Variable M : Matchers.
Variable lines : list string.
Variable md : Metadata.
Hypothesis Hmd :
  option_map parsedValues (scanPrefix M lines (List.length lines)) = Some md.

(** The scan reached line [i] and went through it. *)
Lemma line_was_scanned i line :
  nth_error lines i = Some line ->
  exists st st',
    scanPrefix M lines i = Some st /\
    scanPrefix M lines (S i) = Some st' /\
    scanLine M (nth_error lines (S i)) i line st = Some st'.
Proof.
  intros Hl.
  assert (Hi : i < List.length lines) by (apply nth_error_Some; congruence).
  destruct (scanPrefix M lines (List.length lines)) as [stN|] eqn:E;
    [|discriminate].
  destruct (scanPrefix_earlier M lines _ stN E (S i) Hi) as [st' Hst'].
  destruct (scanPrefix_succ M lines i st' Hi Hst') as [st [l [H0 [Hl' Hs]]]].
  assert (l = line) by congruence. subst l. eauto.
Qed.

Lemma after_line_recorded i line st' q :
  nth_error lines i = Some line ->
  scanPrefix M lines (S i) = Some st' ->
  In q (parameters (parsedValues st')) ->
  In q (parameters md).
Proof.
  intros Hl Hst' Hq.
  assert (Hi : i < List.length lines) by (apply nth_error_Some; congruence).
  eapply recorded_stays; eauto.
Qed.

Lemma explicit_param_recorded i line m :
  nth_error lines i = Some line ->
  paramRegex M line = Some m ->
  truthy (explicitPathGroup m) = true ->
  exists q mods,
    In q (parameters md) /\
    modifiersText (modifiersGroup m) = Some mods /\
    attached (setDescription (descriptionGroup m)
                (setModifiers (modifierList mods)
                   (newParameter (FromTag i TagParam)
                      (orEmpty (explicitPathGroup m))))) q.
Proof.
  intros Hl Hm Ht.
  destruct (line_was_scanned i line Hl) as [st [st' [H0 [H1 Hs]]]].
  destruct (scanLine_steps M _ _ _ _ _ Hs) as [st2 [H2 H7]].
  unfold stepParam in H2. rewrite Hm in H2.
  destruct (modifiersText (modifiersGroup m)) as [mods|]; [|discriminate].
  rewrite Ht in H2. inversion H2 as [E2]. clear H2.
  match type of E2 with
  | attach ?p ?s = _ => destruct (attach_adds p s) as [q [Hq Ha]]
  end.
  rewrite E2 in Hq.
  exists q, mods. split; [|split; [reflexivity | exact Ha]].
  eapply after_line_recorded; [exact Hl | exact H1 |].
  eapply stepExtra_in; [|exact H7].
  apply stepSkip_in, middle_in. exact Hq.
Qed.

Lemma explicit_skip_recorded i line e t :
  nth_error lines i = Some line ->
  skipRegex M line = Some (e, t) ->
  truthy e = true ->
  exists q,
    In q (parameters md) /\
    attached (setDescription t
                (setSkip true (newParameter (FromTag i TagSkip) (orEmpty e)))) q.
Proof.
  intros Hl Hm Ht.
  destruct (line_was_scanned i line Hl) as [st [st' [H0 [H1 Hs]]]].
  destruct (scanLine_steps M _ _ _ _ _ Hs) as [st2 [H2 H7]].
  match type of H7 with
  | stepExtra _ _ _ _ (stepSkip _ _ _ _ ?s) = _ => set (st6 := s) in *
  end.
  assert (E : stepSkip M (nth_error lines (S i)) i line st6
              = attach (setDescription t
                          (setSkip true
                             (newParameter (FromTag i TagSkip) (orEmpty e))))
                       st6).
  { unfold stepSkip. rewrite Hm, Ht. reflexivity. }
  rewrite E in H7.
  match type of H7 with
  | stepExtra _ _ _ _ (attach ?p ?s) = _ =>
      destruct (attach_adds p s) as [q [Hq Ha]]
  end.
  exists q. split; [|exact Ha].
  eapply after_line_recorded; [exact Hl | exact H1 |].
  eapply stepExtra_in; [exact Hq | exact H7].
Qed.

Lemma explicit_extra_recorded i line m :
  nth_error lines i = Some line ->
  extraRegex M line = Some m ->
  truthy (explicitPathGroup m) = true ->
  exists q mods,
    In q (parameters md) /\
    modifiersText (modifiersGroup m) = Some mods /\
    attached (setExtra true
                (setValue (Some (JStr ""))
                   (setDescription (descriptionGroup m)
                      (setModifiers (modifierList mods)
                         (newParameter (FromTag i TagExtra)
                            (orEmpty (explicitPathGroup m))))))) q.
Proof.
  intros Hl Hm Ht.
  destruct (line_was_scanned i line Hl) as [st [st' [H0 [H1 Hs]]]].
  destruct (scanLine_steps M _ _ _ _ _ Hs) as [st2 [H2 H7]].
  unfold stepExtra in H7. rewrite Hm in H7.
  destruct (modifiersText (modifiersGroup m)) as [mods|]; [|discriminate].
  rewrite Ht in H7. inversion H7 as [E7]. clear H7.
  match type of E7 with
  | attach ?p ?s = _ => destruct (attach_adds p s) as [q [Hq Ha]]
  end.
  rewrite E7 in Hq.
  exists q, mods. split; [|split; [reflexivity | exact Ha]].
  eapply after_line_recorded; [exact Hl | exact H1 | exact Hq].
Qed.

End ExplicitTags.

(** X11: a tag with an explicit path is recorded under that path,
    verbatim, whatever YAML surrounds it.  For a line the parameter
    pattern matches with a path, the returned metadata holds a parameter
    made on that line whose name is the path, whose description is the
    text after the tag and whose modifiers are the trimmed, non-empty
    items of the bracket group; for the skip pattern, one with [skip] set
    and no modifiers; for the extra pattern, one with [extra] set and the
    empty string as value. *)
Theorem explicit_path_recorded_verbatim :
  forall M data i line md,
    nth_error (splitLines data) i = Some line ->
    parseMetadataComments M data = Some md ->
    (forall m,
        paramRegex M line = Some m -> truthy (explicitPathGroup m) = true ->
        exists q mods,
          In q (parameters md) /\ oid q = FromTag i TagParam /\
          name q = orEmpty (explicitPathGroup m) /\
          description q = Some (descriptionGroup m) /\
          modifiersText (modifiersGroup m) = Some mods /\
          modifiers q = Some (modifierList mods) /\
          skip q = false /\ extra q = false /\ pvalue q = None) /\
    (forall e t,
        skipRegex M line = Some (e, t) -> truthy e = true ->
        exists q,
          In q (parameters md) /\ oid q = FromTag i TagSkip /\
          name q = orEmpty e /\ description q = Some t /\
          modifiers q = None /\ skip q = true) /\
    (forall m,
        extraRegex M line = Some m -> truthy (explicitPathGroup m) = true ->
        exists q mods,
          In q (parameters md) /\ oid q = FromTag i TagExtra /\
          name q = orEmpty (explicitPathGroup m) /\
          description q = Some (descriptionGroup m) /\
          modifiersText (modifiersGroup m) = Some mods /\
          modifiers q = Some (modifierList mods) /\
          extra q = true /\ pvalue q = Some (JStr "")).
Proof.
  intros M data i line md Hl Hmd. unfold parseMetadataComments in Hmd.
  split; [|split].
  - intros m Hm Ht.
    destruct (explicit_param_recorded M _ md Hmd i line m Hl Hm Ht)
      as [q [mods [Hq [Hmods Ha]]]].
    exists q, mods. destruct Ha as [->|[s ->]]; simpl; repeat split; auto.
  - intros e t Hm Ht.
    destruct (explicit_skip_recorded M _ md Hmd i line e t Hl Hm Ht)
      as [q [Hq Ha]].
    exists q. destruct Ha as [->|[s ->]]; simpl; repeat split; auto.
  - intros m Hm Ht.
    destruct (explicit_extra_recorded M _ md Hmd i line m Hl Hm Ht)
      as [q [mods [Hq [Hmods Ha]]]].
    exists q, mods. destruct Ha as [->|[s ->]]; simpl; repeat split; auto.
Qed.

Lemma explicit_path_recorded_verbatim_witness :
  nth_error (splitLines explicitTagsText) 1
    = Some "  ## @param (image.tag) [string, nullable] Image tag" /\
  paramRegex (literalMatchers defaultConfig)
             "  ## @param (image.tag) [string, nullable] Image tag"
    = Some (mkTagMatch (Some "image.tag") (Some "[string, nullable]") "Image tag") /\
  exists md,
    parseMetadataComments (literalMatchers defaultConfig) explicitTagsText
      = Some md /\
    exists q mods,
      In q (parameters md) /\ oid q = FromTag 1 TagParam /\
      name q = "image.tag" /\
      description q = Some "Image tag" /\
      modifiersText (Some "[string, nullable]") = Some mods /\
      modifiers q = Some (modifierList mods) /\
      skip q = false /\ extra q = false /\ pvalue q = None.
Proof.
  split; [vm_compute; reflexivity|].
  split; [vm_compute; reflexivity|].
  eexists. split; [vm_compute; reflexivity|].
  apply (proj1 (explicit_path_recorded_verbatim
                  (literalMatchers defaultConfig) explicitTagsText 1
                  "  ## @param (image.tag) [string, nullable] Image tag" _
                  ltac:(vm_compute; reflexivity)
                  ltac:(vm_compute; reflexivity))
               (mkTagMatch (Some "image.tag") (Some "[string, nullable]")
                           "Image tag"));
    vm_compute; reflexivity.
Defined.

(* ================================================================== *)
(** ** Further properties: names found from the YAML structure *)
(* ================================================================== *)

Section AutoPath.

Variable M : Matchers.
Variable lines : list string.
Variable md : Metadata.
Hypothesis Hmd :
  option_map parsedValues (scanPrefix M lines (List.length lines)) = Some md.

Lemma stepParam_in q next i line st st' :
  In q (parameters (parsedValues st)) ->
  stepParam M next i line st = Some st' ->
  In q (parameters (parsedValues st')).
Proof.
  apply (stepParam_keeps M line
           (fun s => In q (parameters (parsedValues s))) (fun _ => True));
    auto using attach_in.
Qed.

Lemma trackPaths_succ n line :
  nth_error lines n = Some line ->
  trackPaths (firstn (S n) lines) = trackStep (trackPaths (firstn n lines)) line.
Proof.
  intros H. rewrite (firstn_succ_nth _ lines n line H).
  unfold trackPaths. rewrite fold_left_app. reflexivity.
Qed.

(** The look-ahead records the object under the path the stacks will
    have after the next line. *)
Lemma lookAhead_adds nextLine p st :
  isYamlKey (parseYamlLine nextLine) = true ->
  exists q,
    In q (parameters (parsedValues (lookAhead (Some nextLine) p st))) /\
    attached (setName (buildCurrentPath (fst (trackStep (stacksOf st) nextLine)))
                      p) q.
Proof.
  intros Hk. unfold lookAhead, trackStep, stacksOf. rewrite Hk. simpl fst.
  simpl snd.
  match goal with
  | |- exists q, In q (parameters (parsedValues (setPendingParam None (attach ?x ?s)))) /\ _ =>
      destruct (attach_adds x s) as [q [Hq Ha]]
  end.
  exists q. split; [exact Hq | exact Ha].
Qed.

(** The stacks do not change between the path-tracking step of a line
    and the end of the line. *)
Lemma stacks_during_line i line st st' st2 :
  nth_error lines i = Some line ->
  scanPrefix M lines (S i) = Some st' ->
  stepParam M (nth_error lines (S i)) i line (stepYaml line st) = Some st2 ->
  stepExtra M (nth_error lines (S i)) i line
    (stepSkip M (nth_error lines (S i)) i line
       (stepDescriptionStart M line
          (stepDescriptionContent M line
             (stepDescriptionEnd M line (stepSection M line st2)))))
  = Some st' ->
  let T := trackPaths (firstn (S i) lines) in
  stacksOf (stepYaml line st) = T /\
  stacksOf (stepDescriptionStart M line
              (stepDescriptionContent M line
                 (stepDescriptionEnd M line (stepSection M line st2)))) = T /\
  stacksOf (stepSkip M (nth_error lines (S i)) i line
              (stepDescriptionStart M line
                 (stepDescriptionContent M line
                    (stepDescriptionEnd M line (stepSection M line st2))))) = T.
Proof.
  intros Hl Hst' H2 H7. cbv zeta.
  assert (Hi : i < List.length lines) by (apply nth_error_Some; congruence).
  pose proof (scanPrefix_trackPaths M lines (S i) Hi st' Hst') as HT.
  apply stepExtra_stacks in H7. rewrite H7 in HT.
  split; [|split].
  - rewrite <- HT, stepSkip_stacks, stepDescriptionStart_stacks,
      stepDescriptionContent_stacks, stepDescriptionEnd_stacks,
      stepSection_stacks.
    symmetry. eapply stepParam_stacks. eassumption.
  - rewrite <- HT, stepSkip_stacks. reflexivity.
  - exact HT.
Qed.

Lemma lookAhead_recorded i line nextLine kind :
  nth_error lines i = Some line ->
  nth_error lines (S i) = Some nextLine ->
  isYamlKey (parseYamlLine nextLine) = true ->
  tagPathless M kind line = true ->
  exists q,
    In q (parameters md) /\ oid q = FromTag i kind /\
    name q = buildCurrentPath (fst (trackPaths (firstn (S (S i)) lines))).
Proof.
  intros Hl Hn Hk Hless.
  destruct (line_was_scanned M lines md Hmd i line Hl) as [st [st' [H0 [H1 Hs]]]].
  destruct (scanLine_steps M _ _ _ _ _ Hs) as [st2 [H2 H7]].
  destruct (stacks_during_line i line st st' st2 Hl H1 H2 H7) as [T1 [T6 T7]].
  rewrite (trackPaths_succ (S i) nextLine Hn).
  rewrite Hn in *.
  destruct kind; simpl in Hless.
  - unfold stepParam in H2.
    destruct (paramRegex M line) as [m|]; [|discriminate].
    destruct (modifiersText (modifiersGroup m)) as [mods|]; [|discriminate].
    destruct (truthy (explicitPathGroup m)); [discriminate|].
    match type of H2 with
    | Some (lookAhead _ ?p ?s) = _ =>
        destruct (lookAhead_adds nextLine p s Hk) as [q [Hq Ha]];
        assert (E2 : lookAhead (Some nextLine) p s = st2) by congruence
    end.
    rewrite E2 in Hq. rewrite T1 in Ha.
    exists q. split; [|destruct Ha as [->|[s ->]]; simpl; auto].
    eapply (after_line_recorded M lines md Hmd i line st'); [exact Hl | exact H1 |].
    eapply stepExtra_in; [|exact H7].
    apply stepSkip_in, middle_in. exact Hq.
  - match type of H7 with
    | stepExtra _ _ _ _ (stepSkip _ _ _ _ ?s) = _ => set (st6 := s) in *
    end.
    unfold stepSkip in H7 at 1.
    destruct (skipRegex M line) as [[e t]|]; [|discriminate].
    destruct (truthy e); [discriminate|].
    match type of H7 with
    | stepExtra _ _ _ _ (lookAhead _ ?p ?s) = _ =>
        destruct (lookAhead_adds nextLine p s Hk) as [q [Hq Ha]]
    end.
    rewrite T6 in Ha.
    exists q. split; [|destruct Ha as [->|[s ->]]; simpl; auto].
    eapply (after_line_recorded M lines md Hmd i line st'); [exact Hl | exact H1 |].
    eapply stepExtra_in; [exact Hq | exact H7].
  - unfold stepExtra in H7.
    destruct (extraRegex M line) as [m|]; [|discriminate].
    destruct (modifiersText (modifiersGroup m)) as [mods|]; [|discriminate].
    destruct (truthy (explicitPathGroup m)); [discriminate|].
    match type of H7 with
    | Some (lookAhead _ ?p ?s) = _ =>
        destruct (lookAhead_adds nextLine p s Hk) as [q [Hq Ha]];
        assert (E7 : lookAhead (Some nextLine) p s = st') by congruence
    end.
    rewrite E7 in Hq. rewrite T7 in Ha.
    exists q. split; [|destruct Ha as [->|[s ->]]; simpl; auto].
    eapply (after_line_recorded M lines md Hmd i line st'); [exact Hl | exact H1 |].
    exact Hq.
Qed.

Lemma pending_resolved j line st p :
  scanPrefix M lines j = Some st ->
  pendingParam st = Some p ->
  nth_error lines j = Some line ->
  isYamlKey (parseYamlLine line) = true ->
  exists q,
    In q (parameters md) /\ oid q = oid p /\
    description q = description p /\ modifiers q = modifiers p /\
    name q = buildCurrentPath (fst (trackPaths (firstn (S j) lines))).
Proof.
  intros Hst Hp Hl Hk.
  destruct (line_was_scanned M lines md Hmd j line Hl) as [st0 [st' [H0 [H1 Hs]]]].
  assert (st0 = st) by congruence. subst st0.
  destruct (scanLine_steps M _ _ _ _ _ Hs) as [st2 [H2 H7]].
  destruct (stacks_during_line j line st st' st2 Hl H1 H2 H7) as [T1 _].
  assert (E : exists q,
             In q (parameters (parsedValues (stepYaml line st))) /\
             attached (setName (buildCurrentPath
                                  (pathStack (stepYaml line st))) p) q).
  { unfold stepYaml. rewrite Hk.
    set (u := updatePathStack _ _ _ _).
    assert (Ep : pendingParam (setStacks u st) = Some p) by exact Hp.
    rewrite Ep.
    destruct (attach_adds (setName (buildCurrentPath (pathStack (setStacks u st))) p)
                          (setStacks u st)) as [q [Hq Ha]].
    exists q. split; [exact Hq|].
    assert (Es : pathStack (setPendingParam None
                   (attach (setName (buildCurrentPath (pathStack (setStacks u st))) p)
                           (setStacks u st))) = pathStack (setStacks u st)).
    { change (fst (stacksOf
                     (attach (setName (buildCurrentPath
                                         (pathStack (setStacks u st))) p)
                             (setStacks u st)))
              = pathStack (setStacks u st)).
      rewrite attach_stacks. reflexivity. }
    rewrite Es. exact Ha. }
  destruct E as [q [Hq Ha]].
  assert (Ename : pathStack (stepYaml line st)
                  = fst (trackPaths (firstn (S j) lines))).
  { rewrite <- T1. reflexivity. }
  rewrite Ename in Ha.
  exists q. split; [|destruct Ha as [->|[s ->]]; simpl; auto].
  eapply (after_line_recorded M lines md Hmd j line st'); [exact Hl | exact H1 |].
  eapply stepExtra_in; [|exact H7].
  apply stepSkip_in, middle_in.
  eapply stepParam_in; [exact Hq | exact H2].
Qed.

End AutoPath.

(** X12: the look-ahead names a parameter as the real scan will.  When a
    tag without a path is followed at once by a structural line, the
    parameter it makes is recorded in the metadata under the dotted path
    the path stack has after that next line: the projection on copies of
    the stacks agrees with the update the next iteration performs. *)
Theorem look_ahead_names_next_key :
  forall M data i line nextLine kind md,
    nth_error (splitLines data) i = Some line ->
    nth_error (splitLines data) (S i) = Some nextLine ->
    isYamlKey (parseYamlLine nextLine) = true ->
    tagPathless M kind line = true ->
    parseMetadataComments M data = Some md ->
    exists q,
      In q (parameters md) /\ oid q = FromTag i kind /\
      name q = buildCurrentPath
                 (fst (trackPaths (firstn (S (S i)) (splitLines data)))).
Proof.
  intros M data i line nextLine kind md Hl Hn Hk Hless Hmd.
  exact (lookAhead_recorded M (splitLines data) md Hmd i line nextLine kind
           Hl Hn Hk Hless).
Qed.

Lemma look_ahead_names_next_key_witness :
  exists md,
    parseMetadataComments (literalMatchers defaultConfig) autoPathText = Some md /\
    buildCurrentPath (fst (trackPaths (firstn 3 (splitLines autoPathText))))
      = "image.tag" /\
    exists q,
      In q (parameters md) /\ oid q = FromTag 1 TagParam /\
      name q = buildCurrentPath
                 (fst (trackPaths (firstn 3 (splitLines autoPathText)))).
Proof.
  eexists. split; [vm_compute; reflexivity|].
  split; [vm_compute; reflexivity|].
  apply (look_ahead_names_next_key (literalMatchers defaultConfig) autoPathText
           1 "  ## @param Image tag" "  tag: latest" TagParam);
    vm_compute; reflexivity.
Defined.

(** X13: a pending parameter is resolved by the first structural line
    that comes, however far.  If an object is pending when a structural
    line is scanned, it is recorded in the metadata, with its description
    and modifiers, under the dotted path of the path stack after that
    line. *)
Theorem pending_named_by_next_structural_line :
  forall M data j line st p md,
    scanPrefix M (splitLines data) j = Some st ->
    pendingParam st = Some p ->
    nth_error (splitLines data) j = Some line ->
    isYamlKey (parseYamlLine line) = true ->
    parseMetadataComments M data = Some md ->
    exists q,
      In q (parameters md) /\ oid q = oid p /\
      description q = description p /\ modifiers q = modifiers p /\
      name q = buildCurrentPath
                 (fst (trackPaths (firstn (S j) (splitLines data)))).
Proof.
  intros M data j line st p md Hst Hp Hl Hk Hmd.
  exact (pending_resolved M (splitLines data) md Hmd j line st p Hst Hp Hl Hk).
Qed.

Lemma pending_named_by_next_structural_line_witness :
  exists st p md,
    scanPrefix (literalMatchers defaultConfig) (splitLines autoPathText) 5
      = Some st /\
    pendingParam st = Some p /\
    oid p = FromTag 3 TagSkip /\
    parseMetadataComments (literalMatchers defaultConfig) autoPathText = Some md /\
    buildCurrentPath (fst (trackPaths (firstn 6 (splitLines autoPathText))))
      = "service" /\
    exists q,
      In q (parameters md) /\ oid q = oid p /\
      description q = description p /\ modifiers q = modifiers p /\
      name q = buildCurrentPath
                 (fst (trackPaths (firstn 6 (splitLines autoPathText)))).
Proof.
  eexists. eexists. eexists.
  split; [vm_compute; reflexivity|].
  split; [reflexivity|].
  split; [reflexivity|].
  split; [vm_compute; reflexivity|].
  split; [vm_compute; reflexivity|].
  eapply (pending_named_by_next_structural_line (literalMatchers defaultConfig)
            autoPathText 5 "service:");
    vm_compute; reflexivity.
Defined.

(* ================================================================== *)
(** ** Further properties: descriptions need a start tag *)
(* ================================================================== *)

Section NoDescription.

Variable M : Matchers.

Lemma quiet_descState st st' :
  descState st' = descState st -> quiet st -> quiet st'.
Proof.
  unfold descState, quiet. intros E [Hp Hd].
  assert (E1 : descriptions st' = descriptions st) by congruence.
  assert (E2 : descriptionParsing st' = descriptionParsing st) by congruence.
  rewrite E1, E2. auto.
Qed.

Lemma scanLine_quiet next i line st st' :
  descriptionStartRegex M line = None ->
  quiet st ->
  scanLine M next i line st = Some st' ->
  quiet st'.
Proof.
  intros Hno.
  apply (scanLine_keeps M line quiet (fun _ => True)); auto.
  - intros p s _. apply quiet_descState. apply attach_descState.
  - intros n s _ [Hp Hd]. split; [exact Hp|].
    unfold descriptions in *. simpl. rewrite map_app.
    apply Forall_app. split; [exact Hd | repeat constructor].
  - intros l s Ht [Hp _]. congruence.
  - intros s [_ Hd]. split; [reflexivity | exact Hd].
  - intros s Hs. congruence.
Qed.

End NoDescription.

(** X14: descriptions need a start tag.  If no line matches the
    description-start pattern, capture is never turned on: every section
    of the returned metadata has an empty description, whatever comment
    lines and description-end tags the file holds. *)
Theorem no_start_tag_no_description :
  forall M data md,
    noDescriptionStart M (splitLines data) = true ->
    parseMetadataComments M data = Some md ->
    forall s, In s (sections md) -> secDescription s = [].
Proof.
  intros M data md Hno H. unfold parseMetadataComments in H.
  set (lines := splitLines data) in *.
  destruct (scanPrefix M lines (List.length lines)) as [st|] eqn:E;
    [|discriminate].
  simpl in H. inversion H; subst md. clear H.
  assert (Hlines : forall l, In l lines -> descriptionStartRegex M l = None).
  { intros l Hl. unfold noDescriptionStart in Hno. rewrite forallb_forall in Hno.
    specialize (Hno l Hl).
    destruct (descriptionStartRegex M l); [discriminate|reflexivity]. }
  assert (G : forall n, n <= List.length lines ->
              forall s, scanPrefix M lines n = Some s -> quiet s).
  { induction n as [|n IH]; intros Hn s Hs.
    - simpl in Hs. inversion Hs; subst. split; [reflexivity | constructor].
    - destruct (scanPrefix_succ M lines n s Hn Hs) as [s0 [l [H0 [Hl Hstep]]]].
      eapply scanLine_quiet; [| |exact Hstep].
      + apply Hlines. eapply nth_error_In. eassumption.
      + apply IH; [lia | exact H0]. }
  destruct (G _ (Nat.le_refl _) st E) as [_ Hd].
  intros s Hs. unfold descriptions in Hd. rewrite Forall_forall in Hd.
  apply Hd. apply in_map. exact Hs.
Qed.

Lemma no_start_tag_no_description_witness :
  noDescriptionStart (literalMatchers defaultConfig)
                     (splitLines noDescriptionText) = true /\
  exists md,
    parseMetadataComments (literalMatchers defaultConfig) noDescriptionText
      = Some md /\
    sectionNames md = ["Image"; "Service"] /\
    forall s, In s (sections md) -> secDescription s = [].
Proof.
  split; [vm_compute; reflexivity|].
  eexists. split; [vm_compute; reflexivity|]. split; [reflexivity|].
  apply (no_start_tag_no_description (literalMatchers defaultConfig)
           noDescriptionText);
    vm_compute; reflexivity.
Defined.

(* ================================================================== *)
(** ** Further properties: the list createValuesObject returns *)
(* ================================================================== *)

Section FlattenFirst.

Variable L : Lib.
Variable valuesJSON : jsval.

(** What the loop emits: the parameter of a path is emitted when no
    earlier path and no earlier result has the same final name. *)
Lemma flattenLoop_first keys :
  forall i0 acc out,
    flattenLoop L valuesJSON keys i0 acc = Some out ->
    forall p,
      In p out <->
      (In p acc \/
       exists i k e,
         nth_error keys i = Some k /\
         flattenEntry L valuesJSON k = Some e /\
         p = entryParameter (i0 + i) e /\
         ~ In (entryPath e) (map name acc) /\
         forall j k' e',
           j < i -> nth_error keys j = Some k' ->
           flattenEntry L valuesJSON k' = Some e' ->
           entryPath e' <> entryPath e).
Proof.
  induction keys as [|k keys IH]; simpl; intros i0 acc out H p.
  - inversion H; subst. split; [auto|].
    intros [Hp|[i [k [e [Hn _]]]]]; [exact Hp|].
    destruct i; discriminate.
  - destruct (flattenEntry L valuesJSON k) as [e0|] eqn:E0; [|discriminate].
    set (acc' := if hasName (entryPath e0) acc then acc
                 else acc ++ [entryParameter i0 e0]) in *.
    assert (Hsub : forall x, In x acc -> In x acc').
    { intros x Hx. unfold acc'. destruct (hasName (entryPath e0) acc); [exact Hx|].
      apply in_or_app. auto. }
    assert (Hin0 : In (entryPath e0) (map name acc')).
    { unfold acc'. destruct (hasName (entryPath e0) acc) eqn:Hn.
      - apply hasName_true. exact Hn.
      - rewrite map_app. apply in_or_app. right. left. reflexivity. }
    rewrite (IH _ _ _ H p). split.
    + intros [Hp|[i [k1 [e [Hn [He [Hpe [Hnot Hfirst]]]]]]]].
      * unfold acc' in Hp. destruct (hasName (entryPath e0) acc) eqn:Hn; [auto|].
        apply in_app_or in Hp. destruct Hp as [Hp|[Hp|[]]]; [auto|].
        right. exists 0, k, e0. rewrite Nat.add_0_r.
        repeat split; auto.
        -- apply hasName_false. exact Hn.
        -- intros j k' e' Hj. lia.
      * right. exists (S i), k1, e. rewrite Nat.add_succ_r.
        repeat split; auto.
        -- intros Hx. apply Hnot. apply in_map_iff in Hx.
           destruct Hx as [x [Ex Hx]]. rewrite <- Ex. apply in_map. auto.
        -- intros j k' e' Hj Hn' He'.
           destruct j as [|j]; simpl in Hn'.
           ++ inversion Hn'; subst k'. assert (e' = e0) by congruence. subst e'.
              intros Eq. apply Hnot. rewrite <- Eq. exact Hin0.
           ++ apply (Hfirst j k' e'); [lia | assumption | assumption].
    + intros [Hp|[i [k1 [e [Hn [He [Hpe [Hnot Hfirst]]]]]]]]; [auto|].
      destruct i as [|i]; simpl in Hn.
      * inversion Hn; subst k1. assert (e = e0) by congruence. subst e.
        left. unfold acc'. apply hasName_false in Hnot. rewrite Hnot.
        apply in_or_app. right. left. rewrite Nat.add_0_r in Hpe. auto.
      * right. exists i, k1, e. rewrite Nat.add_succ_r in Hpe.
        repeat split; auto.
        -- unfold acc'. destruct (hasName (entryPath e0) acc); [exact Hnot|].
           rewrite map_app. intros Hx. apply in_app_or in Hx.
           destruct Hx as [Hx|[Hx|[]]]; [auto|].
           simpl in Hx. apply (Hfirst 0 k e0); [lia | reflexivity | exact E0 | exact Hx].
        -- intros j k' e' Hj Hn' He'.
           apply (Hfirst (S j) k' e'); [lia | exact Hn' | exact He'].
Qed.

Lemma flattenLoop_none keys :
  forall i acc k,
    In k keys -> flattenEntry L valuesJSON k = None ->
    flattenLoop L valuesJSON keys i acc = None.
Proof.
  induction keys as [|k0 keys IH]; simpl; intros i acc k Hk Hnone; [contradiction|].
  destruct Hk as [->|Hk].
  - rewrite Hnone. reflexivity.
  - destruct (flattenEntry L valuesJSON k0); [|reflexivity].
    eapply IH; eassumption.
Qed.

Lemma flattenEntry_none k :
  lookupValue L valuesJSON k = None \/
  (insideArray k = true /\
   match prefixArray L valuesJSON k with
   | Some v => isArrayValue v
   | None => false
   end = false) ->
  flattenEntry L valuesJSON k = None.
Proof.
  unfold flattenEntry, plainArrayStep, prefixArray.
  intros [Hl|[Hin Harr]]; [rewrite Hl; reflexivity|].
  destruct (lookupValue L valuesJSON k) as [[v r]|]; [|reflexivity].
  rewrite Hin.
  destruct (getArrayPrefix L k) as [prefix|]; [|reflexivity].
  destruct (arrayAt L valuesJSON prefix) as [[[| | | |elems|]|]|];
    try reflexivity.
  discriminate.
Qed.

Lemma forallb_false_exists (A : Type) (f : A -> bool) (l : list A) :
  forallb f l = false -> exists x, In x l /\ f x = false.
Proof.
  induction l as [|a l IH]; simpl; [discriminate|].
  intros H. apply andb_false_iff in H. destruct H as [H|H].
  - exists a. auto.
  - destruct (IH H) as [x [Hx Hf]]. exists x. auto.
Qed.

Lemma typeOf_tag v : In (typeOf v) typeTags.
Proof.
  unfold typeTags. destruct v as [[| | | | |]|]; simpl; auto 10.
Qed.

Lemma entry_type_value k e :
  flattenEntry L valuesJSON k = Some e ->
  In (entryType e) typeTags /\ entryValue e <> Some JNull.
Proof.
  intros H. destruct (flattenEntry_cases L valuesJSON k e H)
    as [v [r [_ [_ [[_ [_ [Hv Ht]]]
                   |[_ [_ [prefix [elems [_ [_ [_ [_ [Hv Ht]]]]]]]]]]]]]].
  - rewrite Hv, Ht. split.
    + unfold typeAfter. destruct (isArray (nilOf _));
        [unfold typeTags; simpl; auto 10 | apply typeOf_tag].
    + unfold nilOf. destruct v as [[| | | | |]|]; simpl; discriminate.
  - rewrite Hv, Ht. split; [unfold typeTags; simpl; auto 10 | discriminate].
Qed.

End FlattenFirst.

(** X15: the first flattened path of a name wins.  The returned list
    holds exactly the parameters of those flattened paths whose final
    name (the path itself, or the prefix of its array of strings) no
    earlier path ends in; the parameter of every later path with the same
    final name is dropped.  So the one parameter of an array of strings is
    made from the path of the array's first element. *)
Theorem first_path_of_a_name_wins :
  forall L valuesJSON out,
    createValuesObject L valuesJSON = Some out ->
    forall p,
      In p out <->
      exists i k e,
        nth_error (flatKeys L valuesJSON) i = Some k /\
        flattenEntry L valuesJSON k = Some e /\
        p = entryParameter i e /\
        forall j k' e',
          j < i -> nth_error (flatKeys L valuesJSON) j = Some k' ->
          flattenEntry L valuesJSON k' = Some e' ->
          entryPath e' <> entryPath e.
Proof.
  intros L t out H p. apply createValuesObject_flatKeys in H.
  rewrite (flattenLoop_first L t _ _ _ _ H p). split.
  - intros [[]|[i [k [e [Hn [He [Hp [_ Hf]]]]]]]]. exists i, k, e. auto.
  - intros [i [k [e [Hn [He [Hp Hf]]]]]]. right. exists i, k, e.
    repeat split; auto.
Qed.

Lemma first_path_of_a_name_wins_witness :
  exists out p,
    createValuesObject Ref.lib sampleTree = Some out /\
    out = p :: tl out /\
    name p = "hosts" /\ oid p = FromValue 0 /\
    (In p out <->
     exists i k e,
       nth_error (flatKeys Ref.lib sampleTree) i = Some k /\
       flattenEntry Ref.lib sampleTree k = Some e /\
       p = entryParameter i e /\
       forall j k' e',
         j < i -> nth_error (flatKeys Ref.lib sampleTree) j = Some k' ->
         flattenEntry Ref.lib sampleTree k' = Some e' ->
         entryPath e' <> entryPath e).
Proof.
  eexists. eexists.
  split; [vm_compute; reflexivity|].
  split; [reflexivity|]. split; [reflexivity|]. split; [reflexivity|].
  apply (first_path_of_a_name_wins Ref.lib sampleTree).
  vm_compute. reflexivity.
Defined.

(** X16: the type of a returned parameter is one of "undefined",
    "object", "boolean", "number", "string" and "array" (so never "nil"),
    and its value is never null. *)
Theorem flattened_types_and_values :
  forall L valuesJSON out,
    createValuesObject L valuesJSON = Some out ->
    forall p,
      In p out ->
      (exists t, type p = Some t /\ In t typeTags) /\
      type p <> Some "nil" /\
      pvalue p <> Some JNull.
Proof.
  intros L t out H p Hp. apply createValuesObject_flatKeys in H.
  destruct (flattenLoop_sound L t _ _ _ _ H p Hp)
    as [[]|[k [e [j [Hk [He ->]]]]]].
  destruct (entry_type_value L t k e He) as [Ht Hv].
  simpl. split; [eauto|]. split; [|exact Hv].
  intros E. inversion E as [E']. rewrite E' in Ht.
  unfold typeTags in Ht. simpl in Ht.
  repeat (destruct Ht as [Ht|Ht]; [discriminate|]). exact Ht.
Qed.

Lemma flattened_types_and_values_witness :
  exists out,
    createValuesObject Ref.lib sampleTree = Some out /\
    map type out = [Some "array"; Some "number"; Some "string"; Some "object"] /\
    forall p,
      In p out ->
      (exists t, type p = Some t /\ In t typeTags) /\
      type p <> Some "nil" /\
      pvalue p <> Some JNull.
Proof.
  eexists. split; [vm_compute; reflexivity|]. split; [reflexivity|].
  apply (flattened_types_and_values Ref.lib sampleTree).
  vm_compute. reflexivity.
Defined.

(** X17: when [createValuesObject] throws.  The call throws exactly when
    a collaborator throws on a call the function makes ([dot.dot] on the
    tree, [utils.getArrayPath] in the look-up of a flattened path, or
    [utils.getArrayPrefix] and [utils.getArrayPath] for a path with a
    bracket), or when, for some flattened path with a bracket, the look-up
    of line 319 does not yield an array, so that [forEach] is called on
    something else.  In every other case it returns a list. *)
Theorem createValuesObject_throws_iff :
  forall L valuesJSON,
    createValuesObject L valuesJSON = None <->
    collaboratorsReturn L valuesJSON = false \/
    arraysResolve L valuesJSON = false.
Proof.
  intros L t. split.
  - intros H.
    destruct (collaboratorsReturn L t) eqn:Er; [|auto].
    destruct (arraysResolve L t) eqn:Ea; [|auto].
    destruct (createValuesObject_total L t Er Ea) as [out Hout]. congruence.
  - intros H.
    destruct (dotDot L t) as [props|] eqn:Ed;
      [|unfold createValuesObject; rewrite Ed; reflexivity].
    assert (X : exists k, In k (flatKeys L t) /\ flattenEntry L t k = None).
    { destruct H as [H|H].
      - unfold collaboratorsReturn in H. rewrite Ed in H. simpl in H.
        destruct (forallb_false_exists _ _ _ H) as [k [Hk Hf]].
        exists k. split; [exact Hk|]. apply flattenEntry_none.
        apply andb_false_iff in Hf. destruct Hf as [Hf|Hf].
        + left. destruct (lookupValue L t k); [discriminate | reflexivity].
        + right. apply orb_false_iff in Hf. destruct Hf as [Hin Hp].
          apply negb_false_iff in Hin. split; [exact Hin|].
          destruct (prefixArray L t k); [discriminate | reflexivity].
      - unfold arraysResolve in H.
        destruct (forallb_false_exists _ _ _ H) as [k [Hk Hf]].
        exists k. split; [exact Hk|]. apply flattenEntry_none. right.
        apply orb_false_iff in Hf. destruct Hf as [Hin Hp].
        apply negb_false_iff in Hin. split; [exact Hin|].
        destruct (prefixArray L t k); [exact Hp | reflexivity]. }
    destruct X as [k [Hk Hnone]].
    unfold createValuesObject. unfold flatKeys in Hk. rewrite Ed in *.
    eapply flattenLoop_none; eassumption.
Qed.

(* ================================================================== *)
(** ** Further properties: the modifiers of a tag *)
(* ================================================================== *)

Section Modifiers.

Lemma rev_involutive (s : string) : JsString.rev (JsString.rev s) = s.
Proof.
  induction s as [|a s IH]; simpl; [reflexivity|].
  rewrite rev_snoc, IH. reflexivity.
Qed.

Lemma trimStart_shape (s : string) :
  JsString.trimStart s = ""%string \/
  exists c t, JsString.trimStart s = String c t /\ JsString.isSpace c = false.
Proof.
  induction s as [|a s IH]; simpl; [auto|].
  destruct (JsString.isSpace a) eqn:E; [exact IH|]. right. eauto.
Qed.

Lemma trimStart_idem (s : string) :
  JsString.trimStart (JsString.trimStart s) = JsString.trimStart s.
Proof.
  destruct (trimStart_shape s) as [->|[c [t [-> Hc]]]]; simpl; [reflexivity|].
  rewrite Hc. reflexivity.
Qed.

Lemma trim_idem (s : string) : JsString.trim (JsString.trim s) = JsString.trim s.
Proof.
  unfold JsString.trim.
  assert (H : JsString.trimStart (JsString.trimEnd (JsString.trimStart s))
              = JsString.trimEnd (JsString.trimStart s)).
  { destruct (trimStart_shape s) as [->|[c [t [-> Hc]]]]; [reflexivity|].
    destruct (trimEnd_head c t Hc) as [t' ->]. simpl. rewrite Hc. reflexivity. }
  rewrite H. unfold JsString.trimEnd.
  rewrite rev_involutive, trimStart_idem. reflexivity.
Qed.

Lemma hasChar_app a (s t : string) :
  hasChar a (s ++ t) = hasChar a s || hasChar a t.
Proof.
  induction s as [|b s IH]; simpl; [reflexivity|].
  rewrite IH, orb_assoc. reflexivity.
Qed.

Lemma hasChar_rev a (s : string) : hasChar a (JsString.rev s) = hasChar a s.
Proof.
  induction s as [|b s IH]; simpl; [reflexivity|].
  rewrite hasChar_app, IH. simpl. rewrite orb_false_r. apply orb_comm.
Qed.

Lemma hasChar_trimStart a (s : string) :
  hasChar a s = false -> hasChar a (JsString.trimStart s) = false.
Proof.
  induction s as [|b s IH]; simpl; [auto|].
  intros H. apply orb_false_iff in H. destruct H as [H1 H2].
  destruct (JsString.isSpace b); [auto|]. simpl. rewrite H1, H2. reflexivity.
Qed.

Lemma hasChar_trim a (s : string) :
  hasChar a s = false -> hasChar a (JsString.trim s) = false.
Proof.
  intros H. unfold JsString.trim, JsString.trimEnd.
  rewrite hasChar_rev. apply hasChar_trimStart.
  rewrite hasChar_rev. apply hasChar_trimStart. exact H.
Qed.

Lemma split_no_separator sep (s : string) :
  Forall (fun piece => hasChar sep piece = false) (JsString.split sep s).
Proof.
  induction s as [|a s IH]; simpl.
  - repeat constructor.
  - destruct (Ascii.eqb a sep) eqn:E.
    + constructor; [reflexivity | exact IH].
    + destruct (JsString.split sep s) as [|piece rest].
      * repeat constructor. simpl. rewrite E. reflexivity.
      * inversion IH; subst. constructor; [|assumption].
        simpl. rewrite E. assumption.
Qed.

Lemma modifierList_clean (m x : string) :
  In x (modifierList m) ->
  cleanModifier x /\
  exists piece,
    In piece (JsString.split "," m) /\ piece <> ""%string /\
    x = JsString.trim piece.
Proof.
  unfold modifierList. intros H. apply in_map_iff in H.
  destruct H as [piece [<- H]]. apply filter_In in H. destruct H as [Hin Hne].
  split.
  - split; [apply trim_idem|]. apply hasChar_trim.
    pose proof (split_no_separator "," m) as F. rewrite Forall_forall in F.
    apply F. exact Hin.
  - exists piece. repeat split; auto.
    intros ->. discriminate.
Qed.

Lemma attach_parameters_modifiers p st :
  exists p', parameters (parsedValues (attach p st))
             = parameters (parsedValues st) ++ [p']
             /\ modifiers p' = modifiers p.
Proof.
  unfold attach. repeat break_match; simpl; eauto.
Qed.

Lemma scanLine_clean M next i line st st' :
  cleanState st /\ (forall p, pendingParam st = Some p -> cleanModifiers p) ->
  scanLine M next i line st = Some st' ->
  cleanState st' /\ (forall p, pendingParam st' = Some p -> cleanModifiers p).
Proof.
  apply (scanLine_keeps M line
           (fun s => cleanState s /\
                     forall p, pendingParam s = Some p -> cleanModifiers p)
           cleanModifiers); auto.
  - intros id n l Hl. discriminate.
  - intros m p _ l Hl. simpl in Hl. inversion Hl; subst l.
    apply Forall_forall. intros x Hx. apply (modifierList_clean m x Hx).
  - intros s p [_ Hp]. apply Hp.
  - intros p s Hq [Hs Hp].
    destruct (attach_parameters_modifiers p s) as [p' [E Em]].
    split.
    + unfold cleanState. rewrite E. apply Forall_app. split; [exact Hs|].
      constructor; [|constructor]. unfold cleanModifiers. rewrite Em. exact Hq.
    + intros q Hq'. apply Hp. rewrite <- Hq'. symmetry.
      unfold attach. repeat break_match; reflexivity.
  - intros s [Hs _]. split; [exact Hs|]. intros p Hp. discriminate.
  - intros p s Hq [Hs _]. split; [exact Hs|]. intros q Hq'.
    simpl in Hq'. inversion Hq'; subst q. exact Hq.
  - intros l s _ [Hs Hp]. split.
    + unfold cleanState. rewrite addDescriptionLine_parameters. exact Hs.
    + intros q Hq'. apply Hp. rewrite <- Hq'. symmetry.
      unfold addDescriptionLine. break_match; reflexivity.
Qed.

End Modifiers.

(** X18: the modifiers the scan records are trimmed.  Every modifier of
    every parameter of the returned metadata has no white space at either
    end and holds no comma.  (The empty items between commas are dropped
    before the trimming: in the example that follows, the item of one
    space is recorded as the empty string.) *)
Theorem recorded_modifiers_are_trimmed :
  forall M data md,
    parseMetadataComments M data = Some md ->
    forall p l x,
      In p (parameters md) -> modifiers p = Some l -> In x l ->
      JsString.trim x = x /\ hasChar "," x = false.
Proof.
  intros M data md H p l x Hp Hl Hx. unfold parseMetadataComments in H.
  set (lines := splitLines data) in *.
  destruct (scanPrefix M lines (List.length lines)) as [st|] eqn:E;
    [|discriminate].
  simpl in H. inversion H; subst md. clear H.
  assert (G : cleanState st /\
              forall q, pendingParam st = Some q -> cleanModifiers q).
  { apply (scanPrefix_invariant M lines
             (fun s => cleanState s /\
                       forall q, pendingParam s = Some q -> cleanModifiers q))
      with (n := List.length lines); [| |exact E].
    - split; [constructor|]. intros q Hq. discriminate.
    - intros next i line s s'. apply scanLine_clean. }
  destruct G as [G _]. unfold cleanState in G. rewrite Forall_forall in G.
  specialize (G p Hp l Hl). rewrite Forall_forall in G. apply (G x Hx).
Qed.

Lemma recorded_modifiers_are_trimmed_witness :
  exists md p,
    parseMetadataComments (literalMatchers defaultConfig) blankModifierText
      = Some md /\
    parameters md = [p] /\
    modifiers p = Some ["string"; ""] /\
    forall x, In x ["string"; ""] ->
              JsString.trim x = x /\ hasChar "," x = false.
Proof.
  eexists. eexists.
  split; [vm_compute; reflexivity|].
  split; [reflexivity|]. split; [reflexivity|].
  intros x Hx.
  eapply (recorded_modifiers_are_trimmed (literalMatchers defaultConfig)
            blankModifierText).
  - vm_compute. reflexivity.
  - left. reflexivity.
  - reflexivity.
  - exact Hx.
Defined.

(** X19: with a configuration of literal strings
    [parseMetadataComments] throws on no input: the modifier expressions
    of lines 116 and 237, the only ones of the scan that can throw, are
    applied to a bracket group that, when captured, begins with an opening
    bracket. *)
Theorem scan_never_throws :
  forall cfg data,
    exists md, parseMetadataComments (literalMatchers cfg) data = Some md.
Proof.
  intros cfg data. unfold parseMetadataComments.
  destruct (scanPrefix_total (literalMatchers cfg) (splitLines data)
              (literal_linesScannable cfg _)
              (List.length (splitLines data))) as [st H].
  rewrite H. simpl. eauto.
Qed.

(* ================================================================== *)
(** ** Further properties: what parseYamlLine takes for a key *)
(* ================================================================== *)

Section YamlKeyPattern.

Variable A : Type.

Lemma run_cat r1 r2 s c (k : string -> caps -> option A) :
  run (Cat r1 r2) s c k = run r1 s c (fun s' c' => run r2 s' c' k).
Proof. reflexivity. Qed.

Lemma run_grp n r1 s c (k : string -> caps -> option A) :
  run (Grp n r1) s c k
  = run r1 s c (fun s' c' => k s' ((n, consumed s s') :: c')).
Proof. reflexivity. Qed.

Lemma run_chr_cons p a s c (k : string -> caps -> option A) :
  run (Chr p) (String a s) c k = if p a then k s c else None.
Proof. reflexivity. Qed.


(** The greedy [\s*] before a continuation that, failing on a text, fails
    on the text with one more white space in front: the continuation runs
    on the text without its leading white space. *)
Lemma run_greedy_ws s c (k : string -> caps -> option A) :
  (forall a s', JsString.isSpace a = true ->
                k s' c = None -> k (String a s') c = None) ->
  run (Star true ws) s c k = k (JsString.trimStart s) c.
Proof.
  intros Hk.
  assert (Hback : forall s0, k (JsString.trimStart s0) c = None -> k s0 c = None).
  { induction s0 as [|a s0 IH]; simpl; [auto|].
    destruct (JsString.isSpace a) eqn:Ea; [|auto].
    intros H. apply Hk; auto. }
  unfold ws. cbn [run].
  match goal with
  | |- ?f (String.length s) s c = _ =>
      assert (G : forall fuel s0, String.length s0 <= fuel ->
                    f fuel s0 c = k (JsString.trimStart s0) c)
  end.
  { induction fuel as [|fuel IH]; intros s0 Hl.
    - destruct s0; [reflexivity | simpl in Hl; lia].
    - destruct s0 as [|a s0]; [reflexivity|].
      cbv zeta. cbn [run]. simpl in Hl.
      destruct (JsString.isSpace a) eqn:Ea.
      + replace (String.length s0 <? String.length (String a s0)) with true
          by (symmetry; apply Nat.ltb_lt; simpl; lia).
        rewrite IH by lia. simpl JsString.trimStart. rewrite Ea.
        destruct (k (JsString.trimStart s0) c) eqn:Ek; [reflexivity|].
        apply Hk; [exact Ea | apply Hback; exact Ek].
      + simpl JsString.trimStart. rewrite Ea. reflexivity. }
  apply G. lia.
Qed.

(** The lazy [[^:]*?] before a continuation that fails unless the text
    begins with a colon: the continuation runs at the first colon. *)
Lemma run_lazy_notColon s c (k : string -> caps -> option A) :
  (forall s', (forall t, s' <> String ":" t) -> k s' c = None) ->
  run (Star false (notChr ":")) s c k
  = if hasChar ":" s then k (String ":" (afterChar ":" s)) c else None.
Proof.
  intros Hk. unfold notChr. cbn [run].
  match goal with
  | |- ?f (String.length s) s c = _ =>
      assert (G : forall fuel s0, String.length s0 <= fuel ->
                    f fuel s0 c
                    = if hasChar ":" s0
                      then k (String ":" (afterChar ":" s0)) c else None)
  end.
  { induction fuel as [|fuel IH]; intros s0 Hl.
    - destruct s0; [|simpl in Hl; lia]. simpl.
      apply Hk. intros t. discriminate.
    - destruct s0 as [|a s0].
      + cbv zeta. cbn [run]. simpl.
        rewrite Hk by (intros t; discriminate). reflexivity.
      + cbv zeta. cbn [run]. simpl in Hl. simpl hasChar. simpl afterChar.
        rewrite (Ascii.eqb_sym ":" a).
        destruct (Ascii.eqb a ":") eqn:Ea.
        * apply Ascii.eqb_eq in Ea. subst a. simpl.
          destruct (k (String ":" s0) c); reflexivity.
        * rewrite Hk.
          2:{ intros t E. inversion E; subst a.
              rewrite Ascii.eqb_refl in Ea. discriminate. }
          simpl.
          replace (String.length s0 <? S (String.length s0)) with true
            by (symmetry; apply Nat.ltb_lt; lia).
          apply IH. lia. }
  apply G. lia.
Qed.

End YamlKeyPattern.

Section YamlKeyShape.

Lemma consumed_all (s : string) : consumed s "" = s.
Proof.
  unfold consumed. simpl. rewrite Nat.sub_0_r.
  induction s as [|a s IH]; simpl; [reflexivity|]. rewrite IH. reflexivity.
Qed.

Lemma string_length_app (a b : string) :
  String.length (a ++ b) = String.length a + String.length b.
Proof.
  induction a as [|x a IH]; simpl; [reflexivity|]. rewrite IH. reflexivity.
Qed.

Lemma consumed_app (a b : string) : consumed (a ++ b) b = a.
Proof.
  unfold consumed. rewrite string_length_app.
  replace (String.length a + String.length b - String.length b)
    with (String.length a) by lia.
  induction a as [|x a IH]; simpl.
  - destruct b; reflexivity.
  - rewrite IH. reflexivity.
Qed.

Lemma leadingSpace_trimStart (s : string) :
  (leadingSpace s ++ JsString.trimStart s)%string = s.
Proof.
  induction s as [|a s IH]; simpl; [reflexivity|].
  destruct (JsString.isSpace a); simpl; [rewrite IH|]; reflexivity.
Qed.

Lemma beforeChar_afterChar (a : ascii) (s : string) :
  hasChar a s = true ->
  (beforeChar a s ++ String a (afterChar a s))%string = s.
Proof.
  induction s as [|b s IH]; simpl; [discriminate|].
  destruct (Ascii.eqb b a) eqn:E; simpl.
  - intros _. apply Ascii.eqb_eq in E. subst b. reflexivity.
  - intros H. rewrite IH by exact H. reflexivity.
Qed.

(** The value part of the pattern: the dots reach the end of the line
    when no line terminator is in the way. *)
Lemma run_value_part (s : string) (c : caps) :
  run (Grp 3 (Star true dot) >> Eoi)%re s c (fun _ c' => Some c')
  = if hasTerminator s then None else Some ((3, s) :: c).
Proof.
  rewrite run_cat, run_grp. unfold dot. cbn [run].
  match goal with
  | |- ?f (String.length s) s c = _ =>
      assert (G : forall fuel s0, String.length s0 <= fuel ->
                    f fuel s0 c
                    = if hasTerminator s0 then None
                      else Some ((3, consumed s "") :: c))
  end.
  { induction fuel as [|fuel IH]; intros s0 Hl.
    - destruct s0; [reflexivity | simpl in Hl; lia].
    - destruct s0 as [|a s0]; [reflexivity|].
      cbv zeta. cbn [run]. simpl in Hl. simpl hasTerminator.
      destruct (JsString.isLineTerminator a); simpl; [reflexivity|].
      replace (String.length s0 <? S (String.length s0)) with true
        by (symmetry; apply Nat.ltb_lt; lia).
      rewrite IH by lia.
      destruct (hasTerminator s0); reflexivity. }
  rewrite G by lia. rewrite consumed_all. reflexivity.
Qed.

(** What the pattern of [parseYamlLine] matches and captures, read
    character by character. *)
Lemma exec_yamlKeyRegex (line : string) :
  exec yamlKeyRegex line
  = match JsString.trimStart line with
    | EmptyString => None
    | String c r =>
        if Ascii.eqb c "#" then None
        else if hasChar ":" r
             then if hasTerminator (JsString.trimStart (afterChar ":" r))
                  then None
                  else Some (yamlCaptures line c r)
             else None
    end.
Proof.
  unfold exec, yamlKeyRegex.
  rewrite run_cat, run_grp, run_greedy_ws.
  2:{ intros a s' Ha _. rewrite run_cat, run_grp, run_cat, run_chr_cons.
      rewrite Ha, orb_true_r. reflexivity. }
  pose proof (leadingSpace_trimStart line) as Hline.
  destruct (trimStart_shape line) as [E|[c [r [E Hc]]]]; rewrite E in *.
  - reflexivity.
  - rewrite run_cat, run_grp, run_cat, run_chr_cons.
    rewrite Hc, orb_false_r.
    destruct (Ascii.eqb c "#"); [reflexivity|]. simpl negb. cbv iota.
    rewrite run_lazy_notColon.
    2:{ intros s' Hs'. rewrite run_cat. unfold chr.
        destruct s' as [|b t]; [reflexivity|].
        rewrite run_chr_cons.
        destruct (Ascii.eqb ":" b) eqn:Eb; [|reflexivity].
        apply Ascii.eqb_eq in Eb. subst b. exfalso. apply (Hs' t). reflexivity. }
    destruct (hasChar ":" r) eqn:Hcolon; [|reflexivity].
    rewrite run_cat. unfold chr at 1. rewrite run_chr_cons. simpl Ascii.eqb.
    cbv iota. rewrite run_cat, run_greedy_ws.
    2:{ intros a s' Ha. rewrite !run_value_part. simpl hasTerminator.
        destruct (hasTerminator s'); [|discriminate].
        rewrite orb_true_r. reflexivity. }
    rewrite run_value_part.
    destruct (hasTerminator (JsString.trimStart (afterChar ":" r)));
      [reflexivity|].
    unfold yamlCaptures.
    rewrite <- Hline at 1. rewrite consumed_app.
    pose proof (beforeChar_afterChar ":" r Hcolon) as Hr.
    assert (Hg : consumed (String c r) (String ":" (afterChar ":" r))
                 = String c (beforeChar ":" r)).
    { rewrite <- Hr at 1.
      apply (consumed_app (String c (beforeChar ":" r))
                          (String ":" (afterChar ":" r))). }
    rewrite Hg. reflexivity.
Qed.

End YamlKeyShape.

Section YamlKeyResult.

Lemma trim_trimStart (s : string) :
  JsString.trim (JsString.trimStart s) = JsString.trim s.
Proof. unfold JsString.trim. rewrite trimStart_idem. reflexivity. Qed.

(** [parseYamlLine] without the pattern: the result read off the
    characters of the line. *)
Lemma parseYamlLine_shape (line : string) :
  parseYamlLine line
  = match JsString.trimStart line with
    | EmptyString => notYamlKey
    | String c r =>
        if Ascii.eqb c "#" then notYamlKey
        else if hasChar ":" r
             then if hasTerminator (JsString.trimStart (afterChar ":" r))
                  then notYamlKey
                  else
                    let value := JsString.trim (afterChar ":" r) in
                    mkYamlInfo true (String.length (leadingSpace line))
                      (JsString.trim (String c (beforeChar ":" r)))
                      value
                      (negb (String.eqb value "")
                       && negb (String.eqb value "{}")
                       && negb (String.eqb value "[]"))
             else notYamlKey
    end.
Proof.
  unfold parseYamlLine. rewrite exec_yamlKeyRegex.
  destruct (trimStart_shape line) as [E|[c [r [E Hc]]]].
  - rewrite E. reflexivity.
  - rewrite E.
    destruct (Ascii.eqb c "#") eqn:Ec; [reflexivity|].
    destruct (hasChar ":" r); [|reflexivity].
    destruct (hasTerminator (JsString.trimStart (afterChar ":" r)));
      [reflexivity|].
    unfold yamlCaptures. cbn [group Nat.eqb orEmpty].
    rewrite trim_trimStart.
    assert (Hcomment : JsString.startsWith (JsString.trim line) "#" = false).
    { unfold JsString.trim. rewrite E.
      destruct (trimEnd_head c r Hc) as [t ->].
      unfold JsString.startsWith. cbn [JsString.stripPrefix].
      rewrite (Ascii.eqb_sym "#" c), Ec. reflexivity. }
    rewrite Hcomment. reflexivity.
Qed.

End YamlKeyResult.

(** X20: the lines [parseYamlLine] takes for a key.  A line is reported
    as a key exactly when its first character after the leading white
    space is not '#', a colon follows that character, and no carriage
    return or line feed stands in the text after the first such colon and
    the white space behind it.  (The first character may itself be a
    colon: it is then part of the key.) *)
Theorem yaml_key_lines :
  forall line,
    isYamlKey (parseYamlLine line) = true <->
    exists c r,
      JsString.trimStart line = String c r /\
      c <> "#"%char /\
      hasChar ":" r = true /\
      hasTerminator (JsString.trimStart (afterChar ":" r)) = false.
Proof.
  intros line. rewrite parseYamlLine_shape. split.
  - destruct (JsString.trimStart line) as [|c r]; [discriminate|].
    destruct (Ascii.eqb c "#") eqn:Ec; [discriminate|].
    destruct (hasChar ":" r) eqn:Hcolon; [|discriminate].
    destruct (hasTerminator (JsString.trimStart (afterChar ":" r))) eqn:Ht;
      [discriminate|].
    intros _. exists c, r. repeat split; auto.
    intros ->. discriminate.
  - intros [c [r [E [Hc [Hcolon Ht]]]]]. rewrite E.
    destruct (Ascii.eqb c "#") eqn:Ec;
      [apply Ascii.eqb_eq in Ec; contradiction|].
    rewrite Hcolon, Ht. reflexivity.
Qed.

(** X21: the fields of a key line.  When a line is reported as a key,
    the indentation is the number of white space characters the line
    begins with, the key is the trimmed text from the first other
    character up to the first colon after it, and the value is the
    trimmed text after that colon; the key begins with that first
    character, so it is never empty. *)
Theorem yaml_key_fields :
  forall line,
    isYamlKey (parseYamlLine line) = true ->
    exists c r t,
      JsString.trimStart line = String c r /\
      indent (parseYamlLine line) = String.length (leadingSpace line) /\
      key (parseYamlLine line) = JsString.trim (String c (beforeChar ":" r)) /\
      key (parseYamlLine line) = String c t /\
      value (parseYamlLine line) = JsString.trim (afterChar ":" r).
Proof.
  intros line. rewrite parseYamlLine_shape.
  destruct (trimStart_shape line) as [E|[c [r [E Hc]]]]; rewrite E;
    [discriminate|].
  destruct (Ascii.eqb c "#"); [discriminate|].
  destruct (hasChar ":" r); [|discriminate].
  destruct (hasTerminator (JsString.trimStart (afterChar ":" r)));
    [discriminate|].
  intros _. cbv zeta. cbn [indent key value].
  assert (Hk : exists t, JsString.trim (String c (beforeChar ":" r)) = String c t).
  { unfold JsString.trim. simpl JsString.trimStart. rewrite Hc.
    apply trimEnd_head. exact Hc. }
  destruct Hk as [t Ht].
  exists c, r, t. repeat split; auto.
Qed.

Lemma yaml_key_fields_witness :
  isYamlKey (parseYamlLine "  image tag : nginx:1.2 ") = true /\
  indent (parseYamlLine "  image tag : nginx:1.2 ") = 2 /\
  key (parseYamlLine "  image tag : nginx:1.2 ") = "image tag" /\
  value (parseYamlLine "  image tag : nginx:1.2 ") = "nginx:1.2" /\
  exists c r t,
    JsString.trimStart "  image tag : nginx:1.2 " = String c r /\
    indent (parseYamlLine "  image tag : nginx:1.2 ")
    = String.length (leadingSpace "  image tag : nginx:1.2 ") /\
    key (parseYamlLine "  image tag : nginx:1.2 ")
    = JsString.trim (String c (beforeChar ":" r)) /\
    key (parseYamlLine "  image tag : nginx:1.2 ") = String c t /\
    value (parseYamlLine "  image tag : nginx:1.2 ")
    = JsString.trim (afterChar ":" r).
Proof.
  split; [vm_compute; reflexivity|].
  split; [vm_compute; reflexivity|].
  split; [vm_compute; reflexivity|].
  split; [vm_compute; reflexivity|].
  apply (yaml_key_fields "  image tag : nginx:1.2 ").
  vm_compute. reflexivity.
Defined.

(** X22: the comment test of [parseYamlLine] never decides.  On every
    line the pattern matches, the trimmed line does not begin with '#',
    so [isYamlKey] is true exactly when the pattern matches. *)
Theorem yaml_comment_test_never_decides :
  forall line,
    isYamlKey (parseYamlLine line)
    = match exec yamlKeyRegex line with Some _ => true | None => false end.
Proof.
  intros line. rewrite parseYamlLine_shape, exec_yamlKeyRegex.
  destruct (JsString.trimStart line) as [|c r]; [reflexivity|].
  destruct (Ascii.eqb c "#"); [reflexivity|].
  destruct (hasChar ":" r); [|reflexivity].
  destruct (hasTerminator (JsString.trimStart (afterChar ":" r)));
    reflexivity.
Qed.

(* ================================================================== *)
(** ** Further properties: the dotted path and the order of the list *)
(* ================================================================== *)

Section DottedPath.

Lemma split_single sep (p : string) :
  hasChar sep p = false -> JsString.split sep p = [p].
Proof.
  induction p as [|a p IH]; simpl; [reflexivity|].
  intros H. apply orb_false_iff in H. destruct H as [Ha Hp].
  rewrite Ha, (IH Hp). reflexivity.
Qed.

Lemma split_app_sep sep (p rest : string) :
  hasChar sep p = false ->
  JsString.split sep (p ++ String sep rest) = p :: JsString.split sep rest.
Proof.
  induction p as [|a p IH]; simpl.
  - intros _. rewrite Ascii.eqb_refl. reflexivity.
  - intros H. apply orb_false_iff in H. destruct H as [Ha Hp].
    rewrite Ha, (IH Hp). reflexivity.
Qed.

Lemma split_join_dot (p : string) (ps : list string) :
  Forall (fun k => hasChar "." k = false) (p :: ps) ->
  JsString.split "." (JsString.join "." (p :: ps)) = p :: ps.
Proof.
  revert p. induction ps as [|q ps IH]; intros p H.
  - inversion H; subst. apply split_single. assumption.
  - inversion H; subst. rewrite join_cons.
    change ("." ++ JsString.join "." (q :: ps))%string
      with (String "." (JsString.join "." (q :: ps))).
    rewrite split_app_sep by assumption.
    rewrite IH by assumption. reflexivity.
Qed.



End DottedPath.

(** X23: the dotted path keeps the stack only when no key holds a dot.
    For a stack that is not empty and whose keys hold no dot, splitting
    what [buildCurrentPath] returns at the dots gives the stack back. *)
Theorem buildCurrentPath_round_trip :
  forall pathStack,
    pathStack <> [] ->
    Forall (fun k => hasChar "." k = false) pathStack ->
    JsString.split "." (buildCurrentPath pathStack) = pathStack.
Proof.
  intros ps Hne Hall. destruct ps as [|p ps]; [congruence|].
  unfold buildCurrentPath. simpl Nat.ltb. cbv iota.
  apply split_join_dot. exact Hall.
Qed.

Lemma buildCurrentPath_round_trip_witness :
  buildCurrentPath ["image"; "pull"; "policy"] = "image.pull.policy" /\
  JsString.split "." (buildCurrentPath ["image"; "pull"; "policy"])
  = ["image"; "pull"; "policy"] /\
  JsString.split "." (buildCurrentPath ["prometheus.io/scrape"])
  = ["prometheus"; "io/scrape"].
Proof.
  split; [reflexivity|]. split; [|reflexivity].
  apply (buildCurrentPath_round_trip ["image"; "pull"; "policy"]).
  - discriminate.
  - repeat constructor.
Defined.



(* ================================================================== *)
(** ** The pending slot holds one object *)
(* ================================================================== *)

Section PendingSlot.

Variable M : Matchers.

Lemma stepParam_slot next i line st st' :
  stepParam M next i line st = Some st' ->
  pendingParam st' =
    if tagPathless M TagParam line
    then if nextIsKey next then None else pathlessObject M i TagParam line
    else pendingParam st.
Proof.
  unfold stepParam, tagPathless, pathlessObject.
  destruct (paramRegex M line) as [m|]; [|intros H; some_inv; reflexivity].
  destruct (modifiersText (modifiersGroup m)) as [mods|]; [|discriminate].
  destruct (truthy (explicitPathGroup m)); intros H; some_inv; simpl negb;
    cbv iota.
  - apply attach_pending.
  - apply lookAhead_pending.
Qed.

Lemma stepSkip_slot next i line st :
  pendingParam (stepSkip M next i line st) =
    if tagPathless M TagSkip line
    then if nextIsKey next then None else pathlessObject M i TagSkip line
    else pendingParam st.
Proof.
  unfold stepSkip, tagPathless, pathlessObject.
  destruct (skipRegex M line) as [[explicitPath text]|]; [|reflexivity].
  destruct (truthy explicitPath); simpl negb; cbv iota.
  - apply attach_pending.
  - apply lookAhead_pending.
Qed.

Lemma stepExtra_slot next i line st st' :
  stepExtra M next i line st = Some st' ->
  pendingParam st' =
    if tagPathless M TagExtra line
    then if nextIsKey next then None else pathlessObject M i TagExtra line
    else pendingParam st.
Proof.
  unfold stepExtra, tagPathless, pathlessObject.
  destruct (extraRegex M line) as [m|]; [|intros H; some_inv; reflexivity].
  destruct (modifiersText (modifiersGroup m)) as [mods|]; [|discriminate].
  destruct (truthy (explicitPathGroup m)); intros H; some_inv; simpl negb;
    cbv iota.
  - apply attach_pending.
  - apply lookAhead_pending.
Qed.

(** The slot after a line: what the last tag without a path left in it,
    or, when the line has none, what path tracking left. *)
Lemma scanLine_slot next i line st st' :
  scanLine M next i line st = Some st' ->
  pendingParam st' =
    match lastPathless M line with
    | Some kind =>
        if nextIsKey next then None else pathlessObject M i kind line
    | None =>
        if isYamlKey (parseYamlLine line) then None else pendingParam st
    end.
Proof.
  unfold scanLine, lastPathless. intros H.
  destruct (stepParam M next i line (stepYaml line st)) as [st2|] eqn:E2;
    [|discriminate].
  rewrite (stepExtra_slot _ _ _ _ _ H).
  destruct (tagPathless M TagExtra line); [reflexivity|].
  rewrite stepSkip_slot.
  destruct (tagPathless M TagSkip line); [reflexivity|].
  destruct (neutralSteps_effect M line st2) as [_ Hn]. cbv zeta in Hn.
  rewrite Hn. rewrite (stepParam_slot _ _ _ _ _ E2).
  destruct (tagPathless M TagParam line); [reflexivity|].
  apply stepYaml_effect.
Qed.

Lemma pathlessObject_oid i kind line q :
  pathlessObject M i kind line = Some q ->
  oid q = FromTag i kind /\ name q = ""%string.
Proof.
  unfold pathlessObject. destruct kind.
  - destruct (paramRegex M line) as [m|]; [|discriminate].
    destruct (modifiersText (modifiersGroup m)); [|discriminate].
    intros H; some_inv. split; reflexivity.
  - destruct (skipRegex M line) as [[e t]|]; [|discriminate].
    intros H; some_inv. split; reflexivity.
  - destruct (extraRegex M line) as [m|]; [|discriminate].
    destruct (modifiersText (modifiersGroup m)); [|discriminate].
    intros H; some_inv. split; reflexivity.
Qed.

(** On a line the scan returns on, the last pathless tag makes an
    object. *)
Lemma lastPathless_object next i line st st' kind :
  scanLine M next i line st = Some st' ->
  tagPathless M kind line = true ->
  exists kind' q,
    lastPathless M line = Some kind' /\ pathlessObject M i kind' line = Some q.
Proof.
  unfold scanLine. intros H Hless.
  destruct (stepParam M next i line (stepYaml line st)) as [st2|] eqn:E2;
    [|discriminate].
  assert (Hp : tagPathless M TagParam line = true ->
               exists q, pathlessObject M i TagParam line = Some q).
  { unfold tagPathless, pathlessObject. revert E2. unfold stepParam.
    destruct (paramRegex M line) as [m|]; [|discriminate].
    destruct (modifiersText (modifiersGroup m)); [eauto|discriminate]. }
  assert (Hs : tagPathless M TagSkip line = true ->
               exists q, pathlessObject M i TagSkip line = Some q).
  { unfold tagPathless, pathlessObject.
    destruct (skipRegex M line) as [[e t]|]; [eauto|discriminate]. }
  assert (Hx : tagPathless M TagExtra line = true ->
               exists q, pathlessObject M i TagExtra line = Some q).
  { unfold tagPathless, pathlessObject. revert H. unfold stepExtra.
    destruct (extraRegex M line) as [m|]; [|discriminate].
    destruct (modifiersText (modifiersGroup m)); [eauto|discriminate]. }
  unfold lastPathless.
  destruct (tagPathless M TagExtra line) eqn:Te.
  { destruct (Hx eq_refl) as [q Hq]. eauto. }
  destruct (tagPathless M TagSkip line) eqn:Ts.
  { destruct (Hs eq_refl) as [q Hq]. eauto. }
  destruct (tagPathless M TagParam line) eqn:Tp.
  { destruct (Hp eq_refl) as [q Hq]. eauto. }
  destruct kind; congruence.
Qed.

End PendingSlot.

(** C9: the scanner holds at most one pending parameter.  If a tag
    without a path is scanned on line [j] while an object [p] of an
    earlier pathless tag is still pending (line [j] is no structural line,
    which would have resolved it), the slot is overwritten: when the line
    after [j] is no structural line, the slot holds after line [j] the
    object the last pathless tag of line [j] made, with that tag's
    description, and not [p]; when the line after [j] is structural, the
    slot is empty and the object of every pathless tag of line [j] is
    recorded under the path of that next line.  In both cases [p] is
    nowhere in the returned metadata.  ([linesScannable]: no modifier
    expression throws, see [literal_linesScannable].) *)
Theorem pending_overwritten :
  forall M data j st p line kind,
    linesScannable M (splitLines data) = true ->
    scanPrefix M (splitLines data) j = Some st ->
    pendingParam st = Some p ->
    nth_error (splitLines data) j = Some line ->
    isYamlKey (parseYamlLine line) = false ->
    tagPathless M kind line = true ->
    (exists st' kind' q,
        scanPrefix M (splitLines data) (S j) = Some st' /\
        lastPathless M line = Some kind' /\
        pathlessObject M j kind' line = Some q /\
        oid q = FromTag j kind' /\ oid q <> oid p /\
        pendingParam st' =
          if nextIsKey (nth_error (splitLines data) (S j)) then None
          else Some q) /\
    (exists md,
        parseMetadataComments M data = Some md /\
        absentFrom (oid p) md /\
        (nextIsKey (nth_error (splitLines data) (S j)) = true ->
         exists q,
           In q (parameters md) /\ oid q = FromTag j kind /\
           name q = buildCurrentPath
                      (fst (trackPaths (firstn (S (S j)) (splitLines data)))))).
Proof.
  intros M data j st p line kind Hscan Hst Hp Hline Hkey Hless.
  set (lines := splitLines data) in *.
  assert (Hj : j < List.length lines) by (apply nth_error_Some; congruence).
  destruct (scanPrefix_objects M lines j (Nat.lt_le_incl _ _ Hj) st Hst)
    as [_ Hpend].
  destruct (Hpend p Hp) as [[i0 [k0 [Hop Hi0]]] _].
  destruct (scanPrefix_total M lines Hscan (S j)) as [st' Hst'].
  destruct (scanPrefix_succ M lines j st' Hj Hst') as [st0 [l [H0 [Hl Hs]]]].
  assert (st0 = st) by congruence. assert (l = line) by congruence. subst st0 l.
  destruct (lastPathless_object M _ _ _ _ _ kind Hs Hless)
    as [kind' [q [Hlast Hobj]]].
  destruct (pathlessObject_oid M j kind' line q Hobj) as [Hoq _].
  assert (Hne : oid q <> oid p).
  { rewrite Hoq, Hop. intros E. inversion E. lia. }
  pose proof (scanLine_slot M _ _ _ _ _ Hs) as Hslot.
  rewrite Hlast, Hobj in Hslot.
  assert (Hpend' : forall q', pendingParam st' = Some q' -> oid q' <> oid p).
  { intros q' Hq'. rewrite Hslot in Hq'.
    destruct (nextIsKey (nth_error lines (S j))); [discriminate|].
    inversion Hq'; subst q'. exact Hne. }
  assert (Hmd' : forall q', In q' (mdParams st') -> oid q' <> oid p).
  { intros q' Hq'.
    destruct (scanLine_params M _ _ _ _ _ Hs q' Hq') as [Hq0|[Hy|[kind2 Ht]]].
    - apply (pending_not_attached M lines j (Nat.lt_le_incl _ _ Hj) st Hst p Hp q' Hq0).
    - destruct Hy as [Hy _]. congruence.
    - destruct Ht as [[Ho _] _]. rewrite Ho, Hop. intros E. inversion E. lia. }
  split.
  - exists st', kind', q. repeat split; assumption.
  - unfold parseMetadataComments. fold lines.
    destruct (scanPrefix_total M lines Hscan (List.length lines)) as [stN HN].
    assert (Hmd : option_map parsedValues
                    (scanPrefix M lines (List.length lines))
                  = Some (parsedValues stN)) by (rewrite HN; reflexivity).
    rewrite HN. cbn [option_map]. eexists. split; [reflexivity|]. split.
    + apply mdParams_absent. rewrite Hop in *.
      apply (absent_forever M lines i0 k0 (S j) st' ltac:(lia) Hst' Hmd' Hpend'
               (List.length lines) ltac:(lia) (Nat.le_refl _) stN HN).
    + intros Hnext. unfold nextIsKey in Hnext.
      destruct (nth_error lines (S j)) as [nextLine|] eqn:En; [|discriminate].
      exact (lookAhead_recorded M lines (parsedValues stN) Hmd
               j line nextLine kind Hline En Hnext Hless).
Qed.

(** The skip tag of the first line is pending when the parameter tag of
    the second line is scanned, and is dropped.  In the first file an
    empty line follows: the slot then holds the object of the parameter
    tag.  In the second a structural line follows: the slot is empty and
    the object of the parameter tag is recorded under [key]. *)
Lemma pending_overwritten_witness :
  (exists st p,
      scanPrefix (literalMatchers defaultConfig) (splitLines overwrittenText) 1
        = Some st /\
      pendingParam st = Some p /\
      oid p = FromTag 0 TagSkip /\
      nextIsKey (nth_error (splitLines overwrittenText) 2) = false /\
      (exists st' kind' q,
          scanPrefix (literalMatchers defaultConfig)
                     (splitLines overwrittenText) 2 = Some st' /\
          lastPathless (literalMatchers defaultConfig) "## @param second"
            = Some kind' /\
          pathlessObject (literalMatchers defaultConfig) 1 kind'
                         "## @param second" = Some q /\
          oid q = FromTag 1 kind' /\ oid q <> oid p /\
          pendingParam st' =
            if nextIsKey (nth_error (splitLines overwrittenText) 2) then None
            else Some q) /\
      (exists md,
          parseMetadataComments (literalMatchers defaultConfig) overwrittenText
            = Some md /\
          absentFrom (oid p) md /\
          (nextIsKey (nth_error (splitLines overwrittenText) 2) = true ->
           exists q,
             In q (parameters md) /\ oid q = FromTag 1 TagParam /\
             name q = buildCurrentPath
                        (fst (trackPaths
                                (firstn 3 (splitLines overwrittenText))))))) /\
  (exists st p,
      scanPrefix (literalMatchers defaultConfig)
                 (splitLines overwrittenKeyText) 1 = Some st /\
      pendingParam st = Some p /\
      oid p = FromTag 0 TagSkip /\
      nextIsKey (nth_error (splitLines overwrittenKeyText) 2) = true /\
      buildCurrentPath
        (fst (trackPaths (firstn 3 (splitLines overwrittenKeyText)))) = "key" /\
      (exists st',
          scanPrefix (literalMatchers defaultConfig)
                     (splitLines overwrittenKeyText) 2 = Some st' /\
          pendingParam st' = None) /\
      (exists md,
          parseMetadataComments (literalMatchers defaultConfig)
                                overwrittenKeyText = Some md /\
          absentFrom (oid p) md /\
          exists q,
            In q (parameters md) /\ oid q = FromTag 1 TagParam /\
            name q = buildCurrentPath
                       (fst (trackPaths
                               (firstn 3 (splitLines overwrittenKeyText)))))).
Proof.
  split.
  - eexists. eexists.
    split; [vm_compute; reflexivity|].
    split; [reflexivity|].
    split; [reflexivity|].
    split; [vm_compute; reflexivity|].
    eapply (pending_overwritten (literalMatchers defaultConfig) overwrittenText 1
              _ _ "## @param second" TagParam);
      vm_compute; reflexivity.
  - eexists. eexists.
    split; [vm_compute; reflexivity|].
    split; [reflexivity|].
    split; [reflexivity|].
    split; [vm_compute; reflexivity|].
    split; [vm_compute; reflexivity|].
    destruct (pending_overwritten (literalMatchers defaultConfig)
                overwrittenKeyText 1
                (mkScanState (mkMetadata [] []) None false [] []
                   (Some (setDescription "first"
                            (setSkip true (newParameter (FromTag 0 TagSkip) "")))))
                (setDescription "first"
                   (setSkip true (newParameter (FromTag 0 TagSkip) "")))
                "## @param second" TagParam
                ltac:(vm_compute; reflexivity) ltac:(vm_compute; reflexivity)
                eq_refl ltac:(vm_compute; reflexivity)
                ltac:(vm_compute; reflexivity) ltac:(vm_compute; reflexivity))
      as [[st' [kind' [q [Hst' [_ [_ [_ [_ Hslot]]]]]]]] [md [Hmd [Habs Hrec]]]].
    split.
    + exists st'. split; [exact Hst' | exact Hslot].
    + exists md. split; [exact Hmd|]. split; [exact Habs|].
      apply Hrec. vm_compute. reflexivity.
Defined.

(* ================================================================== *)
(** ** The description patterns, read character by character *)
(* ================================================================== *)

Section CommentPatterns.














End CommentPatterns.



(* ================================================================== *)
(** ** The nulls of a flat map, under the collaborators of the spec *)
(* ================================================================== *)

Section FlatMaps.

(** The collaborators modelled from the spec return on every tree but
    null. *)
Lemma Ref_lib_returns (t : jsval) :
  t <> JNull -> collaboratorsReturn Ref.lib t = true.
Proof.
  intros Ht. unfold collaboratorsReturn. apply andb_true_intro. split.
  - unfold Ref.lib. cbn [dotDot]. unfold Ref.dot.
    destruct t; try reflexivity. congruence.
  - apply forallb_forall. intros k _. apply andb_true_intro. split.
    + unfold lookupValue, Ref.lib.
      cbn [lodashGet lodashGetPath getArrayPath].
      destruct (Ref.get t k); reflexivity.
    + unfold prefixArray, arrayAt, Ref.lib.
      cbn [lodashGetPath getArrayPath getArrayPrefix].
      apply orb_true_r.
Qed.

Lemma assign_keys k x tgt key :
  In key (map fst (Ref.assign k x tgt)) <-> key = k \/ In key (map fst tgt).
Proof.
  induction tgt as [|[k' v'] tgt IH]; simpl.
  - intuition congruence.
  - destruct (String.eqb k' k) eqn:E; simpl.
    + apply String.eqb_eq in E. subst k'. intuition congruence.
    + rewrite IH. intuition congruence.
Qed.

(** The flattened keys of a flat map are its keys. *)
Lemma dotInto_flat (es : list (string * jsval)) :
  plainEntries es = true ->
  forall tgt key,
    In key (map fst (Ref.dotInto [] (JObj es) tgt))
    <-> In key (map fst tgt) \/ In key (map fst es).
Proof.
  induction es as [|[k x] es IH]; intros Hplain tgt key.
  - simpl. intuition.
  - simpl in Hplain. apply andb_true_iff in Hplain.
    destruct Hplain as [Hx Hes]. apply andb_true_iff in Hx.
    destruct Hx as [Hx _]. apply andb_true_iff in Hx.
    destruct Hx as [Hleaf _]. apply negb_true_iff in Hleaf.
    change (Ref.dotInto [] (JObj ((k, x) :: es)) tgt)
      with (Ref.dotInto [] (JObj es)
              (if Ref.isContainer x then Ref.dotInto ([] ++ [k]) x tgt
               else Ref.assign (JsString.join "." ([] ++ [k])) x tgt)).
    rewrite Hleaf. rewrite (IH Hes). simpl JsString.join.
    rewrite assign_keys. simpl. intuition congruence.
Qed.

Lemma flatKeys_flat (es : list (string * jsval)) key :
  plainEntries es = true ->
  (In key (flatKeys Ref.lib (JObj es)) <-> In key (map fst es)).
Proof.
  intros Hplain. unfold flatKeys, Ref.lib. cbn [dotDot]. unfold Ref.dot.
  rewrite (dotInto_flat es Hplain). simpl. intuition.
Qed.

Lemma plainEntries_key (es : list (string * jsval)) key :
  plainEntries es = true -> In key (map fst es) -> insideArray key = false.
Proof.
  intros Hplain Hin. apply in_map_iff in Hin. destruct Hin as [[k x] [Ek Hin]].
  simpl in Ek. subst k.
  unfold plainEntries in Hplain. rewrite forallb_forall in Hplain.
  specialize (Hplain _ Hin). simpl in Hplain.
  apply andb_true_iff in Hplain. destruct Hplain as [Hplain _].
  apply andb_true_iff in Hplain. destruct Hplain as [_ Hb].
  apply negb_true_iff in Hb.
  unfold insideArray. rewrite (split_single "[" key Hb). reflexivity.
Qed.

Lemma assoc_In k v (es : list (string * jsval)) :
  Ref.assoc k es = Some v -> In k (map fst es).
Proof.
  induction es as [|[k' v'] es IH]; simpl; [discriminate|].
  destruct (String.eqb k' k) eqn:E.
  - apply String.eqb_eq in E. auto.
  - auto.
Qed.

(** Under the collaborators modelled from the spec, every key of a flat
    map that is bound to null meets the conditions under which its
    parameter is "nil": the calls return, the look-up yields null, and the
    key is neither replaced by an array nor the prefix of one. *)
Lemma flat_map_null_conditions (es : list (string * jsval)) k :
  plainEntries es = true ->
  Ref.assoc k es = Some JNull ->
  collaboratorsReturn Ref.lib (JObj es) = true /\
  arraysResolve Ref.lib (JObj es) = true /\
  In k (flatKeys Ref.lib (JObj es)) /\
  lookupValue Ref.lib (JObj es) k = Some (Some JNull, true) /\
  collapses Ref.lib (JObj es) k = false /\
  prefixOfSome Ref.lib (JObj es) k = false.
Proof.
  intros Hplain Hnull.
  pose proof (assoc_In k JNull es Hnull) as Hk.
  split; [apply Ref_lib_returns; discriminate|].
  split.
  { unfold arraysResolve. apply forallb_forall. intros key Hkey.
    apply (flatKeys_flat es key Hplain) in Hkey.
    rewrite (plainEntries_key es key Hplain Hkey). reflexivity. }
  split; [apply (flatKeys_flat es k Hplain); exact Hk|].
  split.
  { unfold lookupValue, Ref.lib. cbn [lodashGet]. unfold Ref.get, Ref.member.
    rewrite Hnull. reflexivity. }
  split.
  { unfold collapses. rewrite (plainEntries_key es k Hplain Hk). reflexivity. }
  unfold prefixOfSome.
  match goal with |- ?b = false => destruct b eqn:E; [|reflexivity] end.
  apply existsb_exists in E. destruct E as [key [Hkey Hf]].
  apply (flatKeys_flat es key Hplain) in Hkey.
  rewrite (plainEntries_key es key Hplain Hkey) in Hf. discriminate.
Qed.

(** So every null of a flat map is flattened to "nil", with the type
    "object". *)
Lemma flat_map_null (es : list (string * jsval)) k :
  plainEntries es = true ->
  Ref.assoc k es = Some JNull ->
  exists out p,
    createValuesObject Ref.lib (JObj es) = Some out /\
    In p out /\ name p = k /\
    pvalue p = Some (JStr "nil") /\ type p = Some "object".
Proof.
  intros Hplain Hnull.
  destruct (flat_map_null_conditions es k Hplain Hnull)
    as [Hret [Hres [Hk [Hlook [Hcol Hpre]]]]].
  destruct (createValuesObject_total Ref.lib (JObj es) Hret Hres) as [out Hout].
  destruct (kept_parameter Ref.lib (JObj es) k out _ _ Hout Hk Hlook Hcol Hpre)
    as [p [Hp [Hn [Hv [Ht _]]]]].
  exists out, p. auto.
Qed.

End FlatMaps.
